(** * VPR routing-resource graph drawing: geometry, hit testing,
      highlighting, traceback flattening and path finding

    A shallow embedding of the routing-resource part of
    [vpr/SRC/draw/draw.cpp].

    Conventions of the embedding.
    - C++ [int] and [short] values are [Z]; the integer expressions of the
      embedded functions are sums of a few grid coordinates or pin numbers,
      a coordinate plus or minus one, a quotient and a remainder, so no
      wrap-around is written.  Indices into [rr_node], into [draw_rr_node]
      and into a node's edge arrays are [nat].
    - C++ [float] and [double] values live in an arbitrary type [F] carrying
      the operations of the class [FloatOps]; no law is assumed of them, so
      whatever is proved holds for IEEE arithmetic as well as for the exact
      rationals ([FloatOps_Q]) on which the examples are evaluated.
    - Global read-only tables ([rr_node], [grid], [tile_x], [tile_y]) are
      total functions of their index; the mutable arrays [draw_rr_node] and
      [net_color] are lists read with [!!!] and written with [<[_:=_]>].
      Reading or writing them out of range is undefined behaviour in C++;
      the lists read a default and ignore the write, and the theorems state
      the bounds they rely on.
    - A linked list ([s_trace], [t_linked_rt_edge]) is a [list]; [NULL] is
      [[]].
    - [vpr_throw], a failed [VTR_ASSERT] and a null dereference end the call:
      the functions that can reach one return an [option], [None] standing
      for the abort.
    - Calls into the graphics package ([drawline], [fillrect],
      [update_message], ...) have no effect on the modelled state; where a
      claim is about what is drawn, the function returns the arguments of
      the call.
    - The click handler [highlight_rr_nodes] ends by calling [drawscreen].
      The handler is modelled up to that call; of the redraw, the colours
      that [drawroute] writes into [draw_rr_node] are modelled, the other
      drawing routines are not. *)

From Stdlib Require Import ZArith QArith Bool List Lia.
From stdpp Require Import base decidable option list.
Import ListNotations.

Local Open Scope Z_scope.

(** ** Floating-point values *)

(** The operations the embedded code applies to [float] and [double]
    values.  [f_lit] is a decimal literal of the source ([1.], [0.3], [0]),
    [f_of_int] the conversion of an [int] operand, [f_le x y] the C++
    comparison [x <= y] (and [y >= x]). *)
Class FloatOps (F : Type) := {
  f_lit : Q -> F;
  f_of_int : Z -> F;
  f_add : F -> F -> F;
  f_sub : F -> F -> F;
  f_mul : F -> F -> F;
  f_div : F -> F -> F;
  f_le : F -> F -> bool
}.

Declare Scope float_scope.
Delimit Scope float_scope with flt.
Infix "+" := f_add : float_scope.
Infix "-" := f_sub : float_scope.
Infix "*" := f_mul : float_scope.
Infix "/" := f_div : float_scope.
Infix "<=?" := f_le : float_scope.
Notation "x >=? y" := (f_le y x) (at level 70) : float_scope.

(** Exact rational arithmetic, on which examples are evaluated. *)
#[export] Instance FloatOps_Q : FloatOps Q := {
  f_lit := fun q => q;
  f_of_int := inject_Z;
  f_add := Qplus;
  f_sub := Qminus;
  f_mul := Qmult;
  f_div := Qdiv;
  f_le := Qle_bool
}.

(** ** The routing-resource graph *)

Inductive t_rr_type := SOURCE | SINK | IPIN | OPIN | CHANX | CHANY.

Inductive e_direction := INC_DIRECTION | DEC_DIRECTION | BI_DIRECTION.

#[export] Instance t_rr_type_eq_dec : EqDecision t_rr_type.
Proof. solve_decision. Defined.

#[export] Instance e_direction_eq_dec : EqDecision e_direction.
Proof. solve_decision. Defined.

(** [t_rr_node]: the fields read by the drawing code.  [edges] and
    [switches] are the two parallel arrays of [get_num_edges()] entries. *)
Record t_rr_node := {
  type : t_rr_type;
  get_xlow : Z;
  get_xhigh : Z;
  get_ylow : Z;
  get_yhigh : Z;
  get_ptc_num : Z;
  get_direction : e_direction;
  edges : list nat;
  switches : list Z
}.

Definition get_num_edges (n : t_rr_node) : nat := length (edges n).

(** The globals [rr_node] and [num_rr_nodes]. *)
Record t_rr_graph := {
  rr_node : nat -> t_rr_node;
  num_rr_nodes : nat
}.

(** ** Draw coordinates *)

Record t_draw_coords (F : Type) := {
  tile_x : Z -> F;
  tile_y : Z -> F;
  get_tile_width : F;
  pin_size : F
}.
Arguments tile_x {F} _ _.
Arguments tile_y {F} _ _.
Arguments get_tile_width {F} _.
Arguments pin_size {F} _.

Record t_bound_box (F : Type) := {
  left : F;
  bottom : F;
  right : F;
  top : F
}.
Arguments left {F} _.
Arguments bottom {F} _.
Arguments right {F} _.
Arguments top {F} _.
Arguments Build_t_bound_box {F} _ _ _ _.

Section ChannelGeometry.
Context {F : Type} `{FloatOps F}.
Local Open Scope float_scope.

(** A default-constructed [t_bound_box]: all four coordinates zero. *)
Definition zero_bound_box : t_bound_box F :=
  Build_t_bound_box (f_lit 0) (f_lit 0) (f_lit 0) (f_lit 0).

(** [draw_get_rr_chan_bbox]: the boundary coordinates of a channel wire. *)
Definition draw_get_rr_chan_bbox
    (G : t_rr_graph) (draw_coords : t_draw_coords F) (inode : nat)
    : t_bound_box F :=
  let n := rr_node G inode in
  match type n with
  | CHANX =>
      {| left := tile_x draw_coords (get_xlow n);
         right := tile_x draw_coords (get_xhigh n)
                  + get_tile_width draw_coords;
         bottom := tile_y draw_coords (get_ylow n)
                   + get_tile_width draw_coords
                   + (f_lit 1 + f_of_int (get_ptc_num n));
         top := tile_y draw_coords (get_ylow n)
                + get_tile_width draw_coords
                + (f_lit 1 + f_of_int (get_ptc_num n)) |}
  | CHANY =>
      {| left := tile_x draw_coords (get_xlow n)
                 + get_tile_width draw_coords
                 + (f_lit 1 + f_of_int (get_ptc_num n));
         right := tile_x draw_coords (get_xlow n)
                  + get_tile_width draw_coords
                  + (f_lit 1 + f_of_int (get_ptc_num n));
         bottom := tile_y draw_coords (get_ylow n);
         top := tile_y draw_coords (get_yhigh n)
                + get_tile_width draw_coords |}
  | _ => zero_bound_box
  end.

End ChannelGeometry.

(** ** Device grid and pin placement *)

(** The enumerators of [e_side] are declared outside this file; their
    integer codes are a parameter of the embedding. *)
Record t_side_codes := {
  TOP : Z;
  RIGHT : Z;
  BOTTOM : Z;
  LEFT : Z
}.

(** The loop [for (iside = 0; iside < 4; iside++)] visits the four sides:
    each of [0 .. 3] is the code of one of them. *)
Definition sides_are_0_to_3 (sides : t_side_codes) : Prop :=
  forall iside : Z, (0 <= iside < 4)%Z ->
    iside = TOP sides \/ iside = RIGHT sides \/
    iside = BOTTOM sides \/ iside = LEFT sides.

(** [t_type_descriptor] ([*t_type_ptr]): [pinloc w h side pin] is the entry
    [pinloc[w][h][side][pin]], non-zero when the pin is on that side. *)
Record t_type_descriptor := {
  num_pins : Z;
  capacity : Z;
  pinloc : Z -> Z -> Z -> Z -> Z
}.

Record t_grid_tile := {
  grid_type : t_type_descriptor;
  width_offset : Z;
  height_offset : Z
}.

(** [OPEN] is the no-node value ([-1], as the comment on [hit_node] in
    [highlight_rr_nodes] records). *)
Definition OPEN : Z := -1.

Section HitTester.
Context {F : Type} `{FloatOps F}.
Variable sides : t_side_codes.
Variable G : t_rr_graph.
Variable grid : Z -> Z -> t_grid_tile.
Variable draw_coords : t_draw_coords F.
Local Open Scope float_scope.

(** [draw_get_rr_pin_coords]: where the centre of a pin is drawn on side
    [iside] of its block; [None] is the [vpr_throw] of the [default]
    case.  The two integer divisions are C++ divisions; a zero divisor is
    undefined behaviour there and yields [0] here. *)
Definition draw_get_rr_pin_coords
    (node : t_rr_node) (iside width_offset height_offset : Z)
    : option (F * F) :=
  let i := (get_xlow node + width_offset)%Z in
  let j := (get_ylow node + height_offset)%Z in
  let xc := tile_x draw_coords i in
  let yc := tile_y draw_coords j in
  let ipin := get_ptc_num node in
  let type := grid_type (grid i j) in
  let pins_per_sub_tile := Z.quot (num_pins type) (capacity type) in
  let k := Z.quot ipin pins_per_sub_tile in
  let step := get_tile_width draw_coords
              / f_of_int (num_pins type + capacity type) in
  let offset := f_of_int (ipin + k + 1) * step in
  if (iside =? LEFT sides)%Z then Some (xc, yc + offset)
  else if (iside =? RIGHT sides)%Z
    then Some (xc + get_tile_width draw_coords, yc + offset)
  else if (iside =? BOTTOM sides)%Z then Some (xc + offset, yc)
  else if (iside =? TOP sides)%Z
    then Some (xc + offset, yc + get_tile_width draw_coords)
  else None.

(** The click test of one drawn pin square. *)
Definition click_in_pin (click_x click_y xcen ycen : F) : bool :=
  (click_x >=? xcen - pin_size draw_coords)
  && (click_x <=? xcen + pin_size draw_coords)
  && (click_y >=? ycen - pin_size draw_coords)
  && (click_y <=? ycen + pin_size draw_coords).

(** The [for (iside = 0; iside < 4; iside++)] loop of
    [draw_check_rr_node_hit], [isides] being the values of [iside] still
    to visit; [Some true] is the [return hit_node]. *)
Fixpoint check_pin_sides
    (click_x click_y : F) (inode : nat) (isides : list Z) : option bool :=
  match isides with
  | [] => Some false
  | iside :: rest =>
      let n := rr_node G inode in
      let i := get_xlow n in
      let j := get_ylow n in
      let type := grid_type (grid i j) in
      let width_offset := width_offset (grid i j) in
      let height_offset := height_offset (grid i j) in
      let ipin := get_ptc_num n in
      if negb (pinloc type width_offset height_offset iside ipin =? 0)%Z
      then
        match draw_get_rr_pin_coords n iside width_offset height_offset with
        | None => None
        | Some (xcen, ycen) =>
            if click_in_pin click_x click_y xcen ycen then Some true
            else check_pin_sides click_x click_y inode rest
        end
      else check_pin_sides click_x click_y inode rest
  end.

(** [const float tolerance = 0.3]. *)
Definition tolerance : F := f_lit (3 # 10).

(** The click test of one channel wire. *)
Definition click_in_chan (click_x click_y : F) (bound_box : t_bound_box F)
    : bool :=
  (click_x >=? left bound_box - tolerance)
  && (click_x <=? right bound_box + tolerance)
  && (click_y >=? bottom bound_box - tolerance)
  && (click_y <=? top bound_box + tolerance).

(** The body of the loop over [inode]: [Some true] when the body returns
    [inode], [Some false] when it falls through to the next node. *)
Definition check_one_rr_node (click_x click_y : F) (inode : nat)
    : option bool :=
  match type (rr_node G inode) with
  | IPIN | OPIN => check_pin_sides click_x click_y inode [0; 1; 2; 3]%Z
  | CHANX | CHANY =>
      Some (click_in_chan click_x click_y
              (draw_get_rr_chan_bbox G draw_coords inode))
  | _ => Some false
  end.

(** The loop [for (inode = 0; inode < num_rr_nodes; inode++)], entered at
    [inode] with [remaining] iterations to go. *)
Fixpoint check_rr_node_hit_from
    (click_x click_y : F) (remaining inode : nat) : option Z :=
  match remaining with
  | O => Some OPEN
  | S remaining' =>
      match check_one_rr_node click_x click_y inode with
      | None => None
      | Some true => Some (Z.of_nat inode)
      | Some false =>
          check_rr_node_hit_from click_x click_y remaining' (S inode)
      end
  end.

(** [draw_check_rr_node_hit]: the id of the node clicked on, or [OPEN]. *)
Definition draw_check_rr_node_hit (click_x click_y : F) : option Z :=
  check_rr_node_hit_from click_x click_y (num_rr_nodes G) 0.

(** *** The test regions, as the specification words them *)

(** The point lies in the square of half-size [pin_size] around the drawn
    centre of the pin on one of the sides where the pin exists. *)
Definition in_pin_region (click_x click_y : F) (inode : nat) : Prop :=
  let n := rr_node G inode in
  let tile := grid (get_xlow n) (get_ylow n) in
  exists (iside : Z) (xcen ycen : F),
    (0 <= iside < 4)%Z /\
    pinloc (grid_type tile) (width_offset tile) (height_offset tile)
           iside (get_ptc_num n) <> 0%Z /\
    draw_get_rr_pin_coords n iside (width_offset tile) (height_offset tile)
      = Some (xcen, ycen) /\
    (xcen - pin_size draw_coords <=? click_x) = true /\
    (click_x <=? xcen + pin_size draw_coords) = true /\
    (ycen - pin_size draw_coords <=? click_y) = true /\
    (click_y <=? ycen + pin_size draw_coords) = true.

(** The point lies in the channel bounding box grown by [0.3] on its four
    sides. *)
Definition in_chan_region (click_x click_y : F) (inode : nat) : Prop :=
  let bb := draw_get_rr_chan_bbox G draw_coords inode in
  (left bb - f_lit (3 # 10) <=? click_x) = true /\
  (click_x <=? right bb + f_lit (3 # 10)) = true /\
  (bottom bb - f_lit (3 # 10) <=? click_y) = true /\
  (click_y <=? top bb + f_lit (3 # 10)) = true.

Definition in_test_region (click_x click_y : F) (inode : nat) : Prop :=
  match type (rr_node G inode) with
  | IPIN | OPIN => in_pin_region click_x click_y inode
  | CHANX | CHANY => in_chan_region click_x click_y inode
  | SOURCE | SINK => False
  end.

End HitTester.


(** ** Edges between two segments of one channel *)

(** The two end points handed to [drawline]: [(x1, y1)] on the source wire
    and [(x2, y2)] on the target wire. *)
Definition t_line (F : Type) : Type := ((F * F) * (F * F))%type.

Section SameAxisEdges.
Context {F : Type} `{FloatOps F}.
Variable G : t_rr_graph.
Variable draw_coords : t_draw_coords F.
Local Open Scope float_scope.

(** [draw_chanx_to_chanx_edge]: the line drawn for the edge between two
    x-channel segments; [None] when one of its [VTR_ASSERT]s fails.  The
    switch symbol that [draw_rr_switch] puts on that line is not modelled. *)
Definition draw_chanx_to_chanx_edge (from_node to_node : nat) (to_track : Z)
    : option (t_line F) :=
  let from_chan := draw_get_rr_chan_bbox G draw_coords from_node in
  let to_chan := draw_get_rr_chan_bbox G draw_coords to_node in
  let y1 := bottom from_chan in
  let y2 := bottom to_chan in
  let from_xlow := get_xlow (rr_node G from_node) in
  let from_xhigh := get_xhigh (rr_node G from_node) in
  let to_xlow := get_xlow (rr_node G to_node) in
  let to_xhigh := get_xhigh (rr_node G to_node) in
  let line (x1 x2 : F) : option (t_line F) := Some ((x1, y1), (x2, y2)) in
  if (to_xhigh <? from_xlow)%Z then
    line (left from_chan) (right to_chan)
  else if (to_xlow >? from_xhigh)%Z then
    line (right from_chan) (left to_chan)
  else if negb (bool_decide (get_direction (rr_node G to_node) = BI_DIRECTION))
  then
    if (Z.rem to_track 2 =? 0)%Z then
      if (from_xlow <? to_xlow)%Z then
        line (tile_x draw_coords (to_xlow - 1)%Z + get_tile_width draw_coords)
             (left to_chan)
      else None
    else
      if (from_xhigh >? to_xhigh)%Z then
        line (tile_x draw_coords (to_xhigh + 1)%Z) (right to_chan)
      else None
  else if (to_xlow <? from_xlow)%Z then
    line (left from_chan)
         (tile_x draw_coords (from_xlow - 1)%Z + get_tile_width draw_coords)
  else if (from_xlow <? to_xlow)%Z then
    line (tile_x draw_coords (to_xlow - 1)%Z + get_tile_width draw_coords)
         (left to_chan)
  else if (to_xhigh >? from_xhigh)%Z then
    line (right from_chan) (tile_x draw_coords (from_xhigh + 1)%Z)
  else if (from_xhigh >? to_xhigh)%Z then
    line (tile_x draw_coords (to_xhigh + 1)%Z) (right to_chan)
  else
    line (left from_chan) (left from_chan + get_tile_width draw_coords).

(** [draw_chany_to_chany_edge]: the same for two y-channel segments; this
    one has no assertion. *)
Definition draw_chany_to_chany_edge (from_node to_node : nat) (to_track : Z)
    : t_line F :=
  let from_chan := draw_get_rr_chan_bbox G draw_coords from_node in
  let to_chan := draw_get_rr_chan_bbox G draw_coords to_node in
  let from_ylow := get_ylow (rr_node G from_node) in
  let from_yhigh := get_yhigh (rr_node G from_node) in
  let to_ylow := get_ylow (rr_node G to_node) in
  let to_yhigh := get_yhigh (rr_node G to_node) in
  let x1 := left from_chan in
  let x2 := left to_chan in
  let line (y1 y2 : F) : t_line F := ((x1, y1), (x2, y2)) in
  if (to_yhigh <? from_ylow)%Z then
    line (bottom from_chan) (top to_chan)
  else if (to_ylow >? from_yhigh)%Z then
    line (top from_chan) (bottom to_chan)
  else if negb (bool_decide (get_direction (rr_node G to_node) = BI_DIRECTION))
  then
    if (Z.rem to_track 2 =? 0)%Z then
      line (tile_y draw_coords (to_ylow - 1)%Z + get_tile_width draw_coords)
           (bottom to_chan)
    else
      line (tile_y draw_coords (to_yhigh + 1)%Z) (top to_chan)
  else if (to_ylow <? from_ylow)%Z then
    line (bottom from_chan)
         (tile_y draw_coords (from_ylow - 1)%Z + get_tile_width draw_coords)
  else if (from_ylow <? to_ylow)%Z then
    line (tile_y draw_coords (to_ylow - 1)%Z + get_tile_width draw_coords)
         (bottom to_chan)
  else if (to_yhigh >? from_yhigh)%Z then
    line (top from_chan) (tile_y draw_coords (from_yhigh + 1)%Z)
  else if (from_yhigh >? to_yhigh)%Z then
    line (tile_y draw_coords (to_yhigh + 1)%Z) (top to_chan)
  else
    line (bottom from_chan) (bottom from_chan + get_tile_width draw_coords).

End SameAxisEdges.

(** Two lines with the same two end points, whichever comes first. *)
Definition same_end_points {F : Type} (l l' : t_line F) : Prop :=
  l = l' \/ l = (snd l', fst l').

(** The x-extents (resp. y-extents) of two wires share a grid column (resp.
    row): neither of the first two tests of the edge routines holds. *)
Definition x_ranges_overlap (a b : t_rr_node) : Prop :=
  (get_xlow a <= get_xhigh b /\ get_xlow b <= get_xhigh a)%Z.

Definition y_ranges_overlap (a b : t_rr_node) : Prop :=
  (get_ylow a <= get_yhigh b /\ get_ylow b <= get_yhigh a)%Z.


(** ** Highlight state *)

(** The named colours of the graphics package that the routing-resource
    code stores and compares with [==]; different names are different
    colours. *)
Inductive t_color :=
  | WHITE | BLACK | LIGHTGREY | RED | YELLOW | BLUE | PINK | DARKGREEN
  | MAGENTA | BISQUE | LIGHTSKYBLUE | MEDIUMPURPLE.

#[export] Instance t_color_eq_dec : EqDecision t_color.
Proof. solve_decision. Defined.

(** The highlight colours that are defined outside this file: the macros
    [DRIVES_IT_COLOR] and [DRIVEN_BY_IT_COLOR] and the constants
    [crit_path_colors::net::HEAD] and [crit_path_colors::net::TAIL]. *)
Record t_highlight_colors := {
  DRIVES_IT_COLOR : t_color;
  DRIVEN_BY_IT_COLOR : t_color;
  crit_path_net_HEAD : t_color;
  crit_path_net_TAIL : t_color
}.

(** [#define DEFAULT_RR_NODE_COLOR BLACK] *)
Definition DEFAULT_RR_NODE_COLOR : t_color := BLACK.

Inductive e_draw_rr_toggle :=
  | DRAW_NO_RR | DRAW_NODES_RR | DRAW_NODES_AND_SBOX_RR
  | DRAW_ALL_BUT_BUFFERS_RR | DRAW_ALL_RR.

#[export] Instance e_draw_rr_toggle_eq_dec : EqDecision e_draw_rr_toggle.
Proof. solve_decision. Defined.

(** [t_draw_rr_node]: the highlight state of one node. *)
Record t_draw_rr_node := {
  color : t_color;
  node_highlighted : bool
}.

#[export] Instance t_draw_rr_node_eq_dec : EqDecision t_draw_rr_node.
Proof. solve_decision. Defined.

#[export] Instance t_draw_rr_node_inhabited : Inhabited t_draw_rr_node :=
  populate {| color := DEFAULT_RR_NODE_COLOR; node_highlighted := false |}.

#[export] Instance t_color_inhabited : Inhabited t_color := populate BLACK.

(** [t_draw_state]: the fields the click handler reads and writes.
    [show_nets] holds an enumerator of [e_draw_nets], which the handler only
    tests for being zero. *)
Record t_draw_state := {
  draw_rr_toggle : e_draw_rr_toggle;
  show_nets : Z;
  draw_rr_node : list t_draw_rr_node;
  net_color : list t_color
}.

(** [deselect_all], for the nets and the rr nodes: every net and every
    node back at its default colour, no node highlighted. *)
Definition deselect_all (ds : t_draw_state) : t_draw_state :=
  {| draw_rr_toggle := draw_rr_toggle ds;
     show_nets := show_nets ds;
     draw_rr_node :=
       replicate (length (draw_rr_node ds))
         {| color := DEFAULT_RR_NODE_COLOR; node_highlighted := false |};
     net_color := replicate (length (net_color ds)) BLACK |}.

Section HighlightEngine.
Variable colors : t_highlight_colors.
Variable G : t_rr_graph.

(** The loop body of the fan-out loop of [draw_highlight_fan_in_fan_out]. *)
Definition highlight_fanout (hit_node : nat)
    (st : list t_draw_rr_node) (fanout_node : nat) : list t_draw_rr_node :=
  if bool_decide (color (st !!! hit_node) = MAGENTA) then
    <[fanout_node :=
        {| color := DRIVES_IT_COLOR colors; node_highlighted := true |}]> st
  else if bool_decide (color (st !!! hit_node) = WHITE) then
    <[fanout_node :=
        {| color := DEFAULT_RR_NODE_COLOR; node_highlighted := false |}]> st
  else st.

(** The body of the inner loop of its fan-in scan: one edge of [inode]. *)
Definition highlight_fanin (hit_node inode : nat)
    (st : list t_draw_rr_node) (fanout_node : nat) : list t_draw_rr_node :=
  if bool_decide (fanout_node = hit_node) then
    if bool_decide (color (st !!! hit_node) = MAGENTA) then
      <[inode := {| color := BLUE; node_highlighted := true |}]> st
    else if bool_decide (color (st !!! hit_node) = WHITE) then
      <[inode :=
          {| color := DEFAULT_RR_NODE_COLOR; node_highlighted := false |}]> st
    else st
  else st.

(** [draw_highlight_fan_in_fan_out]: first the edges of [hit_node], then
    the edges of every node from [0] to [num_rr_nodes - 1]. *)
Definition draw_highlight_fan_in_fan_out
    (hit_node : nat) (st : list t_draw_rr_node) : list t_draw_rr_node :=
  let st1 :=
    fold_left (highlight_fanout hit_node) (edges (rr_node G hit_node)) st in
  fold_left
    (fun st inode =>
       fold_left (highlight_fanin hit_node inode) (edges (rr_node G inode)) st)
    (seq 0 (num_rr_nodes G)) st1.

(** The [if]/[else] of [highlight_rr_nodes] that flips the node clicked
    on. *)
Definition toggle_hit_node
    (hit_node : nat) (st : list t_draw_rr_node) : list t_draw_rr_node :=
  if negb (bool_decide (color (st !!! hit_node) = MAGENTA)) then
    <[hit_node := {| color := MAGENTA; node_highlighted := true |}]> st
  else
    <[hit_node := {| color := WHITE; node_highlighted := false |}]> st.

(** The state in which the propagation leaves a fan-out neighbour (resp. a
    fan-in neighbour) of the node clicked on, [selected] telling whether
    that node has just been selected or deselected. *)
Definition fanout_mark (selected : bool) : t_draw_rr_node :=
  if selected
  then {| color := DRIVES_IT_COLOR colors; node_highlighted := true |}
  else {| color := DEFAULT_RR_NODE_COLOR; node_highlighted := false |}.

Definition fanin_mark (selected : bool) : t_draw_rr_node :=
  if selected
  then {| color := BLUE; node_highlighted := true |}
  else {| color := DEFAULT_RR_NODE_COLOR; node_highlighted := false |}.

(** The scan of one net's trace in [highlight_nets], from entry [tptr] on.
    The text appended to the status message is not modelled. *)
Fixpoint highlight_net_trace
    (st : list t_draw_rr_node) (inet : nat) (tptr : list nat)
    (net_color : list t_color) : list t_color :=
  match tptr with
  | [] => net_color
  | index :: next =>
      if bool_decide (color (st !!! index) = MAGENTA) then
        highlight_net_trace st inet next
          (<[inet := color (st !!! index)]> net_color)
      else if bool_decide (color (st !!! index) = WHITE) then
        <[inet := BLACK]> net_color
      else highlight_net_trace st inet next net_color
  end.

(** [highlight_nets]: every net in turn; [trace_head] holds one trace per
    net of [g_clbs_nlist]. *)
Definition highlight_nets
    (trace_head : list (list nat)) (st : list t_draw_rr_node)
    (net_color : list t_color) : list t_color :=
  fold_left
    (fun net_color inet =>
       highlight_net_trace st inet (trace_head !!! inet) net_color)
    (seq 0 (length trace_head)) net_color.

(** What a click that hit [hit_node] does to the draw state: the block
    [if (hit_node != OPEN)] of [highlight_rr_nodes] followed by its call of
    [highlight_nets], made when [show_nets] is not zero. *)
Definition highlight_hit_node
    (trace_head : list (list nat)) (hit_node : nat) (ds : t_draw_state)
    : t_draw_state :=
  let st1 := toggle_hit_node hit_node (draw_rr_node ds) in
  let st2 :=
    if negb (bool_decide (draw_rr_toggle ds = DRAW_NO_RR))
    then draw_highlight_fan_in_fan_out hit_node st1
    else st1 in
  let net_color' :=
    if negb (show_nets ds =? 0)%Z
    then highlight_nets trace_head st2 (net_color ds)
    else net_color ds in
  {| draw_rr_toggle := draw_rr_toggle ds;
     show_nets := show_nets ds;
     draw_rr_node := st2;
     net_color := net_color' |}.

End HighlightEngine.

Section ClickHandler.
Context {F : Type} `{FloatOps F}.
Variable sides : t_side_codes.
Variable colors : t_highlight_colors.
Variable G : t_rr_graph.
Variable grid : Z -> Z -> t_grid_tile.
Variable draw_coords : t_draw_coords F.
Variable trace_head : list (list nat).

(** [highlight_rr_nodes]: the draw state with which the handler of a click
    at [(x, y)] reaches its call of [drawscreen]; [None] when the hit test
    throws. *)
Definition highlight_rr_nodes (x y : F) (ds : t_draw_state)
    : option t_draw_state :=
  if bool_decide (draw_rr_toggle ds = DRAW_NO_RR) && (show_nets ds =? 0)%Z
  then Some ds
  else
    match draw_check_rr_node_hit sides G grid draw_coords x y with
    | None => None
    | Some hit_node =>
        if negb (hit_node =? OPEN)%Z then
          Some (highlight_hit_node colors G trace_head
                  (Z.to_nat hit_node) ds)
        else Some ds
    end.

End ClickHandler.


(** ** Splitting a traceback into partial routes *)

Inductive e_draw_net_type := ALL_NETS | HIGHLIGHTED.

#[export] Instance e_draw_net_type_eq_dec : EqDecision e_draw_net_type.
Proof. solve_decision. Defined.

Section TraceFlattener.
Variable colors : t_highlight_colors.
Variable G : t_rr_graph.

(** [draw_if_net_highlighted]: the net carries one of the highlight
    colours. *)
Definition draw_if_net_highlighted (net_color : list t_color) (inet : nat)
    : bool :=
  bool_decide (net_color !!! inet = MAGENTA)
  || bool_decide (net_color !!! inet = DRIVES_IT_COLOR colors)
  || bool_decide (net_color !!! inet = DRIVEN_BY_IT_COLOR colors)
  || bool_decide (net_color !!! inet = crit_path_net_HEAD colors)
  || bool_decide (net_color !!! inet = crit_path_net_TAIL colors).

(** The colour that the loop of [drawroute] gives to the node it has just
    stepped to: the colour of the net, with the highlighted flag set, when
    the net is highlighted; the default colour, the flag left alone,
    otherwise. *)
Definition drawroute_color_node (net_color : list t_color) (inet : nat)
    (st : list t_draw_rr_node) (inode : nat) : list t_draw_rr_node :=
  if draw_if_net_highlighted net_color inet then
    <[inode := {| color := net_color !!! inet; node_highlighted := true |}]> st
  else
    alter (fun d => {| color := DEFAULT_RR_NODE_COLOR;
                       node_highlighted := node_highlighted d |}) inode st.

(** The [for (;;)] loop of [drawroute] for net [inet].  [tptr_next] is the
    list hanging off [tptr->next], [rr_nodes_to_draw] the vector filled so
    far and [st] the array [draw_rr_node].  The result is the list of
    vectors handed to [draw_partial_route] inside the loop, in call order,
    the vector as the [break] leaves it, and [draw_rr_node]; [None] is the
    dereference of a null [tptr].  The calls of [draw_partial_route] are
    recorded, not run: a run of the loop that reaches the [break] has
    handed over these vectors and leaves this state, and a call of
    [draw_partial_route] that fails ends the run of the code before. *)
Fixpoint drawroute_loop (net_color : list t_color) (inet : nat)
    (tptr_next : list nat) (rr_nodes_to_draw : list nat)
    (st : list t_draw_rr_node)
    : option (list (list nat) * list nat * list t_draw_rr_node) :=
  match tptr_next with
  | [] => None
  | inode :: next =>
      let st := drawroute_color_node net_color inet st inode in
      let rr_nodes_to_draw := rr_nodes_to_draw ++ [inode] in
      if bool_decide (type (rr_node G inode) = SINK) then
        match next with
        | [] => Some ([rr_nodes_to_draw], [], st)
        | inode' :: next' =>
            match drawroute_loop net_color inet next' [inode'] st with
            | None => None
            | Some (calls, last, st) =>
                Some (rr_nodes_to_draw :: calls, last, st)
            end
        end
      else drawroute_loop net_color inet next rr_nodes_to_draw st
  end.

(** What [drawroute] does with net [inet] once the net has passed the test
    on [is_global] and the test on [draw_net_type]: nothing for a net
    without a trace; else the loop, and after it one more call of
    [draw_partial_route].  The result lists every vector handed to
    [draw_partial_route] and gives [draw_rr_node] as it is left. *)
Definition drawroute_net (net_color : list t_color) (inet : nat)
    (trace : list nat) (st : list t_draw_rr_node)
    : option (list (list nat) * list t_draw_rr_node) :=
  match trace with
  | [] => Some ([], st)
  | inode :: next =>
      match drawroute_loop net_color inet next [inode] st with
      | None => None
      | Some (calls, last, st) => Some (calls ++ [last], st)
      end
  end.

(** The loop over the nets of [drawroute], with the nets [inets] still to
    visit: [is_global] holds the flag of every net of [g_clbs_nlist] and
    [trace_head] its trace.  A global net is skipped, and so is a BLACK net
    when only the highlighted nets are drawn; the third [continue], on a
    null trace, is the first case of [drawroute_net]. *)
Fixpoint drawroute_nets (draw_net_type : e_draw_net_type)
    (is_global : list bool) (trace_head : list (list nat))
    (net_color : list t_color) (inets : list nat) (st : list t_draw_rr_node)
    : option (list (list nat) * list t_draw_rr_node) :=
  match inets with
  | [] => Some ([], st)
  | inet :: inets' =>
      if (is_global !!! inet : bool) then
        drawroute_nets draw_net_type is_global trace_head net_color inets' st
      else if bool_decide (draw_net_type = HIGHLIGHTED)
              && bool_decide (net_color !!! inet = BLACK) then
        drawroute_nets draw_net_type is_global trace_head net_color inets' st
      else
        match drawroute_net net_color inet (trace_head !!! inet) st with
        | None => None
        | Some (calls, st) =>
            match drawroute_nets draw_net_type is_global trace_head
                    net_color inets' st with
            | None => None
            | Some (calls', st) => Some (calls ++ calls', st)
            end
        end
  end.

(** [drawroute]: every vector it hands to [draw_partial_route], and the
    colours it leaves in [draw_rr_node]. *)
Definition drawroute (draw_net_type : e_draw_net_type)
    (is_global : list bool) (trace_head : list (list nat))
    (ds : t_draw_state) : option (list (list nat) * t_draw_state) :=
  match drawroute_nets draw_net_type is_global trace_head (net_color ds)
          (seq 0 (length is_global)) (draw_rr_node ds) with
  | None => None
  | Some (calls, st) =>
      Some (calls,
            {| draw_rr_toggle := draw_rr_toggle ds;
               show_nets := show_nets ds;
               draw_rr_node := st;
               net_color := net_color ds |})
  end.

(** The number of [SINK] entries of a trace. *)
Definition count_sinks (trace : list nat) : nat :=
  length (filter (fun inode => type (rr_node G inode) = SINK) trace).

(** A traceback as the router leaves it: it starts at a node that is no
    [SINK], every branch ends at a [SINK], and the entry after a [SINK] is
    the node at which the next branch leaves the routing built so far, which
    is no [SINK]. *)
Fixpoint trace_branches (after_sink : bool) (trace : list nat) : Prop :=
  match trace with
  | [] => after_sink = true
  | inode :: next =>
      if bool_decide (type (rr_node G inode) = SINK)
      then after_sink = false /\ trace_branches true next
      else trace_branches false next
  end.

Definition well_formed_trace (trace : list nat) : Prop :=
  trace <> [] /\ trace_branches true trace.

(** A partial route that ends at a [SINK] and meets none before. *)
Definition ends_at_sink (rr_nodes : list nat) : Prop :=
  exists body sink,
    rr_nodes = body ++ [sink] /\
    type (rr_node G sink) = SINK /\
    Forall (fun inode => type (rr_node G inode) <> SINK) body.

(** ** Switch lookup *)

(** The loop of [find_switch], entered at index [i] with [remaining]
    iterations to go; [None] is [VTR_ASSERT(false)]. *)
Fixpoint find_switch_from (prev : t_rr_node) (inode : nat)
    (remaining i : nat) : option Z :=
  match remaining with
  | O => None
  | S remaining' =>
      if bool_decide (edges prev !!! i = inode)
      then Some (switches prev !!! i)
      else find_switch_from prev inode remaining' (S i)
  end.

Definition find_switch (prev_inode inode : nat) : option Z :=
  let prev := rr_node G prev_inode in
  find_switch_from prev inode (get_num_edges prev) 0.

(** The calls [find_switch(prev_node, inode)] that the loop of
    [draw_partial_route] makes for [i = 1 .. size - 1], [prev_node] being the
    entry before the vector [rest]. *)
Fixpoint draw_partial_route_switches (prev_node : nat) (rest : list nat)
    : list (option Z) :=
  match rest with
  | [] => []
  | inode :: rest' =>
      find_switch prev_node inode :: draw_partial_route_switches inode rest'
  end.

Definition draw_partial_route_find_switch (rr_nodes_to_draw : list nat)
    : list (option Z) :=
  match rr_nodes_to_draw with
  | [] => []
  | first :: rest => draw_partial_route_switches first rest
  end.

(** [switch] is the switch of the first edge of [prev_inode] that leads to
    [inode]. *)
Definition first_edge_switch (prev_inode inode : nat) (switch : Z) : Prop :=
  let prev := rr_node G prev_inode in
  exists i : nat,
    edges prev !! i = Some inode /\
    (forall j : nat, (j < i)%nat -> edges prev !! j <> Some inode) /\
    switch = switches prev !!! i.

(** Every entry of the vector but the first is the target of an edge of the
    entry before it. *)
Fixpoint route_follows_edges (prev_node : nat) (rest : list nat) : Prop :=
  match rest with
  | [] => True
  | inode :: rest' =>
      inode ∈ edges (rr_node G prev_node) /\ route_follows_edges inode rest'
  end.

End TraceFlattener.

(** ** Path finding in a route tree *)

(** [t_rt_node]: the rr node it stands for and the list of its children
    ([u.child_list], one [t_linked_rt_edge] per child). *)
#[warnings="-register-all"]
Inductive t_rt_node :=
  | Rt_node (inode : nat) (child_list : list t_rt_node).

Definition inode (rt : t_rt_node) : nat :=
  match rt with Rt_node i _ => i end.

Definition child_list (rt : t_rt_node) : list t_rt_node :=
  match rt with Rt_node _ c => c end.

(** [trace_routed_connection_rr_nodes_recurr]: the flag it returns and the
    vector [rr_nodes_on_path] as it leaves it. *)
Fixpoint trace_routed_connection_rr_nodes_recurr
    (rt_node : t_rt_node) (sink_rr_node : nat) (rr_nodes_on_path : list nat)
    : bool * list nat :=
  match rt_node with
  | Rt_node rt_inode children =>
      if bool_decide (rt_inode = sink_rr_node) then
        (true, rr_nodes_on_path ++ [sink_rr_node])
      else
        (fix child_loop (edge : list t_rt_node) (rr_nodes_on_path : list nat)
           : bool * list nat :=
           match edge with
           | [] => (false, rr_nodes_on_path)
           | child_rt_node :: next =>
               let '(on_path_to_sink, rr_nodes_on_path) :=
                 trace_routed_connection_rr_nodes_recurr
                   child_rt_node sink_rr_node rr_nodes_on_path in
               if on_path_to_sink then (true, rr_nodes_on_path ++ [rt_inode])
               else child_loop next rr_nodes_on_path
           end) children rr_nodes_on_path
  end.

(** The [for] loop over the children of a tree node, on its own. *)
Fixpoint child_loop (rt_inode sink_rr_node : nat)
    (edge : list t_rt_node) (rr_nodes_on_path : list nat) : bool * list nat :=
  match edge with
  | [] => (false, rr_nodes_on_path)
  | child_rt_node :: next =>
      let '(on_path_to_sink, rr_nodes_on_path) :=
        trace_routed_connection_rr_nodes_recurr
          child_rt_node sink_rr_node rr_nodes_on_path in
      if on_path_to_sink then (true, rr_nodes_on_path ++ [rt_inode])
      else child_loop rt_inode sink_rr_node next rr_nodes_on_path
  end.

(** Induction on a route tree, the children of a node taken together. *)
Fixpoint t_rt_node_forall_ind (P : t_rt_node -> Prop)
    (step : forall i children, Forall P children -> P (Rt_node i children))
    (rt : t_rt_node) : P rt :=
  match rt with
  | Rt_node i children =>
      step i children
        ((fix all (l : list t_rt_node) : Forall P l :=
            match l with
            | [] => List.Forall_nil P
            | c :: l' =>
                List.Forall_cons P c l' (t_rt_node_forall_ind P step c) (all l')
            end) children)
  end.

Record t_net_pin := {
  net : Z;
  net_pin : Z
}.

Section PathFinder.
(** [traceback_to_route_tree] and the table [net_rr_terminals] belong to the
    router. *)
Variable traceback_to_route_tree : Z -> t_rt_node.
Variable net_rr_terminals : Z -> Z -> nat.

(** [trace_routed_connection_rr_nodes]: the rr nodes that connect the driver
    to the sink, driver first; [None] when a [VTR_ASSERT] fails. *)
Definition trace_routed_connection_rr_nodes
    (driver_clb_net_pin sink_clb_net_pin : t_net_pin) : option (list nat) :=
  if negb (net driver_clb_net_pin =? net sink_clb_net_pin)%Z then None
  else if negb (net_pin driver_clb_net_pin =? 0)%Z then None
  else
    let rt_root := traceback_to_route_tree (net driver_clb_net_pin) in
    if negb (bool_decide
               (inode rt_root
                = net_rr_terminals (net driver_clb_net_pin)
                                   (net_pin driver_clb_net_pin)))
    then None
    else
      let sink_rr_node :=
        net_rr_terminals (net sink_clb_net_pin) (net_pin sink_clb_net_pin) in
      let '(_, rr_nodes_on_path) :=
        trace_routed_connection_rr_nodes_recurr rt_root sink_rr_node [] in
      Some (rev rr_nodes_on_path).

End PathFinder.

(** Some node of the tree stands for rr node [x]. *)
Fixpoint rt_contains (x : nat) (rt : t_rt_node) : bool :=
  match rt with
  | Rt_node i children =>
      bool_decide (i = x) || existsb (rt_contains x) children
  end.

(** [rt_path rt p]: [p] lists the rr nodes met when walking from [rt] down
    the tree, each step going from a tree node to one of its children. *)
Inductive rt_path : t_rt_node -> list nat -> Prop :=
  | rt_path_end rt : rt_path rt [inode rt]
  | rt_path_step rt child p :
      child ∈ child_list rt -> rt_path child p -> rt_path rt (inode rt :: p).



(** ** A small device, for evaluation

    One block type with four pins, pin 0 on the first side; tiles ten units
    apart and six wide; a net that leaves OPIN 1 on the bidirectional wire 2
    and reaches the two sinks 5 and 6; wire 7 runs along wire 2 on the next
    track and is joined to it in both directions. *)

Definition ex_sides : t_side_codes :=
  {| TOP := 0; RIGHT := 1; BOTTOM := 2; LEFT := 3 |}.

Definition ex_type : t_type_descriptor :=
  {| num_pins := 4; capacity := 1;
     pinloc := fun _ _ side pin =>
       if ((side =? 0) && (pin =? 0))%Z then 1 else 0 |}.

Definition ex_grid : Z -> Z -> t_grid_tile :=
  fun _ _ => {| grid_type := ex_type; width_offset := 0; height_offset := 0 |}.

Definition ex_coords : t_draw_coords Q :=
  {| tile_x := fun i => inject_Z (10 * i);
     tile_y := fun j => inject_Z (10 * j);
     get_tile_width := 6%Q;
     pin_size := (1 # 2)%Q |}.

Definition ex_node (t : t_rr_type) (xl xh yl yh ptc : Z)
    (es : list nat) (sw : list Z) : t_rr_node :=
  {| type := t; get_xlow := xl; get_xhigh := xh; get_ylow := yl;
     get_yhigh := yh; get_ptc_num := ptc; get_direction := BI_DIRECTION;
     edges := es; switches := sw |}.

Definition ex_nodes : list t_rr_node :=
  [ ex_node SOURCE 1 1 1 1 0 [1%nat] [0];
    ex_node OPIN 1 1 1 1 0 [2%nat] [1];
    ex_node CHANX 1 2 1 1 0 [3%nat; 4%nat; 7%nat] [2; 2; 3];
    ex_node IPIN 2 2 1 1 1 [5%nat] [0];
    ex_node IPIN 1 1 2 2 2 [6%nat] [0];
    ex_node SINK 2 2 1 1 0 [] [];
    ex_node SINK 1 1 2 2 0 [] [];
    ex_node CHANX 1 2 1 1 1 [2%nat] [3] ].

Definition ex_graph : t_rr_graph :=
  {| rr_node := fun inode => nth inode ex_nodes (ex_node SOURCE 0 0 0 0 0 [] []);
     num_rr_nodes := 8 |}.

(** The traceback of the net: the branch to sink 5, then the branch that
    leaves wire 2 for sink 6. *)
Definition ex_trace : list nat :=
  [0; 1; 2; 3; 5; 2; 4; 6]%nat.

(** The route tree of that traceback. *)
Definition ex_route_tree : t_rt_node :=
  Rt_node 0 [Rt_node 1 [Rt_node 2 [Rt_node 3 [Rt_node 5 []];
                                  Rt_node 4 [Rt_node 6 []]]]].

(** Nothing highlighted. *)
Definition ex_draw_rr_node : list t_draw_rr_node :=
  replicate 8 {| color := DEFAULT_RR_NODE_COLOR; node_highlighted := false |}.

(** The two same-track-length wires of a y-channel, for the vertical edge
    routine. *)
Definition ex_graph_y : t_rr_graph :=
  {| rr_node := fun inode =>
       nth inode
         [ ex_node CHANY 1 1 1 2 0 [1%nat] [0];
           ex_node CHANY 1 1 1 2 1 [0%nat] [0] ]
         (ex_node SOURCE 0 0 0 0 0 [] []);
     num_rr_nodes := 2 |}.


(** The colours defined outside the file, for the example. *)
Definition ex_colors : t_highlight_colors :=
  {| DRIVES_IT_COLOR := RED; DRIVEN_BY_IT_COLOR := LIGHTSKYBLUE;
     crit_path_net_HEAD := YELLOW; crit_path_net_TAIL := DARKGREEN |}.

(** The draw state after [deselect_all], in the view that shows the
    routing-resource graph and in the view that shows the nets ([show_nets]
    not zero) without the graph. *)
Definition ex_state_rr_shown : t_draw_state :=
  {| draw_rr_toggle := DRAW_ALL_RR; show_nets := 0;
     draw_rr_node := ex_draw_rr_node; net_color := [BLACK] |}.

Definition ex_state_nets_only : t_draw_state :=
  {| draw_rr_toggle := DRAW_NO_RR; show_nets := 1;
     draw_rr_node := ex_draw_rr_node; net_color := [BLACK] |}.

(** A click that hits node [hit_node] of the example device. *)
Definition ex_click (hit_node : nat) (ds : t_draw_state) : t_draw_state :=
  highlight_hit_node ex_colors ex_graph [ex_trace] hit_node ds.

(** The colours in which the nets view is drawn again after a click. *)
Definition ex_redraw_nets (ds : t_draw_state) : t_draw_state :=
  match drawroute ex_colors ex_graph ALL_NETS [false] [ex_trace] ds with
  | Some (_, ds') => ds'
  | None => ds
  end.

(** The router's tables for the one net of the example: its terminals are
    the source 0 and the sinks 5 and 6. *)
Definition ex_net_rr_terminals : Z -> Z -> nat :=
  fun _ ipin => if (ipin =? 0)%Z then 0%nat
                else if (ipin =? 1)%Z then 5%nat else 6%nat.

Definition ex_traceback_to_route_tree : Z -> t_rt_node :=
  fun _ => ex_route_tree.


(** * The rest of the routing-resource drawing code *)

(** ** Drawing one partial route *)

Inductive e_route_type := GLOBAL | DETAILED.

Inductive e_edge_dir := FROM_X_TO_Y | FROM_Y_TO_X.

#[export] Instance e_route_type_eq_dec : EqDecision e_route_type.
Proof. solve_decision. Defined.

#[export] Instance e_edge_dir_eq_dec : EqDecision e_edge_dir.
Proof. solve_decision. Defined.

(** The calls that [draw_partial_route] makes to the drawing routines of
    the file, with their arguments.  A call is recorded, not run: what an
    edge routine draws is modelled where a property needs it
    ([draw_chanx_to_chanx_edge], [draw_chany_to_chany_edge],
    [draw_chanx_to_chany_edge], [draw_rr_pin]), and the assertions that
    [draw_pin_to_chan_edge], [draw_pin_to_pin] and
    [draw_chanx_to_chanx_edge] make on their arguments are not part of the
    record. *)
Inductive t_draw_call :=
  | Call_draw_rr_pin (inode : nat) (color : t_color)
  | Call_draw_pin_to_pin (opin_node ipin_node : nat)
  | Call_draw_pin_to_chan_edge (pin_node chan_node : nat)
  | Call_draw_rr_chanx (inode : nat) (color : t_color)
  | Call_draw_rr_chany (inode : nat) (color : t_color)
  | Call_draw_chanx_to_chanx_edge
      (from_node to_node : nat) (to_track switch_type : Z)
  | Call_draw_chany_to_chany_edge
      (from_node to_node : nat) (to_track switch_type : Z)
  | Call_draw_chanx_to_chany_edge
      (chanx_node : nat) (chanx_track : Z) (chany_node : nat)
      (chany_track : Z) (edge_dir : e_edge_dir) (switch_type : Z).

(** The two static tables [chanx_track] and [chany_track] of
    [draw_partial_route], indexed by grid location. *)
Record t_track_tables := {
  chanx_track : Z -> Z -> Z;
  chany_track : Z -> Z -> Z
}.

(** The tables as the two reset loops leave them: [-1] everywhere. *)
Definition reset_track_tables : t_track_tables :=
  {| chanx_track := fun _ _ => (-1); chany_track := fun _ _ => (-1) |}.

(** [table[x][y]++] *)
Definition incr_track (table : Z -> Z -> Z) (x y : Z) : Z -> Z -> Z :=
  fun i j => if (i =? x) && (j =? y) then table i j + 1 else table i j.

(** What one iteration of the loop of [draw_partial_route] leaves: the
    tables, the value of its local [itrack] when the node is a wire, the
    calls it made, and whether it got through the checks that
    [draw_partial_route] makes itself ([false]: the failed [VTR_ASSERT] of
    [find_switch], or a [vpr_throw] of [draw_partial_route] or
    [get_track_num]).  An assertion that fails inside a drawing routine
    called ends the run of the code as well and is not seen by this flag:
    an iteration that runs to its end has the flag set, and a set flag
    says no more than that the iteration got as far as its last call. *)
Record t_route_step := {
  step_tables : t_track_tables;
  step_itrack : option Z;
  step_calls : list t_draw_call;
  step_returned : bool
}.

Section PartialRoute.
Variable G : t_rr_graph.
Variable draw_route_type : e_route_type.
Variable st : list t_draw_rr_node.

(** [get_track_num]: the track of a node; [None] is its [vpr_throw]. *)
Definition get_track_num (inode : nat) (tables : t_track_tables) : option Z :=
  if bool_decide (draw_route_type = DETAILED)
  then Some (get_ptc_num (rr_node G inode))
  else
    let i := get_xlow (rr_node G inode) in
    let j := get_ylow (rr_node G inode) in
    match type (rr_node G inode) with
    | CHANX => Some (chanx_track tables i j)
    | CHANY => Some (chany_track tables i j)
    | _ => None
    end.

(** The body of the loop [for (i = 1; i < rr_nodes_to_draw.size(); ++i)],
    for the entry [inode] that follows [prev_node]. *)
Definition draw_partial_route_body (tables : t_track_tables)
    (prev_node inode : nat) : t_route_step :=
  let rr_type := type (rr_node G inode) in
  let prev_type := type (rr_node G prev_node) in
  let color := color (st !!! inode) in
  let aborted (tables : t_track_tables) (itrack : option Z)
              (calls : list t_draw_call) :=
    {| step_tables := tables; step_itrack := itrack; step_calls := calls;
       step_returned := false |} in
  let returned (tables : t_track_tables) (itrack : option Z)
               (calls : list t_draw_call) :=
    {| step_tables := tables; step_itrack := itrack; step_calls := calls;
       step_returned := true |} in
  match find_switch G prev_node inode with
  | None => aborted tables None []
  | Some switch_type =>
      match rr_type with
      | OPIN => returned tables None [Call_draw_rr_pin inode color]
      | IPIN =>
          returned tables None
            [Call_draw_rr_pin inode color;
             if bool_decide (prev_type = OPIN)
             then Call_draw_pin_to_pin prev_node inode
             else Call_draw_pin_to_chan_edge inode prev_node]
      | CHANX =>
          let tables :=
            if bool_decide (draw_route_type = GLOBAL)
            then {| chanx_track :=
                      incr_track (chanx_track tables)
                        (get_xlow (rr_node G inode)) (get_ylow (rr_node G inode));
                    chany_track := chany_track tables |}
            else tables in
          match get_track_num inode tables with
          | None => aborted tables None []
          | Some itrack =>
              let drawn := [Call_draw_rr_chanx inode color] in
              match prev_type with
              | CHANX =>
                  returned tables (Some itrack)
                    (drawn ++ [Call_draw_chanx_to_chanx_edge
                                 prev_node inode itrack switch_type])
              | CHANY =>
                  match get_track_num prev_node tables with
                  | None => aborted tables (Some itrack) drawn
                  | Some prev_track =>
                      returned tables (Some itrack)
                        (drawn ++ [Call_draw_chanx_to_chany_edge
                                     inode itrack prev_node prev_track
                                     FROM_Y_TO_X switch_type])
                  end
              | OPIN =>
                  returned tables (Some itrack)
                    (drawn ++ [Call_draw_pin_to_chan_edge prev_node inode])
              | _ => aborted tables (Some itrack) drawn
              end
          end
      | CHANY =>
          let tables :=
            if bool_decide (draw_route_type = GLOBAL)
            then {| chanx_track := chanx_track tables;
                    chany_track :=
                      incr_track (chany_track tables)
                        (get_xlow (rr_node G inode)) (get_ylow (rr_node G inode)) |}
            else tables in
          match get_track_num inode tables with
          | None => aborted tables None []
          | Some itrack =>
              let drawn := [Call_draw_rr_chany inode color] in
              match prev_type with
              | CHANX =>
                  match get_track_num prev_node tables with
                  | None => aborted tables (Some itrack) drawn
                  | Some prev_track =>
                      returned tables (Some itrack)
                        (drawn ++ [Call_draw_chanx_to_chany_edge
                                     prev_node prev_track inode itrack
                                     FROM_X_TO_Y switch_type])
                  end
              | CHANY =>
                  returned tables (Some itrack)
                    (drawn ++ [Call_draw_chany_to_chany_edge
                                 prev_node inode itrack switch_type])
              | OPIN =>
                  returned tables (Some itrack)
                    (drawn ++ [Call_draw_pin_to_chan_edge prev_node inode])
              | _ => aborted tables (Some itrack) drawn
              end
          end
      | _ => returned tables None []
      end
  end.

(** The loop, for the entries [rest] that follow [prev_node]: one step per
    iteration, up to and including the first that does not run to its
    end. *)
Fixpoint draw_partial_route_loop (tables : t_track_tables)
    (prev_node : nat) (rest : list nat) : list t_route_step :=
  match rest with
  | [] => []
  | inode :: rest' =>
      let step := draw_partial_route_body tables prev_node inode in
      step ::
        (if step_returned step
         then draw_partial_route_loop (step_tables step) inode rest'
         else [])
  end.

(** The iterations of [draw_partial_route].  The tables are reset when the
    routing is [GLOBAL]; when it is [DETAILED] they are never read. *)
Definition draw_partial_route_steps (rr_nodes_to_draw : list nat)
    : list t_route_step :=
  match rr_nodes_to_draw with
  | [] => []
  | first :: rest => draw_partial_route_loop reset_track_tables first rest
  end.

(** [draw_partial_route]: the calls it makes, in order, and the
    conjunction of the flags of its iterations.  A run that reaches its end
    has made these calls and has the flag set; the flag is [false] when
    the run stops at a check of [draw_partial_route] itself. *)
Definition draw_partial_route (rr_nodes_to_draw : list nat)
    : list t_draw_call * bool :=
  let steps := draw_partial_route_steps rr_nodes_to_draw in
  (concat (step_calls <$> steps), forallb step_returned steps).

(** No wire of the vector follows a node that is not a wire or an output
    pin. *)
Fixpoint wires_follow_wires_or_opins (prev_node : nat) (rest : list nat)
    : Prop :=
  match rest with
  | [] => True
  | inode :: rest' =>
      (type (rr_node G inode) = CHANX \/ type (rr_node G inode) = CHANY ->
       type (rr_node G prev_node) = CHANX \/
       type (rr_node G prev_node) = CHANY \/
       type (rr_node G prev_node) = OPIN) /\
      wires_follow_wires_or_opins inode rest'
  end.

(** The number of wires of type [t] at the grid location [(x, y)] among the
    entries [l]. *)
Definition count_wires_at (t : t_rr_type) (x y : Z) (l : list nat) : Z :=
  Z.of_nat
    (length
       (filter (fun inode => type (rr_node G inode) = t
                             /\ get_xlow (rr_node G inode) = x
                             /\ get_ylow (rr_node G inode) = y) l)).

End PartialRoute.

(** The node that a call draws, with the colour asked for, when the call is
    one of [draw_rr_pin], [draw_rr_chanx] and [draw_rr_chany]. *)
Definition node_drawn (call : t_draw_call) : option (nat * t_color) :=
  match call with
  | Call_draw_rr_pin inode color
  | Call_draw_rr_chanx inode color
  | Call_draw_rr_chany inode color => Some (inode, color)
  | _ => None
  end.

(** The track number that a call of an edge routine between two wires
    carries for the wire the edge leads to: [to_track], or the one of
    [chanx_track] and [chany_track] that belongs to the target of the
    edge. *)
Definition to_track_passed (call : t_draw_call) : option Z :=
  match call with
  | Call_draw_chanx_to_chanx_edge _ _ to_track _
  | Call_draw_chany_to_chany_edge _ _ to_track _ => Some to_track
  | Call_draw_chanx_to_chany_edge _ chanx_track _ chany_track edge_dir _ =>
      Some match edge_dir with
           | FROM_X_TO_Y => chany_track
           | FROM_Y_TO_X => chanx_track
           end
  | _ => None
  end.

(** ** Routes that follow the rr graph *)

Section RoutesInTheGraph.
Variable G : t_rr_graph.

(** Every entry of a traceback that follows an entry other than a [SINK] is
    the target of an edge of that entry.  (The entry after a [SINK] starts
    the next branch.) *)
Fixpoint trace_follows_edges (trace : list nat) : Prop :=
  match trace with
  | [] => True
  | inode :: next =>
      match next with
      | [] => True
      | inode' :: _ =>
          (type (rr_node G inode) <> SINK ->
           inode' ∈ edges (rr_node G inode))
          /\ trace_follows_edges next
      end
  end.

(** The edges that lead to a wire leave a wire or an output pin. *)
Definition wires_driven_by_wires_or_opins : Prop :=
  forall from_node to_node : nat,
    to_node ∈ edges (rr_node G from_node) ->
    type (rr_node G to_node) = CHANX \/ type (rr_node G to_node) = CHANY ->
    type (rr_node G from_node) = CHANX \/
    type (rr_node G from_node) = CHANY \/
    type (rr_node G from_node) = OPIN.

(** Every link from a node of the route tree to one of its children is an
    edge of the rr graph. *)
Fixpoint rt_follows_edges (rt : t_rt_node) : bool :=
  match rt with
  | Rt_node i children =>
      forallb
        (fun child =>
           bool_decide (inode child ∈ edges (rr_node G i))
           && rt_follows_edges child)
        children
  end.

End RoutesInTheGraph.

(** ** Drawing a routed connection of the critical path *)

Section RoutedConnection.
Variable G : t_rr_graph.
Variable draw_route_type : e_route_type.
Variable traceback_to_route_tree : Z -> t_rt_node.
Variable net_rr_terminals : Z -> Z -> nat.

(** The loop [for (int inode : routed_rr_nodes)] of
    [draw_routed_timing_edge_connection]: the colour of every node of the
    path is set, its highlight flag left alone. *)
Definition color_routed_rr_nodes (color : t_color)
    (routed_rr_nodes : list nat) (st : list t_draw_rr_node)
    : list t_draw_rr_node :=
  fold_left
    (fun st inode =>
       alter (fun d => {| color := color;
                          node_highlighted := node_highlighted d |}) inode st)
    routed_rr_nodes st.

(** [draw_routed_timing_edge_connection], from the point at which it has
    found the net pin [sink_clb_net_pin] by which the connection enters the
    sink block and the pin [driver_clb_net_pin] that drives that net: the
    path is traced, coloured and handed to [draw_partial_route].  The
    result gives the calls of [draw_partial_route], its flag, and
    [draw_rr_node] as the colouring loop leaves it; [None] is a failed
    [VTR_ASSERT] of [trace_routed_connection_rr_nodes]. *)
Definition draw_routed_timing_edge_connection
    (driver_clb_net_pin sink_clb_net_pin : t_net_pin) (color : t_color)
    (st : list t_draw_rr_node)
    : option (list t_draw_call * bool * list t_draw_rr_node) :=
  match trace_routed_connection_rr_nodes traceback_to_route_tree
          net_rr_terminals driver_clb_net_pin sink_clb_net_pin with
  | None => None
  | Some routed_rr_nodes =>
      let st := color_routed_rr_nodes color routed_rr_nodes st in
      let '(calls, returned) :=
        draw_partial_route G draw_route_type st routed_rr_nodes in
      Some (calls, returned, st)
  end.

End RoutedConnection.

(** ** A click in the graphics area *)

(** Where a click in the graphics area lands: on a block, or on the
    routing. *)
Inductive t_click :=
  | Click_on_block (clb_index : Z) (ds : t_draw_state)
  | Click_on_routing (ds : t_draw_state).

Section BlockClick.
Context {F : Type} `{FloatOps F}.
Variable sides : t_side_codes.
Variable colors : t_highlight_colors.
Variable G : t_rr_graph.
Variable grid : Z -> Z -> t_grid_tile.
Variable draw_coords : t_draw_coords F.
Variable trace_head : list (list nat).

(** [highlight_blocks].  [clb] is what its search through the grid tiles
    ends with: the index of a block whose box holds the click, or [None]
    when no block lies under the click ([clb == NULL]); the boxes are
    those of [get_absolute_clb_bbox], which belongs to another file.
    Every selection is dropped first unless the control key is held.
    With no block under the click, the click is handed to
    [highlight_rr_nodes]: the result is the draw state with which that
    routine reaches its call of [drawscreen], and [None] when the hit test
    throws.  With a block under the click, [highlight_rr_nodes] is not
    called; the code that selects the block is not modelled, and the
    result is the draw state with which it is entered. *)
Definition highlight_blocks (abs_x abs_y : F) (ctrl_pressed : bool)
    (clb : option Z) (ds : t_draw_state) : option t_click :=
  let ds := if negb ctrl_pressed then deselect_all ds else ds in
  match clb with
  | Some clb_index => Some (Click_on_block clb_index ds)
  | None =>
      Click_on_routing
        <$> highlight_rr_nodes sides colors G grid draw_coords trace_head
              abs_x abs_y ds
  end.

End BlockClick.

(** ** Drawing the rr graph *)

(** What [draw_rr] puts on the screen, in order: a node, by one of
    [draw_rr_chanx], [draw_rr_chany] and [draw_rr_pin], or an edge, by one
    of the edge routines after [setcolor]. *)
Inductive t_rr_drawn :=
  | Drawn_node (call : t_draw_call)
  | Drawn_edge (edge_color : t_color) (call : t_draw_call).

Section RrGraphView.
Variable colors : t_highlight_colors.
Variable G : t_rr_graph.

(** The colour set before an edge is drawn, by the [if]/[else] chain that
    every case of [draw_rr_edges] repeats: [otherwise] is the colour of its
    last branch. *)
Definition edge_setcolor (st : list t_draw_rr_node) (inode to_node : nat)
    (otherwise : t_color) : t_color :=
  if bool_decide (color (st !!! inode) = MAGENTA)
  then color (st !!! to_node)
  else if bool_decide (color (st !!! to_node) = MAGENTA)
  then color (st !!! inode)
  else otherwise.

(** One iteration of the loop of [draw_rr_edges], for edge [iedge] of
    [inode]: the edge drawn, if any, as the call made and the colour set
    for it; [None] is a [vpr_throw] of [draw_rr_edges].  The call is
    recorded, not run: an assertion that fails inside the edge routine
    ends the run of the code as well and gives no [None] here. *)
Definition draw_rr_edge (toggle : e_draw_rr_toggle)
    (st : list t_draw_rr_node) (inode iedge : nat)
    : option (list (t_color * t_draw_call)) :=
  let from_type := type (rr_node G inode) in
  let from_ptc_num := get_ptc_num (rr_node G inode) in
  let to_node := edges (rr_node G inode) !!! iedge in
  let to_type := type (rr_node G to_node) in
  let to_ptc_num := get_ptc_num (rr_node G to_node) in
  let switch_type := switches (rr_node G inode) !!! iedge in
  let pin_of_wire :=
    if bool_decide (toggle = DRAW_NODES_AND_SBOX_RR) then Some []
    else if node_highlighted (st !!! to_node)
            && bool_decide (color (st !!! inode) = DEFAULT_RR_NODE_COLOR)
    then Some []
    else Some [(edge_setcolor st inode to_node LIGHTSKYBLUE,
                Call_draw_pin_to_chan_edge to_node inode)] in
  match from_type with
  | OPIN =>
      match to_type with
      | CHANX | CHANY =>
          Some [(edge_setcolor st inode to_node PINK,
                 Call_draw_pin_to_chan_edge inode to_node)]
      | IPIN =>
          Some [(edge_setcolor st inode to_node MEDIUMPURPLE,
                 Call_draw_pin_to_pin inode to_node)]
      | _ => None
      end
  | CHANX =>
      match to_type with
      | IPIN => pin_of_wire
      | CHANX =>
          Some [(edge_setcolor st inode to_node DARKGREEN,
                 Call_draw_chanx_to_chanx_edge inode to_node
                   to_ptc_num switch_type)]
      | CHANY =>
          Some [(edge_setcolor st inode to_node DARKGREEN,
                 Call_draw_chanx_to_chany_edge inode from_ptc_num to_node
                   to_ptc_num FROM_X_TO_Y switch_type)]
      | _ => None
      end
  | CHANY =>
      match to_type with
      | IPIN => pin_of_wire
      | CHANX =>
          Some [(edge_setcolor st inode to_node DARKGREEN,
                 Call_draw_chanx_to_chany_edge to_node to_ptc_num inode
                   from_ptc_num FROM_Y_TO_X switch_type)]
      | CHANY =>
          Some [(edge_setcolor st inode to_node DARKGREEN,
                 Call_draw_chany_to_chany_edge inode to_node
                   to_ptc_num switch_type)]
      | _ => None
      end
  | _ => None
  end.

(** The loop over the edges [iedges] still to visit. *)
Fixpoint draw_rr_edges_loop (toggle : e_draw_rr_toggle)
    (st : list t_draw_rr_node) (inode : nat) (iedges : list nat)
    : option (list (t_color * t_draw_call)) :=
  match iedges with
  | [] => Some []
  | iedge :: iedges' =>
      match draw_rr_edge toggle st inode iedge with
      | None => None
      | Some drawn =>
          match draw_rr_edges_loop toggle st inode iedges' with
          | None => None
          | Some drawn' => Some (drawn ++ drawn')
          end
      end
  end.

(** [draw_rr_edges]: the edges of [inode] that it draws, each with the
    colour set for it; [None] is a [vpr_throw] of [draw_rr_edges] itself.
    A run that reaches its end has made these calls. *)
Definition draw_rr_edges (toggle : e_draw_rr_toggle)
    (st : list t_draw_rr_node) (inode : nat)
    : option (list (t_color * t_draw_call)) :=
  if bool_decide (toggle = DRAW_NODES_RR)
     || (bool_decide (toggle = DRAW_NODES_AND_SBOX_RR)
         && bool_decide (type (rr_node G inode) = OPIN))
  then Some []
  else
    draw_rr_edges_loop toggle st inode
      (seq 0 (get_num_edges (rr_node G inode))).

(** The first [switch] of the loop of [draw_rr]: a node that is not
    highlighted takes the colour of its type. *)
Definition draw_rr_type_color (st : list t_draw_rr_node) (inode : nat)
    : list t_draw_rr_node :=
  if negb (node_highlighted (st !!! inode)) then
    match type (rr_node G inode) with
    | CHANX | CHANY =>
        alter (fun d => {| color := DEFAULT_RR_NODE_COLOR;
                           node_highlighted := node_highlighted d |}) inode st
    | OPIN =>
        alter (fun d => {| color := PINK;
                           node_highlighted := node_highlighted d |}) inode st
    | IPIN =>
        alter (fun d => {| color := LIGHTSKYBLUE;
                           node_highlighted := node_highlighted d |}) inode st
    | _ => st
    end
  else st.

(** The second [switch]: the node is drawn, and its edges after it. *)
Definition draw_rr_draw_node (toggle : e_draw_rr_toggle)
    (st : list t_draw_rr_node) (inode : nat) : option (list t_rr_drawn) :=
  let color := color (st !!! inode) in
  let with_edges (call : t_draw_call) :=
    match draw_rr_edges toggle st inode with
    | None => None
    | Some drawn =>
        Some (Drawn_node call
              :: ((fun edge => Drawn_edge (fst edge) (snd edge)) <$> drawn))
    end in
  match type (rr_node G inode) with
  | SOURCE | SINK => Some []
  | CHANX => with_edges (Call_draw_rr_chanx inode color)
  | CHANY => with_edges (Call_draw_rr_chany inode color)
  | IPIN => Some [Drawn_node (Call_draw_rr_pin inode color)]
  | OPIN => with_edges (Call_draw_rr_pin inode color)
  end.

(** The loop of [draw_rr] over the nodes [inodes] still to visit. *)
Fixpoint draw_rr_loop (toggle : e_draw_rr_toggle) (inodes : list nat)
    (st : list t_draw_rr_node)
    : option (list t_rr_drawn * list t_draw_rr_node) :=
  match inodes with
  | [] => Some ([], st)
  | inode :: inodes' =>
      let st := draw_rr_type_color st inode in
      match draw_rr_draw_node toggle st inode with
      | None => None
      | Some drawn =>
          match draw_rr_loop toggle inodes' st with
          | None => None
          | Some (drawn', st) => Some (drawn ++ drawn', st)
          end
      end
  end.

(** [draw_rr]: what it draws of the rr graph, the vectors that its call of
    [drawroute] hands to [draw_partial_route], and the draw state it
    leaves; [None] when [draw_rr_edges] throws or [drawroute] fails.  A
    run that reaches its end has drawn this and leaves this state. *)
Definition draw_rr (is_global : list bool) (trace_head : list (list nat))
    (ds : t_draw_state)
    : option (list t_rr_drawn * list (list nat) * t_draw_state) :=
  if bool_decide (draw_rr_toggle ds = DRAW_NO_RR) then
    match drawroute colors G HIGHLIGHTED is_global trace_head ds with
    | None => None
    | Some (calls, ds) => Some ([], calls, ds)
    end
  else
    match draw_rr_loop (draw_rr_toggle ds) (seq 0 (num_rr_nodes G))
            (draw_rr_node ds) with
    | None => None
    | Some (drawn, st) =>
        match drawroute colors G HIGHLIGHTED is_global trace_head
                {| draw_rr_toggle := draw_rr_toggle ds;
                   show_nets := show_nets ds;
                   draw_rr_node := st;
                   net_color := net_color ds |} with
        | None => None
        | Some (calls, ds) => Some (drawn, calls, ds)
        end
    end.

(** The targets for which [draw_rr_edges] has a case when the node is of
    type [from_type]; an edge to any other target ends in a [vpr_throw]. *)
Definition edge_types_drawn (from_type to_type : t_rr_type) : bool :=
  match from_type, to_type with
  | OPIN, (CHANX | CHANY | IPIN) => true
  | (CHANX | CHANY), (IPIN | CHANX | CHANY) => true
  | _, _ => false
  end.

(** The state in which the colouring pass of [draw_rr] leaves a node. *)
Definition type_colored (inode : nat) (d : t_draw_rr_node) : t_draw_rr_node :=
  if node_highlighted d then d
  else
    match type (rr_node G inode) with
    | CHANX | CHANY => {| color := DEFAULT_RR_NODE_COLOR; node_highlighted := false |}
    | OPIN => {| color := PINK; node_highlighted := false |}
    | IPIN => {| color := LIGHTSKYBLUE; node_highlighted := false |}
    | _ => d
    end.

(** The node drawn, with its colour, when what [draw_rr] has drawn is a
    node. *)
Definition rr_node_drawn (drawn : t_rr_drawn) : option (nat * t_color) :=
  match drawn with
  | Drawn_node call => node_drawn call
  | Drawn_edge _ _ => None
  end.

(** The nodes that a call is given. *)
Definition call_nodes (call : t_draw_call) : list nat :=
  match call with
  | Call_draw_rr_pin inode _
  | Call_draw_rr_chanx inode _
  | Call_draw_rr_chany inode _ => [inode]
  | Call_draw_pin_to_pin opin_node ipin_node => [opin_node; ipin_node]
  | Call_draw_pin_to_chan_edge pin_node chan_node => [pin_node; chan_node]
  | Call_draw_chanx_to_chanx_edge from_node to_node _ _
  | Call_draw_chany_to_chany_edge from_node to_node _ _ =>
      [from_node; to_node]
  | Call_draw_chanx_to_chany_edge chanx_node _ chany_node _ _ _ =>
      [chanx_node; chany_node]
  end.

(** The call draws a connection between two wires. *)
Definition wire_to_wire (call : t_draw_call) : bool :=
  match call with
  | Call_draw_chanx_to_chanx_edge _ _ _ _
  | Call_draw_chany_to_chany_edge _ _ _ _
  | Call_draw_chanx_to_chany_edge _ _ _ _ _ _ => true
  | _ => false
  end.

End RrGraphView.

(** ** Edges between an x-channel and a y-channel segment *)

Section CrossAxisEdges.
Context {F : Type} `{FloatOps F}.
Variable G : t_rr_graph.
Variable draw_coords : t_draw_coords F.
Local Open Scope float_scope.

(** [draw_chanx_to_chany_edge]: the line drawn for the switch-box
    connection between an x-directed and a y-directed wire, [(x1, y1)] on
    the x-directed wire first.  The switch symbol put on the line is not
    modelled. *)
Definition draw_chanx_to_chany_edge
    (chanx_node : nat) (chanx_track : Z) (chany_node : nat) (chany_track : Z)
    (edge_dir : e_edge_dir) : t_line F :=
  let chanx_bbox := draw_get_rr_chan_bbox G draw_coords chanx_node in
  let chany_bbox := draw_get_rr_chan_bbox G draw_coords chany_node in
  let y1 := bottom chanx_bbox in
  let x2 := left chany_bbox in
  let chanx_xlow := get_xlow (rr_node G chanx_node) in
  let chanx_y := get_ylow (rr_node G chanx_node) in
  let chany_x := get_xlow (rr_node G chany_node) in
  let chany_ylow := get_ylow (rr_node G chany_node) in
  let x1 :=
    if (chanx_xlow <=? chany_x)%Z then
      if negb (bool_decide
                 (get_direction (rr_node G chanx_node) = BI_DIRECTION))
         && bool_decide (edge_dir = FROM_X_TO_Y)
         && (Z.rem chanx_track 2 =? 1)%Z
      then tile_x draw_coords (chany_x + 1)%Z
      else tile_x draw_coords chany_x + get_tile_width draw_coords
    else left chanx_bbox in
  let y2 :=
    if (chany_ylow <=? chanx_y)%Z then
      if negb (bool_decide
                 (get_direction (rr_node G chany_node) = BI_DIRECTION))
         && bool_decide (edge_dir = FROM_Y_TO_X)
         && (Z.rem chany_track 2 =? 1)%Z
      then tile_y draw_coords (chanx_y + 1)%Z
      else tile_y draw_coords chanx_y + get_tile_width draw_coords
    else bottom chany_bbox in
  ((x1, y1), (x2, y2)).

End CrossAxisEdges.

(** ** Drawing a pin *)

Section PinSquares.
Context {F : Type} `{FloatOps F}.
Variable sides : t_side_codes.
Variable G : t_rr_graph.
Variable grid : Z -> Z -> t_grid_tile.
Variable draw_coords : t_draw_coords F.
Local Open Scope float_scope.

(** The loop [for (iside = 0; iside < 4; iside++)] of [draw_rr_pin],
    [isides] being the values of [iside] still to visit: the rectangles
    handed to [fillrect]. *)
Fixpoint draw_rr_pin_sides (inode : nat) (isides : list Z)
    : option (list (t_bound_box F)) :=
  match isides with
  | [] => Some []
  | iside :: rest =>
      let n := rr_node G inode in
      let i := get_xlow n in
      let j := get_ylow n in
      let type := grid_type (grid i j) in
      let width_offset := width_offset (grid i j) in
      let height_offset := height_offset (grid i j) in
      let ipin := get_ptc_num n in
      if negb (pinloc type width_offset height_offset iside ipin =? 0)%Z
      then
        match draw_get_rr_pin_coords sides grid draw_coords n iside
                width_offset height_offset with
        | None => None
        | Some (xcen, ycen) =>
            match draw_rr_pin_sides inode rest with
            | None => None
            | Some rects =>
                Some ({| left := xcen - pin_size draw_coords;
                         bottom := ycen - pin_size draw_coords;
                         right := xcen + pin_size draw_coords;
                         top := ycen + pin_size draw_coords |} :: rects)
            end
        end
      else draw_rr_pin_sides inode rest
  end.

(** [draw_rr_pin]: the squares it fills, none when the level-of-detail
    test [LOD_screen_area_test_square] fails ([zoomed_in] is the result of
    that test); [None] is the [vpr_throw] of [draw_get_rr_pin_coords].  The
    pin number written into each square is not modelled. *)
Definition draw_rr_pin (zoomed_in : bool) (inode : nat)
    : option (list (t_bound_box F)) :=
  if negb zoomed_in then Some []
  else draw_rr_pin_sides inode [0; 1; 2; 3]%Z.

(** The point lies in the rectangle, its border included. *)
Definition in_rect (x y : F) (rect : t_bound_box F) : Prop :=
  (left rect <=? x) = true /\ (x <=? right rect) = true /\
  (bottom rect <=? y) = true /\ (y <=? top rect) = true.

End PinSquares.

(** ** The critical-path button *)

Inductive pic_type := NO_PICTURE | PLACEMENT | ROUTING.

Inductive e_draw_crit_path :=
  | DRAW_NO_CRIT_PATH
  | DRAW_CRIT_PATH_FLYLINES
  | DRAW_CRIT_PATH_FLYLINES_DELAYS
  | DRAW_CRIT_PATH_ROUTING
  | DRAW_CRIT_PATH_ROUTING_DELAYS.

#[export] Instance e_draw_crit_path_eq_dec : EqDecision e_draw_crit_path.
Proof. solve_decision. Defined.

(** [toggle_crit_path]: the new value of [show_crit_path]; [None] is the
    failed [VTR_ASSERT] when neither a placement nor a routing is on
    screen. *)
Definition toggle_crit_path (pic_on_screen : pic_type)
    (show_crit_path : e_draw_crit_path) : option e_draw_crit_path :=
  match pic_on_screen with
  | PLACEMENT =>
      Some match show_crit_path with
           | DRAW_NO_CRIT_PATH => DRAW_CRIT_PATH_FLYLINES
           | DRAW_CRIT_PATH_FLYLINES => DRAW_CRIT_PATH_FLYLINES_DELAYS
           | _ => DRAW_NO_CRIT_PATH
           end
  | ROUTING =>
      Some match show_crit_path with
           | DRAW_NO_CRIT_PATH => DRAW_CRIT_PATH_FLYLINES
           | DRAW_CRIT_PATH_FLYLINES => DRAW_CRIT_PATH_FLYLINES_DELAYS
           | DRAW_CRIT_PATH_FLYLINES_DELAYS => DRAW_CRIT_PATH_ROUTING
           | DRAW_CRIT_PATH_ROUTING => DRAW_CRIT_PATH_ROUTING_DELAYS
           | _ => DRAW_NO_CRIT_PATH
           end
  | NO_PICTURE => None
  end.

(** The button pressed [n] times in a row on the same picture. *)
Fixpoint toggle_crit_path_times (n : nat) (pic_on_screen : pic_type)
    (show_crit_path : e_draw_crit_path) : option e_draw_crit_path :=
  match n with
  | O => Some show_crit_path
  | S n' =>
      match toggle_crit_path pic_on_screen show_crit_path with
      | None => None
      | Some show_crit_path' =>
          toggle_crit_path_times n' pic_on_screen show_crit_path'
      end
  end.

(** The modes in which [draw_crit_path] draws the routing of the path. *)
Definition routed_crit_path (show_crit_path : e_draw_crit_path) : bool :=
  match show_crit_path with
  | DRAW_CRIT_PATH_ROUTING | DRAW_CRIT_PATH_ROUTING_DELAYS => true
  | _ => false
  end.

(** A wire of each axis at the same switch box, for the edge routine that
    joins the two axes. *)
Definition ex_graph_xy : t_rr_graph :=
  {| rr_node := fun inode =>
       nth inode
         [ ex_node CHANX 1 2 1 1 0 [1%nat] [0];
           ex_node CHANY 1 1 1 2 1 [0%nat] [0] ]
         (ex_node SOURCE 0 0 0 0 0 [] []);
     num_rr_nodes := 2 |}.

(** The view that shows every edge of that switch box, with nothing
    selected and no net. *)
Definition ex_state_xy : t_draw_state :=
  {| draw_rr_toggle := DRAW_ALL_RR; show_nets := 0;
     draw_rr_node :=
       replicate 2
         {| color := DEFAULT_RR_NODE_COLOR; node_highlighted := false |};
     net_color := [] |}.

(** ** The example device in the view that shows the rr graph

    The draw states after the rr graph has been drawn with nothing
    selected, after a click on wire 2 and the redraw, and after a second
    click on wire 2 and the redraw. *)

Definition ex_state_of
    (result : option (list t_rr_drawn * list (list nat) * t_draw_state))
    : t_draw_state :=
  match result with
  | Some (_, _, ds) => ds
  | None => ex_state_rr_shown
  end.

Definition ex_rr_view_0 : t_draw_state :=
  Eval vm_compute in
    ex_state_of (draw_rr ex_colors ex_graph [false] [ex_trace]
                   (deselect_all ex_state_rr_shown)).

Definition ex_rr_view_1 : t_draw_state :=
  Eval vm_compute in
    ex_state_of (draw_rr ex_colors ex_graph [false] [ex_trace]
                   (highlight_hit_node ex_colors ex_graph [ex_trace] 2
                      ex_rr_view_0)).

Definition ex_rr_view_2 : t_draw_state :=
  Eval vm_compute in
    ex_state_of (draw_rr ex_colors ex_graph [false] [ex_trace]
                   (highlight_hit_node ex_colors ex_graph [ex_trace] 2
                      ex_rr_view_1)).
(** * Properties *)

(** ** Channel geometry *)

Section ChannelGeometryFacts.
Context {F : Type} `{FloatOps F}.
Variable G : t_rr_graph.
Variable draw_coords : t_draw_coords F.
Local Open Scope float_scope.

(** C2: the bounding box of a CHANX node runs from [tile_x[xlow]] to
    [tile_x[xhigh] + tile_width] and has its bottom and its top both at
    [tile_y[ylow] + tile_width + (1 + ptc_num)]; the box of a CHANY node is
    the same construction with the axes exchanged, left and right both at
    [tile_x[xlow] + tile_width + (1 + ptc_num)]; a node of any other type
    gets the box whose four coordinates are zero. *)
Theorem draw_get_rr_chan_bbox_by_type (inode : nat) :
  let n := rr_node G inode in
  let bb := draw_get_rr_chan_bbox G draw_coords inode in
  match type n with
  | CHANX =>
      left bb = tile_x draw_coords (get_xlow n) /\
      right bb = tile_x draw_coords (get_xhigh n) + get_tile_width draw_coords /\
      bottom bb = tile_y draw_coords (get_ylow n) + get_tile_width draw_coords
                  + (f_lit 1 + f_of_int (get_ptc_num n)) /\
      top bb = bottom bb
  | CHANY =>
      left bb = tile_x draw_coords (get_xlow n) + get_tile_width draw_coords
                + (f_lit 1 + f_of_int (get_ptc_num n)) /\
      right bb = left bb /\
      bottom bb = tile_y draw_coords (get_ylow n) /\
      top bb = tile_y draw_coords (get_yhigh n) + get_tile_width draw_coords
  | SOURCE | SINK | IPIN | OPIN =>
      bb = {| left := f_lit 0; bottom := f_lit 0;
              right := f_lit 0; top := f_lit 0 |}
  end.
Proof.
  unfold draw_get_rr_chan_bbox; cbv zeta.
  destruct (type (rr_node G inode)); cbn; repeat split; reflexivity.
Qed.

End ChannelGeometryFacts.

(** On the rationals the offset of a CHANX wire is the plain sum
    [tile_y[ylow] + tile_width + 1 + ptc_num], however it is bracketed. *)
Lemma chanx_bottom_rational
    (G : t_rr_graph) (draw_coords : t_draw_coords Q) (inode : nat) :
  type (rr_node G inode) = CHANX ->
  (bottom (draw_get_rr_chan_bbox G draw_coords inode)
   == tile_y draw_coords (get_ylow (rr_node G inode))
      + get_tile_width draw_coords + 1
      + inject_Z (get_ptc_num (rr_node G inode)))%Q.
Proof.
  intros Ht. unfold draw_get_rr_chan_bbox. rewrite Ht. cbn. ring.
Qed.

(** ** Hit testing *)

Section HitTesterFacts.
Context {F : Type} `{FloatOps F}.
Variable sides : t_side_codes.
Variable G : t_rr_graph.
Variable grid : Z -> Z -> t_grid_tile.
Variable draw_coords : t_draw_coords F.
Local Open Scope float_scope.

Hypothesis sides_enum : sides_are_0_to_3 sides.

Lemma draw_get_rr_pin_coords_defined node iside wo ho :
  (0 <= iside < 4)%Z ->
  is_Some (draw_get_rr_pin_coords sides grid draw_coords node iside wo ho).
Proof.
  intros Hi. unfold draw_get_rr_pin_coords.
  destruct (sides_enum iside Hi) as [-> | [-> | [-> | ->]]];
    repeat (rewrite Z.eqb_refl || destruct (_ =? _)%Z); eauto.
Qed.

Lemma click_in_pin_true click_x click_y xcen ycen :
  click_in_pin draw_coords click_x click_y xcen ycen = true <->
  (xcen - pin_size draw_coords <=? click_x) = true /\
  (click_x <=? xcen + pin_size draw_coords) = true /\
  (ycen - pin_size draw_coords <=? click_y) = true /\
  (click_y <=? ycen + pin_size draw_coords) = true.
Proof.
  unfold click_in_pin. rewrite !andb_true_iff. tauto.
Qed.

(** The loop over the sides answers, and answers [true] exactly when one
    of the sides visited carries the pin and its square holds the point. *)
Lemma check_pin_sides_spec click_x click_y inode isides :
  Forall (fun iside => (0 <= iside < 4)%Z) isides ->
  exists b,
    check_pin_sides sides G grid draw_coords click_x click_y inode isides
      = Some b /\
    (b = true <->
     let n := rr_node G inode in
     let tile := grid (get_xlow n) (get_ylow n) in
     exists iside xcen ycen,
       iside ∈ isides /\
       pinloc (grid_type tile) (width_offset tile) (height_offset tile)
              iside (get_ptc_num n) <> 0%Z /\
       draw_get_rr_pin_coords sides grid draw_coords n iside
         (width_offset tile) (height_offset tile) = Some (xcen, ycen) /\
       (xcen - pin_size draw_coords <=? click_x) = true /\
       (click_x <=? xcen + pin_size draw_coords) = true /\
       (ycen - pin_size draw_coords <=? click_y) = true /\
       (click_y <=? ycen + pin_size draw_coords) = true).
Proof.
  induction 1 as [| iside rest Hi Hrest IH].
  - exists false. split; [reflexivity |]. cbv zeta. split; [discriminate |].
    intros (i & ? & ? & Hin & _). inversion Hin.
  - destruct IH as (b & Hb & Hiff). cbn [check_pin_sides]. cbv zeta in *.
    set (n := rr_node G inode) in *.
    set (tile := grid (get_xlow n) (get_ylow n)) in *.
    destruct (Z.eqb_spec
                (pinloc (grid_type tile) (width_offset tile)
                   (height_offset tile) iside (get_ptc_num n)) 0) as [Hz | Hnz];
      cbn [negb].
    + exists b. split; [exact Hb |]. rewrite Hiff. split.
      * intros (i & xc & yc & Hin & Hrestc). exists i, xc, yc.
        split; [apply elem_of_cons; by right | exact Hrestc].
      * intros (i & xc & yc & Hin & Hp & Hrestc).
        apply elem_of_cons in Hin as [-> | Hin]; [contradiction |].
        exists i, xc, yc. auto.
    + destruct (draw_get_rr_pin_coords_defined n iside (width_offset tile)
                  (height_offset tile) Hi) as [[xcen ycen] Hc].
      rewrite Hc.
      destruct (click_in_pin draw_coords click_x click_y xcen ycen) eqn:Hclick.
      * exists true. split; [reflexivity |]. split; [| reflexivity].
        intros _. exists iside, xcen, ycen.
        apply click_in_pin_true in Hclick.
        split; [apply elem_of_cons; by left |]. auto.
      * exists b. split; [exact Hb |]. rewrite Hiff. split.
        -- intros (i & xc & yc & Hin & Hrestc). exists i, xc, yc.
           split; [apply elem_of_cons; by right | exact Hrestc].
        -- intros (i & xc & yc & Hin & Hp & Hco & Hsq).
           apply elem_of_cons in Hin as [-> | Hin].
           ++ rewrite Hc in Hco. injection Hco as <- <-.
              apply click_in_pin_true in Hsq. congruence.
           ++ exists i, xc, yc. auto.
Qed.

(** The test of one node answers, and answers [true] exactly on the
    node's test region. *)
Lemma check_one_rr_node_spec click_x click_y inode :
  exists b,
    check_one_rr_node sides G grid draw_coords click_x click_y inode = Some b /\
    (b = true <-> in_test_region sides G grid draw_coords click_x click_y inode).
Proof.
  unfold check_one_rr_node, in_test_region.
  assert (Hpin :
    exists b,
      check_pin_sides sides G grid draw_coords click_x click_y inode
        [0; 1; 2; 3]%Z = Some b /\
      (b = true <-> in_pin_region sides G grid draw_coords click_x click_y inode)).
  { destruct (check_pin_sides_spec click_x click_y inode [0; 1; 2; 3]%Z)
      as (b & Hb & Hiff).
    { repeat constructor; lia. }
    exists b. split; [exact Hb |]. rewrite Hiff. unfold in_pin_region.
    cbv zeta. split.
    - intros (i & xc & yc & Hin & Hrest). exists i, xc, yc.
      split; [| exact Hrest].
      repeat (apply elem_of_cons in Hin as [-> | Hin]; [lia |]).
      inversion Hin.
    - intros (i & xc & yc & Hin & Hrest). exists i, xc, yc.
      split; [| exact Hrest].
      assert (i = 0 \/ i = 1 \/ i = 2 \/ i = 3)%Z as [-> | [-> | [-> | ->]]]
        by lia; repeat constructor. }
  assert (Hchan :
    exists b,
      Some (click_in_chan click_x click_y
              (draw_get_rr_chan_bbox G draw_coords inode)) = Some b /\
      (b = true <-> in_chan_region G draw_coords click_x click_y inode)).
  { eexists. split; [reflexivity |].
    unfold click_in_chan, in_chan_region, tolerance. cbv zeta.
    rewrite !andb_true_iff. tauto. }
  destruct (type (rr_node G inode)); try assumption;
    (exists false; split; [reflexivity | split; [discriminate | tauto]]).
Qed.

(** The scan from [inode] on answers; its answer is the first node of the
    range whose region holds the point, or [OPEN] when there is none. *)
Lemma check_rr_node_hit_from_spec click_x click_y remaining :
  forall inode,
  exists r,
    check_rr_node_hit_from sides G grid draw_coords click_x click_y
      remaining inode = Some r /\
    ((r = OPEN /\
      forall j, (inode <= j < inode + remaining)%nat ->
        ~ in_test_region sides G grid draw_coords click_x click_y j)
     \/
     (exists k, r = Z.of_nat k /\ (inode <= k < inode + remaining)%nat /\
        in_test_region sides G grid draw_coords click_x click_y k /\
        forall j, (inode <= j < k)%nat ->
          ~ in_test_region sides G grid draw_coords click_x click_y j)).
Proof.
  induction remaining as [| remaining IH]; intros inode;
    cbn [check_rr_node_hit_from].
  - exists OPEN. split; [reflexivity |]. left. split; [reflexivity |]. lia.
  - destruct (check_one_rr_node_spec click_x click_y inode) as (b & -> & Hb).
    destruct b.
    + eexists. split; [reflexivity |]. right. exists inode.
      repeat split; [lia | lia | tauto | lia].
    + assert (Hno : ~ in_test_region sides G grid draw_coords
                        click_x click_y inode)
        by (rewrite <- Hb; discriminate).
      destruct (IH (S inode)) as (r & -> & Hr). exists r.
      split; [reflexivity |].
      destruct Hr as [[-> Hall] | (k & -> & Hk & Hin & Hfirst)].
      * left. split; [reflexivity |]. intros j Hj.
        destruct (decide (j = inode)) as [-> | Hne]; [exact Hno |].
        apply Hall. lia.
      * right. exists k. repeat split; [lia | lia | exact Hin |].
        intros j Hj.
        destruct (decide (j = inode)) as [-> | Hne]; [exact Hno |].
        apply Hfirst. lia.
Qed.

(** C1: the hit test returns a value; that value is the id of the first
    node, in increasing index order, whose test region holds the click
    point -- the pin squares of half-size [pin_size] for IPIN and OPIN
    nodes, the channel box grown by 0.3 for CHANX and CHANY nodes, nothing
    for SOURCE and SINK nodes -- and it is [OPEN] when no node's region
    holds the point.  A node returned is never a SOURCE or a SINK. *)
Theorem draw_check_rr_node_hit_first_match (click_x click_y : F) :
  exists r,
    draw_check_rr_node_hit sides G grid draw_coords click_x click_y = Some r /\
    ((r = OPEN /\
      forall j, (j < num_rr_nodes G)%nat ->
        ~ in_test_region sides G grid draw_coords click_x click_y j)
     \/
     (exists k, r = Z.of_nat k /\ (k < num_rr_nodes G)%nat /\
        in_test_region sides G grid draw_coords click_x click_y k /\
        (forall j, (j < k)%nat ->
           ~ in_test_region sides G grid draw_coords click_x click_y j) /\
        type (rr_node G k) <> SOURCE /\ type (rr_node G k) <> SINK)).
Proof.
  unfold draw_check_rr_node_hit.
  destruct (check_rr_node_hit_from_spec click_x click_y (num_rr_nodes G) 0%nat)
    as (r & Hr & Hcases).
  exists r. split; [exact Hr |].
  destruct Hcases as [[-> Hall] | (k & -> & Hk & Hin & Hfirst)].
  - left. split; [reflexivity |]. intros j Hj. apply Hall. lia.
  - right. exists k. repeat split; [lia | exact Hin | | |].
    + intros j Hj. apply Hfirst. lia.
    + intros Ht. unfold in_test_region in Hin. rewrite Ht in Hin. exact Hin.
    + intros Ht. unfold in_test_region in Hin. rewrite Ht in Hin. exact Hin.
Qed.

End HitTesterFacts.

(** ** Edges between two bidirectional wires of one channel *)

Section SameAxisEdgesFacts.
Context {F : Type} `{FloatOps F}.
Variable G : t_rr_graph.
Variable draw_coords : t_draw_coords F.
Local Open Scope float_scope.

Ltac split_range_tests :=
  rewrite ?Z.gtb_ltb;
  repeat match goal with
         | |- context [(?a <? ?b)%Z] =>
             destruct (Z.ltb_spec a b); try lia
         end.

(** Two bidirectional x-wires whose extents overlap without being equal:
    the line of the edge from [b] to [a] is the line of the edge from [a]
    to [b] with its end points exchanged. *)
Lemma draw_chanx_to_chanx_edge_exchange (a b : nat) (ta tb : Z) :
  get_direction (rr_node G a) = BI_DIRECTION ->
  get_direction (rr_node G b) = BI_DIRECTION ->
  x_ranges_overlap (rr_node G a) (rr_node G b) ->
  (get_xlow (rr_node G a) <> get_xlow (rr_node G b)
   \/ get_xhigh (rr_node G a) <> get_xhigh (rr_node G b)) ->
  exists l,
    draw_chanx_to_chanx_edge G draw_coords a b tb = Some l /\
    draw_chanx_to_chanx_edge G draw_coords b a ta = Some (snd l, fst l).
Proof.
  intros Ha Hb [Ho1 Ho2] Hne. unfold draw_chanx_to_chanx_edge.
  rewrite Ha, Hb. rewrite !bool_decide_eq_true_2 by reflexivity. cbn [negb].
  unfold draw_get_rr_chan_bbox.
  split_range_tests; eexists; (split; [reflexivity |]); cbn [fst snd];
    try reflexivity;
    repeat match goal with
           | |- context [type ?n] => destruct (type n)
           end; reflexivity.
Qed.

(** The same for two y-wires. *)
Lemma draw_chany_to_chany_edge_exchange (a b : nat) (ta tb : Z) :
  get_direction (rr_node G a) = BI_DIRECTION ->
  get_direction (rr_node G b) = BI_DIRECTION ->
  y_ranges_overlap (rr_node G a) (rr_node G b) ->
  (get_ylow (rr_node G a) <> get_ylow (rr_node G b)
   \/ get_yhigh (rr_node G a) <> get_yhigh (rr_node G b)) ->
  draw_chany_to_chany_edge G draw_coords b a ta
  = (snd (draw_chany_to_chany_edge G draw_coords a b tb),
     fst (draw_chany_to_chany_edge G draw_coords a b tb)).
Proof.
  intros Ha Hb [Ho1 Ho2] Hne. unfold draw_chany_to_chany_edge.
  rewrite Ha, Hb. rewrite !bool_decide_eq_true_2 by reflexivity. cbn [negb].
  split_range_tests; reflexivity.
Qed.

(** Two bidirectional x-wires with one and the same extent: both edges
    start at the left end of the wires and end a tile width further, each
    going from the track of its source to the track of its target. *)
Lemma draw_chanx_to_chanx_edge_aligned (a b : nat) (tb : Z) :
  get_direction (rr_node G b) = BI_DIRECTION ->
  get_xlow (rr_node G a) = get_xlow (rr_node G b) ->
  get_xhigh (rr_node G a) = get_xhigh (rr_node G b) ->
  (get_xlow (rr_node G a) <= get_xhigh (rr_node G a))%Z ->
  draw_chanx_to_chanx_edge G draw_coords a b tb
  = Some ((left (draw_get_rr_chan_bbox G draw_coords a),
           bottom (draw_get_rr_chan_bbox G draw_coords a)),
          (left (draw_get_rr_chan_bbox G draw_coords a)
           + get_tile_width draw_coords,
           bottom (draw_get_rr_chan_bbox G draw_coords b))).
Proof.
  intros Hb Hl Hh Hle. unfold draw_chanx_to_chanx_edge.
  rewrite Hb, <- Hl, <- Hh.
  rewrite !bool_decide_eq_true_2 by reflexivity. cbn [negb].
  split_range_tests. reflexivity.
Qed.

(** Hence the two edges between two aligned bidirectional x-wires on
    different tracks are drawn as two lines that cross: they share no pair
    of end points as soon as the tracks are drawn at different heights and
    the tile has a width. *)
Lemma draw_chanx_to_chanx_edge_aligned_cross (a b : nat) (ta tb : Z) :
  type (rr_node G a) = CHANX -> type (rr_node G b) = CHANX ->
  get_direction (rr_node G a) = BI_DIRECTION ->
  get_direction (rr_node G b) = BI_DIRECTION ->
  get_xlow (rr_node G a) = get_xlow (rr_node G b) ->
  get_xhigh (rr_node G a) = get_xhigh (rr_node G b) ->
  (get_xlow (rr_node G a) <= get_xhigh (rr_node G a))%Z ->
  bottom (draw_get_rr_chan_bbox G draw_coords a)
    <> bottom (draw_get_rr_chan_bbox G draw_coords b) ->
  left (draw_get_rr_chan_bbox G draw_coords a) + get_tile_width draw_coords
    <> left (draw_get_rr_chan_bbox G draw_coords a) ->
  exists l l',
    draw_chanx_to_chanx_edge G draw_coords a b tb = Some l /\
    draw_chanx_to_chanx_edge G draw_coords b a ta = Some l' /\
    ~ same_end_points l l'.
Proof.
  intros Hta Htb Ha Hb Hl Hh Hle Hy Hw.
  rewrite (draw_chanx_to_chanx_edge_aligned a b tb Hb Hl Hh Hle).
  rewrite (draw_chanx_to_chanx_edge_aligned b a ta Ha) by congruence.
  assert (Hleft : left (draw_get_rr_chan_bbox G draw_coords b)
                  = left (draw_get_rr_chan_bbox G draw_coords a)).
  { unfold draw_get_rr_chan_bbox. rewrite Hta, Htb. cbn. by rewrite Hl. }
  rewrite Hleft. eexists _, _. repeat split.
  intros [Heq | Heq]; cbn in Heq; congruence.
Qed.

End SameAxisEdgesFacts.

(** C8, at wires 2 and 7 of the example device (both bidirectional, both
    spanning columns 1 to 2 of row 1, on tracks 0 and 1): the edge from 2 to
    7 is drawn from (10, 17) to (16, 18) and the edge from 7 to 2 from
    (10, 18) to (16, 17); the two lines cross instead of coinciding.  The
    two y-wires of the second device behave alike. *)
Theorem aligned_bidir_edges_cross :
  draw_chanx_to_chanx_edge ex_graph ex_coords 2 7 1
    = Some ((10, 17), (16, 18))%Q /\
  draw_chanx_to_chanx_edge ex_graph ex_coords 7 2 0
    = Some ((10, 18), (16, 17))%Q /\
  ~ same_end_points ((10, 17), (16, 18))%Q ((10, 18), (16, 17))%Q /\
  draw_chany_to_chany_edge ex_graph_y ex_coords 0 1 1
    = ((17, 10), (18, 16))%Q /\
  draw_chany_to_chany_edge ex_graph_y ex_coords 1 0 0
    = ((18, 10), (17, 16))%Q /\
  ~ same_end_points ((17, 10), (18, 16))%Q ((18, 10), (17, 16))%Q.
Proof.
  repeat split; try (vm_compute; reflexivity);
    intros [Heq | Heq]; discriminate Heq.
Qed.

(** ** Highlighting *)

(** A loop that writes one value at some of the indices it visits: an index
    holds that value afterwards when the loop wrote there, and its old
    content otherwise. *)
Lemma fold_left_insert_lookup {A : Type} `{Inhabited A}
    (cond : nat -> bool) (v : A) (l : list nat) :
  forall (st : list A) (X : nat),
    fold_left (fun s k => if cond k then <[k := v]> s else s) l st !!! X
    = if bool_decide (X ∈ l /\ cond X = true /\ (X < length st)%nat)
      then v else st !!! X.
Proof.
  induction l as [| k l IH]; intros st X; cbn [fold_left].
  - rewrite bool_decide_eq_false_2; [reflexivity |].
    intros (Hin & _). by apply elem_of_nil in Hin.
  - rewrite IH. destruct (cond k) eqn:Hk.
    + rewrite length_insert.
      destruct (decide (X = k)) as [-> | Hne].
      * destruct (decide (k < length st)%nat) as [Hlt | Hge].
        -- rewrite list_lookup_total_insert_eq by exact Hlt.
           rewrite (bool_decide_eq_true_2 (k ∈ k :: l /\ _)).
           ++ by destruct (bool_decide (k ∈ l /\ _)).
           ++ split; [apply elem_of_cons; by left | auto].
        -- rewrite !bool_decide_eq_false_2 by (intros (_ & _ & ?); lia).
           rewrite list_insert_ge by lia. reflexivity.
      * rewrite list_lookup_total_insert_ne by congruence.
        apply (f_equal (fun b : bool => if b then v else st !!! X)).
        apply bool_decide_ext. rewrite elem_of_cons. intuition congruence.
    + apply (f_equal (fun b : bool => if b then v else st !!! X)).
      apply bool_decide_ext. rewrite elem_of_cons.
      split; [tauto |]. intros ([-> | Hin] & Hc & Hl); [congruence |].
      auto.
Qed.

Lemma fold_left_insert_length {A : Type}
    (cond : nat -> bool) (v : A) (l : list nat) :
  forall st : list A,
    length (fold_left (fun s k => if cond k then <[k := v]> s else s) l st)
    = length st.
Proof.
  induction l as [| k l IH]; intros st; cbn [fold_left]; [reflexivity |].
  rewrite IH. destruct (cond k); [apply length_insert | reflexivity].
Qed.

Section HighlightEngineFacts.
Variable colors : t_highlight_colors.
Variable G : t_rr_graph.

(** The node clicked on, its state [d] after the flip, and whether that
    state is the selected one. *)
Variable hit_node : nat.
Variable d : t_draw_rr_node.
Hypothesis d_flipped : color d = MAGENTA \/ color d = WHITE.

Local Abbreviation selected := (bool_decide (color d = MAGENTA)).

(** As long as the clicked node keeps its state, the fan-out loop writes
    the fan-out mark at every node it visits. *)
Lemma fanout_loop_writes (l : list nat) :
  forall st,
    st !!! hit_node = d -> hit_node ∉ l ->
    fold_left (highlight_fanout colors hit_node) l st
    = fold_left
        (fun s k =>
           if true then <[k := fanout_mark colors selected]> s else s)
        l st.
Proof.
  induction l as [| k l IH]; intros st Hd Hnot; cbn [fold_left];
    [reflexivity |].
  apply not_elem_of_cons in Hnot as [Hk Hl].
  assert (Hstep : highlight_fanout colors hit_node st k
                  = <[k := fanout_mark colors selected]> st).
  { unfold highlight_fanout, fanout_mark. rewrite Hd.
    destruct d_flipped as [Hc | Hc]; rewrite Hc; reflexivity. }
  rewrite Hstep. apply IH; [| exact Hl].
  rewrite list_lookup_total_insert_ne by congruence. exact Hd.
Qed.

(** The scan of the edges of one node [inode] for the clicked node writes
    the fan-in mark at [inode] when it finds an edge to the clicked node,
    and nothing otherwise. *)
Lemma fanin_inner_loop_writes (inode : nat) (l : list nat) :
  forall st,
    st !!! hit_node = d -> (hit_node ∈ l -> inode <> hit_node) ->
    fold_left (highlight_fanin hit_node inode) l st
    = if bool_decide (hit_node ∈ l)
      then <[inode := fanin_mark selected]> st else st.
Proof.
  induction l as [| k l IH]; intros st Hd Hne; cbn [fold_left].
  - rewrite bool_decide_eq_false_2; [reflexivity | by apply not_elem_of_nil].
  - destruct (decide (k = hit_node)) as [-> | Hk].
    + assert (Hin : inode <> hit_node)
        by (apply Hne, elem_of_cons; by left).
      assert (Hstep : highlight_fanin hit_node inode st hit_node
                      = <[inode := fanin_mark selected]> st).
      { unfold highlight_fanin, fanin_mark.
        rewrite bool_decide_eq_true_2 by reflexivity. rewrite Hd.
        destruct d_flipped as [Hc | Hc]; rewrite Hc; reflexivity. }
      rewrite Hstep, IH.
      * rewrite (bool_decide_eq_true_2 (hit_node ∈ hit_node :: l))
          by (apply elem_of_cons; by left).
        destruct (bool_decide (hit_node ∈ l)); [| reflexivity].
        apply list_insert_insert_eq.
      * rewrite list_lookup_total_insert_ne by congruence. exact Hd.
      * intros _. exact Hin.
    + assert (Hstep : highlight_fanin hit_node inode st k = st).
      { unfold highlight_fanin. by rewrite bool_decide_eq_false_2. }
      rewrite Hstep, IH; [| exact Hd |].
      * apply (f_equal (fun b : bool =>
                 if b then <[inode := fanin_mark selected]> st else st)).
        apply bool_decide_ext. rewrite elem_of_cons. intuition congruence.
      * intros Hin. apply Hne, elem_of_cons. by right.
Qed.

Hypothesis no_self_loop : hit_node ∉ edges (rr_node G hit_node).

(** The scan of all nodes writes the fan-in mark at the nodes that have an
    edge to the clicked node. *)
Lemma fanin_loop_writes (l : list nat) :
  forall st,
    st !!! hit_node = d ->
    fold_left
      (fun st inode =>
         fold_left (highlight_fanin hit_node inode)
                   (edges (rr_node G inode)) st) l st
    = fold_left
        (fun s k =>
           if bool_decide (hit_node ∈ edges (rr_node G k))
           then <[k := fanin_mark selected]> s else s)
        l st.
Proof.
  induction l as [| k l IH]; intros st Hd; cbn [fold_left]; [reflexivity |].
  assert (Hk : hit_node ∈ edges (rr_node G k) -> k <> hit_node)
    by (intros Hin ->; contradiction).
  rewrite (fanin_inner_loop_writes k _ st Hd Hk).
  apply IH. destruct (bool_decide_reflect (hit_node ∈ edges (rr_node G k)));
    [| exact Hd].
  rewrite list_lookup_total_insert_ne by (apply Hk; assumption). exact Hd.
Qed.

(** The state of any node after the propagation: the fan-in mark for a
    node with an edge to the clicked node, else the fan-out mark for a
    target of an edge of the clicked node, else what it was. *)
Lemma draw_highlight_fan_in_fan_out_lookup (st : list t_draw_rr_node) (X : nat) :
  st !!! hit_node = d ->
  draw_highlight_fan_in_fan_out colors G hit_node st !!! X
  = if bool_decide ((X < num_rr_nodes G)%nat
                    /\ hit_node ∈ edges (rr_node G X)
                    /\ (X < length st)%nat)
    then fanin_mark selected
    else if bool_decide (X ∈ edges (rr_node G hit_node) /\ (X < length st)%nat)
    then fanout_mark colors selected
    else st !!! X.
Proof.
  intros Hd. unfold draw_highlight_fan_in_fan_out.
  rewrite (fanout_loop_writes _ st Hd no_self_loop).
  rewrite fanin_loop_writes.
  - rewrite fold_left_insert_lookup.
    rewrite (fold_left_insert_length (fun _ => true)).
    rewrite (fold_left_insert_lookup (fun _ => true)).
    assert (Hin :
      bool_decide (X ∈ seq 0 (num_rr_nodes G)
                   /\ bool_decide (hit_node ∈ edges (rr_node G X)) = true
                   /\ (X < length st)%nat)
      = bool_decide ((X < num_rr_nodes G)%nat
                     /\ hit_node ∈ edges (rr_node G X)
                     /\ (X < length st)%nat)).
    { apply bool_decide_ext. rewrite elem_of_seq, bool_decide_eq_true. intuition lia. }
    rewrite Hin.
    destruct (bool_decide ((X < num_rr_nodes G)%nat /\ _)); [reflexivity |].
    apply (f_equal (fun b : bool =>
             if b then fanout_mark colors selected else st !!! X)).
    apply bool_decide_ext. tauto.
  - rewrite (fold_left_insert_lookup (fun _ => true)).
    rewrite bool_decide_eq_false_2; [exact Hd |].
    intros (Hin & _). contradiction.
Qed.

End HighlightEngineFacts.

Section ClickFacts.
Variable colors : t_highlight_colors.
Variable G : t_rr_graph.
Variable trace_head : list (list nat).

Lemma toggle_hit_node_length (hit_node : nat) (st : list t_draw_rr_node) :
  length (toggle_hit_node hit_node st) = length st.
Proof.
  unfold toggle_hit_node. destruct (negb _); apply length_insert.
Qed.

Lemma toggle_hit_node_lookup (hit_node : nat) (st : list t_draw_rr_node) :
  (hit_node < length st)%nat ->
  toggle_hit_node hit_node st !!! hit_node
  = if bool_decide (color (st !!! hit_node) = MAGENTA)
    then {| color := WHITE; node_highlighted := false |}
    else {| color := MAGENTA; node_highlighted := true |}.
Proof.
  intros Hlt. unfold toggle_hit_node.
  destruct (bool_decide (color (st !!! hit_node) = MAGENTA)); cbn [negb];
    by rewrite list_lookup_total_insert_eq.
Qed.

Lemma toggle_hit_node_lookup_ne (hit_node X : nat) (st : list t_draw_rr_node) :
  X <> hit_node -> toggle_hit_node hit_node st !!! X = st !!! X.
Proof.
  intros Hne. unfold toggle_hit_node.
  destruct (negb _); by rewrite list_lookup_total_insert_ne.
Qed.

(** C3: the flip of the node clicked on.  A node that is not MAGENTA
    becomes MAGENTA and highlighted; a MAGENTA node becomes WHITE and not
    highlighted; no other node changes in this step. *)
Theorem toggle_hit_node_transition (hit_node : nat) (st : list t_draw_rr_node) :
  (hit_node < length st)%nat ->
  let st' := toggle_hit_node hit_node st in
  (color (st !!! hit_node) <> MAGENTA ->
   st' !!! hit_node = {| color := MAGENTA; node_highlighted := true |}) /\
  (color (st !!! hit_node) = MAGENTA ->
   st' !!! hit_node = {| color := WHITE; node_highlighted := false |}) /\
  (forall X, X <> hit_node -> st' !!! X = st !!! X).
Proof.
  intros Hlt st'. unfold st'. rewrite toggle_hit_node_lookup by exact Hlt.
  repeat split.
  - intros Hc. by rewrite bool_decide_eq_false_2.
  - intros Hc. by rewrite bool_decide_eq_true_2.
  - intros X HX. by apply toggle_hit_node_lookup_ne.
Qed.

(** The state of any node after a click on [hit_node], a node without an
    edge to itself. *)
Lemma highlight_hit_node_lookup (hit_node : nat) (ds : t_draw_state) (X : nat) :
  (hit_node < length (draw_rr_node ds))%nat ->
  hit_node ∉ edges (rr_node G hit_node) ->
  let st := draw_rr_node ds in
  let selected := negb (bool_decide (color (st !!! hit_node) = MAGENTA)) in
  draw_rr_node (highlight_hit_node colors G trace_head hit_node ds)
    !!! X
  = if bool_decide (draw_rr_toggle ds = DRAW_NO_RR)
    then toggle_hit_node hit_node st !!! X
    else if bool_decide ((X < num_rr_nodes G)%nat
                         /\ hit_node ∈ edges (rr_node G X)
                         /\ (X < length st)%nat)
    then fanin_mark selected
    else if bool_decide (X ∈ edges (rr_node G hit_node) /\ (X < length st)%nat)
    then fanout_mark colors selected
    else toggle_hit_node hit_node st !!! X.
Proof.
  intros Hlt Hloop st selected. unfold highlight_hit_node. cbn [draw_rr_node].
  fold st.
  destruct (bool_decide (draw_rr_toggle ds = DRAW_NO_RR)); cbn [negb];
    [reflexivity |].
  pose proof (toggle_hit_node_lookup hit_node st Hlt) as Hd.
  rewrite (draw_highlight_fan_in_fan_out_lookup colors G hit_node
             (toggle_hit_node hit_node st !!! hit_node)); try done.
  - rewrite toggle_hit_node_length. rewrite Hd. unfold selected.
    by destruct (bool_decide (color (st !!! hit_node) = MAGENTA)).
  - rewrite Hd. destruct (bool_decide (color (st !!! hit_node) = MAGENTA));
      cbn; auto.
Qed.

Lemma highlight_hit_node_length (hit_node : nat) (ds : t_draw_state) :
  length (draw_rr_node
            (highlight_hit_node colors G trace_head hit_node ds))
  = length (draw_rr_node ds).
Proof.
  assert (Hfold : forall (f : list t_draw_rr_node -> nat -> list t_draw_rr_node),
             (forall s k, length (f s k) = length s) ->
             forall l s, length (fold_left f l s) = length s).
  { intros f Hf l. induction l as [| k l IH]; intros s; cbn [fold_left];
      [reflexivity |]. by rewrite IH. }
  assert (Hout : forall s k,
             length (highlight_fanout colors hit_node s k) = length s).
  { intros s k. unfold highlight_fanout.
    repeat destruct (bool_decide _); rewrite ?length_insert; reflexivity. }
  assert (Hin : forall inode s k,
             length (highlight_fanin hit_node inode s k) = length s).
  { intros inode s k. unfold highlight_fanin.
    repeat destruct (bool_decide _); rewrite ?length_insert; reflexivity. }
  unfold highlight_hit_node, draw_highlight_fan_in_fan_out.
  cbn [draw_rr_node]. destruct (negb _).
  - rewrite Hfold; [rewrite Hfold; [apply toggle_hit_node_length | apply Hout] |].
    intros s k. apply Hfold. apply Hin.
  - apply toggle_hit_node_length.
Qed.

(** C4, amended: a click on a node.  When the routing-resource graph is
    shown ([draw_rr_toggle] is not [DRAW_NO_RR]) and the node clicked on
    has no edge to itself, the click leaves every node with an edge to it
    at the fan-in colour and highlighted if the node was selected, at the
    default colour and not highlighted if it was deselected; every target
    of one of its edges that has no edge back at the fan-out colour and
    highlighted, resp. at the default; the node itself in its flipped
    state; and every other node as it was.  When the graph is not shown
    ([draw_rr_toggle] is [DRAW_NO_RR]) the node is flipped -- selected if
    it was not MAGENTA, deselected if it was -- and no propagation runs:
    [draw_rr_node] is what the flip alone leaves, every other node, the
    neighbours among them, as it was. *)
Theorem highlight_hit_node_one_hop (hit_node : nat) (ds : t_draw_state) :
  (hit_node < length (draw_rr_node ds))%nat ->
  let st := draw_rr_node ds in
  let st' :=
    draw_rr_node (highlight_hit_node colors G trace_head hit_node ds) in
  let selected := negb (bool_decide (color (st !!! hit_node) = MAGENTA)) in
  (draw_rr_toggle ds <> DRAW_NO_RR ->
   length (draw_rr_node ds) = num_rr_nodes G ->
   hit_node ∉ edges (rr_node G hit_node) ->
   (forall P, (P < num_rr_nodes G)%nat -> hit_node ∈ edges (rr_node G P) ->
      st' !!! P = fanin_mark selected) /\
   (forall M, (M < num_rr_nodes G)%nat -> M ∈ edges (rr_node G hit_node) ->
      hit_node ∉ edges (rr_node G M) ->
      st' !!! M = fanout_mark colors selected) /\
   st' !!! hit_node = toggle_hit_node hit_node st !!! hit_node /\
   (forall X, X <> hit_node -> X ∉ edges (rr_node G hit_node) ->
      hit_node ∉ edges (rr_node G X) -> st' !!! X = st !!! X)) /\
  (draw_rr_toggle ds = DRAW_NO_RR ->
   st' = toggle_hit_node hit_node st /\
   st' !!! hit_node
   = (if selected
      then {| color := MAGENTA; node_highlighted := true |}
      else {| color := WHITE; node_highlighted := false |}) /\
   (forall X, X <> hit_node -> st' !!! X = st !!! X)).
Proof.
  intros Hlt st st' selected. split.
  - intros Hshown Hlen Hloop.
    assert (Hlook := fun X => highlight_hit_node_lookup hit_node ds X Hlt Hloop).
    cbv zeta in Hlook. fold st in Hlook. fold st' in Hlook.
    fold selected in Hlook.
    assert (Hgate : bool_decide (draw_rr_toggle ds = DRAW_NO_RR) = false)
      by (by apply bool_decide_eq_false_2).
    repeat split.
    + intros P HP Hin. rewrite Hlook, Hgate.
      rewrite bool_decide_eq_true_2; [reflexivity |]. unfold st.
      repeat split; [lia | done | lia].
    + intros M HM Hin Hback. rewrite Hlook, Hgate.
      rewrite bool_decide_eq_false_2 by tauto.
      rewrite bool_decide_eq_true_2; [reflexivity |]. unfold st.
      split; [done | lia].
    + rewrite Hlook, Hgate.
      rewrite !bool_decide_eq_false_2 by tauto. reflexivity.
    + intros X HX Hout Hin. rewrite Hlook, Hgate.
      rewrite !bool_decide_eq_false_2 by tauto.
      by apply toggle_hit_node_lookup_ne.
  - intros Hhidden.
    assert (Hflip : st' = toggle_hit_node hit_node st).
    { unfold st', highlight_hit_node. cbn [draw_rr_node]. fold st.
      by rewrite (bool_decide_eq_true_2 _ Hhidden). }
    rewrite Hflip. split; [reflexivity |]. split.
    + rewrite toggle_hit_node_lookup by exact Hlt. unfold selected.
      by destruct (bool_decide (color (st !!! hit_node) = MAGENTA)).
    + intros X HX. by apply toggle_hit_node_lookup_ne.
Qed.

(** C5, amended: a node that is not selected and has no edge to itself is
    clicked twice in a row (selected, then deselected).  Every fan-in or
    fan-out neighbour that was at the default colour and not highlighted
    before the first click is back in that state; and when the
    routing-resource graph is shown, every such neighbour ends in that
    state, whatever it was before. *)
Theorem highlight_hit_node_twice (hit_node : nat) (ds : t_draw_state) :
  (hit_node < length (draw_rr_node ds))%nat ->
  length (draw_rr_node ds) = num_rr_nodes G ->
  hit_node ∉ edges (rr_node G hit_node) ->
  color (draw_rr_node ds !!! hit_node) <> MAGENTA ->
  let ds1 := highlight_hit_node colors G trace_head hit_node ds in
  let ds2 := highlight_hit_node colors G trace_head hit_node ds1 in
  let default :=
    {| color := DEFAULT_RR_NODE_COLOR; node_highlighted := false |} in
  color (draw_rr_node ds1 !!! hit_node) = MAGENTA /\
  color (draw_rr_node ds2 !!! hit_node) = WHITE /\
  forall X, (X < num_rr_nodes G)%nat ->
    X ∈ edges (rr_node G hit_node) \/ hit_node ∈ edges (rr_node G X) ->
    (draw_rr_node ds !!! X = default ->
     draw_rr_node ds2 !!! X = draw_rr_node ds !!! X) /\
    (draw_rr_toggle ds <> DRAW_NO_RR -> draw_rr_node ds2 !!! X = default).
Proof.
  intros Hlt Hlen Hloop Hcol ds1 ds2 default.
  assert (Hlen1 : length (draw_rr_node ds1) = length (draw_rr_node ds))
    by apply highlight_hit_node_length.
  assert (H1 : forall X,
            draw_rr_node ds1 !!! X
            = if bool_decide (draw_rr_toggle ds = DRAW_NO_RR)
              then toggle_hit_node hit_node (draw_rr_node ds) !!! X
              else if bool_decide ((X < num_rr_nodes G)%nat
                                   /\ hit_node ∈ edges (rr_node G X)
                                   /\ (X < length (draw_rr_node ds))%nat)
              then fanin_mark true
              else if bool_decide (X ∈ edges (rr_node G hit_node)
                                   /\ (X < length (draw_rr_node ds))%nat)
              then fanout_mark colors true
              else toggle_hit_node hit_node (draw_rr_node ds) !!! X).
  { intros X. unfold ds1.
    rewrite (highlight_hit_node_lookup hit_node ds X Hlt Hloop). cbv zeta.
    by rewrite (bool_decide_eq_false_2 _ Hcol). }
  assert (Hsel : draw_rr_node ds1 !!! hit_node
                 = {| color := MAGENTA; node_highlighted := true |}).
  { rewrite H1. rewrite toggle_hit_node_lookup by exact Hlt.
    rewrite (bool_decide_eq_false_2 _ Hcol).
    rewrite (bool_decide_eq_false_2 (_ /\ hit_node ∈ _ /\ _)) by tauto.
    rewrite (bool_decide_eq_false_2 (hit_node ∈ _ /\ _)) by tauto.
    by destruct (bool_decide _). }
  assert (H2 : forall X,
            draw_rr_node ds2 !!! X
            = if bool_decide (draw_rr_toggle ds = DRAW_NO_RR)
              then toggle_hit_node hit_node (draw_rr_node ds1) !!! X
              else if bool_decide ((X < num_rr_nodes G)%nat
                                   /\ hit_node ∈ edges (rr_node G X)
                                   /\ (X < length (draw_rr_node ds))%nat)
              then default
              else if bool_decide (X ∈ edges (rr_node G hit_node)
                                   /\ (X < length (draw_rr_node ds))%nat)
              then default
              else toggle_hit_node hit_node (draw_rr_node ds1) !!! X).
  { intros X. unfold ds2.
    rewrite (highlight_hit_node_lookup hit_node ds1 X); [| lia | exact Hloop].
    cbv zeta. rewrite Hsel, Hlen1. cbn [color].
    rewrite (bool_decide_eq_true_2 (MAGENTA = MAGENTA)) by reflexivity.
    reflexivity. }
  split; [by rewrite Hsel |]. split.
  { rewrite H2. rewrite toggle_hit_node_lookup by lia. rewrite Hsel. cbn [color].
    rewrite (bool_decide_eq_true_2 (MAGENTA = MAGENTA)) by reflexivity.
    rewrite (bool_decide_eq_false_2 (_ /\ hit_node ∈ _ /\ _)) by tauto.
    rewrite (bool_decide_eq_false_2 (hit_node ∈ _ /\ _)) by tauto.
    by destruct (bool_decide _). }
  intros X HX Hnb.
  assert (HXne : X <> hit_node) by (intros ->; tauto).
  assert (Hmark : draw_rr_toggle ds <> DRAW_NO_RR ->
                  draw_rr_node ds2 !!! X = default).
  { intros Hshown. rewrite H2. rewrite (bool_decide_eq_false_2 _ Hshown).
    destruct Hnb as [Hout | Hin].
    - rewrite (bool_decide_eq_true_2 (X ∈ _ /\ _)) by (split; [done | lia]).
      by destruct (bool_decide (_ /\ hit_node ∈ _ /\ _)).
    - rewrite bool_decide_eq_true_2; [reflexivity |]. repeat split; [lia | done | lia]. }
  split; [| exact Hmark].
  intros Hdef. destruct (decide (draw_rr_toggle ds = DRAW_NO_RR)) as [Hno | Hshown].
  - rewrite H2, (bool_decide_eq_true_2 _ Hno).
    rewrite toggle_hit_node_lookup_ne by exact HXne.
    rewrite H1, (bool_decide_eq_true_2 _ Hno).
    by rewrite toggle_hit_node_lookup_ne.
  - rewrite Hmark by exact Hshown. by rewrite Hdef.
Qed.

End ClickFacts.

(** The click handler flips and propagates exactly when the hit test finds
    a node and the view shows the graph or the nets. *)
Section ClickHandlerFacts.
Context {F : Type} `{FloatOps F}.
Variable sides : t_side_codes.
Variable colors : t_highlight_colors.
Variable G : t_rr_graph.
Variable grid : Z -> Z -> t_grid_tile.
Variable draw_coords : t_draw_coords F.
Variable trace_head : list (list nat).

Lemma highlight_rr_nodes_on_hit (x y : F) (ds : t_draw_state) (hit_node : nat) :
  draw_rr_toggle ds <> DRAW_NO_RR \/ show_nets ds <> 0%Z ->
  draw_check_rr_node_hit sides G grid draw_coords x y
    = Some (Z.of_nat hit_node) ->
  highlight_rr_nodes sides colors G grid draw_coords trace_head x y ds
  = Some (highlight_hit_node colors G trace_head hit_node ds).
Proof.
  intros Hview Hhit. unfold highlight_rr_nodes. rewrite Hhit.
  assert (Hgate : bool_decide (draw_rr_toggle ds = DRAW_NO_RR)
                  && (show_nets ds =? 0)%Z = false).
  { destruct Hview as [Hrr | Hnets].
    - by rewrite (bool_decide_eq_false_2 _ Hrr).
    - apply Z.eqb_neq in Hnets. by rewrite Hnets, andb_false_r. }
  rewrite Hgate.
  assert (Hopen : (Z.of_nat hit_node =? OPEN)%Z = false)
    by (apply Z.eqb_neq; unfold OPEN; lia).
  rewrite Hopen. cbn [negb]. by rewrite Nat2Z.id.
Qed.

Lemma highlight_rr_nodes_no_hit (x y : F) (ds : t_draw_state) :
  draw_check_rr_node_hit sides G grid draw_coords x y = Some OPEN ->
  highlight_rr_nodes sides colors G grid draw_coords trace_head x y ds
  = Some ds.
Proof.
  intros Hhit. unfold highlight_rr_nodes. rewrite Hhit. cbn.
  by destruct (_ && _).
Qed.

End ClickHandlerFacts.

(** ** Net-level highlighting *)

Section HighlightNetsFacts.
Variable st : list t_draw_rr_node.

Local Abbreviation is_white := (fun index : nat =>
  bool_decide (color (st !!! index) = WHITE)).
Local Abbreviation is_magenta := (fun index : nat =>
  bool_decide (color (st !!! index) = MAGENTA)).

Lemma highlight_net_trace_length (inet : nat) (tptr : list nat) :
  forall net_color,
    length (highlight_net_trace st inet tptr net_color) = length net_color.
Proof.
  induction tptr as [| index next IH]; intros nc; cbn [highlight_net_trace];
    [reflexivity |].
  destruct (bool_decide (color (st !!! index) = MAGENTA)).
  - rewrite IH. apply length_insert.
  - destruct (bool_decide (color (st !!! index) = WHITE));
      [apply length_insert | apply IH].
Qed.

Lemma highlight_net_trace_lookup_ne (inet j : nat) (tptr : list nat) :
  j <> inet ->
  forall net_color,
    highlight_net_trace st inet tptr net_color !!! j = net_color !!! j.
Proof.
  intros Hne. induction tptr as [| index next IH]; intros nc;
    cbn [highlight_net_trace]; [reflexivity |].
  destruct (bool_decide (color (st !!! index) = MAGENTA)).
  - rewrite IH. by apply list_lookup_total_insert_ne.
  - destruct (bool_decide (color (st !!! index) = WHITE));
      [by apply list_lookup_total_insert_ne | apply IH].
Qed.

(** The colour of the net after the scan of its trace: a WHITE node
    anywhere on the trace makes it BLACK; failing that, a MAGENTA node
    makes it MAGENTA; failing both, it keeps its colour. *)
Lemma highlight_net_trace_lookup (inet : nat) (tptr : list nat) :
  forall net_color,
    (inet < length net_color)%nat ->
    highlight_net_trace st inet tptr net_color !!! inet
    = if existsb is_white tptr then BLACK
      else if existsb is_magenta tptr then MAGENTA
      else net_color !!! inet.
Proof.
  induction tptr as [| index next IH]; intros nc Hlt;
    cbn [highlight_net_trace existsb]; [reflexivity |].
  destruct (bool_decide_reflect (color (st !!! index) = MAGENTA)) as [Hm | Hm].
  - rewrite IH by (by rewrite length_insert).
    rewrite (bool_decide_eq_false_2 (color (st !!! index) = WHITE))
      by (rewrite Hm; discriminate).
    cbn [orb]. rewrite list_lookup_total_insert_eq by exact Hlt.
    rewrite Hm. by destruct (existsb is_white next), (existsb is_magenta next).
  - cbn [orb].
    destruct (bool_decide_reflect (color (st !!! index) = WHITE)) as [Hw | Hw];
      cbn [orb].
    + by apply list_lookup_total_insert_eq.
    + by apply IH.
Qed.

Lemma highlight_nets_loop_lookup (trace_head : list (list nat)) (inet : nat)
    (l : list nat) :
  NoDup l ->
  forall net_color,
    (inet < length net_color)%nat ->
    fold_left
      (fun net_color inet =>
         highlight_net_trace st inet (trace_head !!! inet) net_color)
      l net_color !!! inet
    = if bool_decide (inet ∈ l)
      then highlight_net_trace st inet (trace_head !!! inet) net_color !!! inet
      else net_color !!! inet.
Proof.
  induction 1 as [| k l Hk Hnd IH]; intros nc Hlt; cbn [fold_left].
  - by rewrite bool_decide_eq_false_2 by apply not_elem_of_nil.
  - rewrite IH by (by rewrite highlight_net_trace_length).
    destruct (decide (inet = k)) as [-> | Hne].
    + rewrite (bool_decide_eq_false_2 _ Hk).
      rewrite bool_decide_eq_true_2 by (apply elem_of_cons; by left).
      reflexivity.
    + assert (Hiff : bool_decide (inet ∈ k :: l) = bool_decide (inet ∈ l))
        by (apply bool_decide_ext; rewrite elem_of_cons; intuition congruence).
      rewrite Hiff. destruct (bool_decide (inet ∈ l)).
      * rewrite !highlight_net_trace_lookup
          by (rewrite ?highlight_net_trace_length; exact Hlt).
        by rewrite highlight_net_trace_lookup_ne.
      * by apply highlight_net_trace_lookup_ne.
Qed.


End HighlightNetsFacts.

(** ** Splitting a traceback *)

Section TraceFlattenerFacts.
Variable colors : t_highlight_colors.
Variable G : t_rr_graph.

Local Abbreviation is_sink := (fun inode : nat =>
  type (rr_node G inode) = SINK).

Lemma count_sinks_cons (inode : nat) (trace : list nat) :
  count_sinks G (inode :: trace)
  = ((if bool_decide (is_sink inode) then 1 else 0)
     + count_sinks G trace)%nat.
Proof.
  unfold count_sinks. rewrite filter_cons.
  destruct (decide (is_sink inode)) as [Hs | Hs].
  - by rewrite (bool_decide_eq_true_2 _ Hs).
  - by rewrite (bool_decide_eq_false_2 _ Hs).
Qed.

(** The loop, entered inside a branch with the vector [cur] free of sinks:
    it ends at the [break] with an empty vector, having handed over one
    vector per sink left; the vectors end at their sinks and, put end to
    end, are [cur] followed by the rest of the trace. *)
Lemma drawroute_loop_spec (net_color : list t_color) (inet n : nat) :
  forall next cur st,
    (length next <= n)%nat ->
    trace_branches G false next ->
    Forall (fun inode => ~ is_sink inode) cur ->
    exists calls st',
      drawroute_loop colors G net_color inet next cur st
        = Some (calls, [], st') /\
      length calls = count_sinks G next /\
      Forall (ends_at_sink G) calls /\
      concat calls = cur ++ next.
Proof.
  induction n as [| n IH]; intros next cur st Hlen Hbr Hcur.
  - destruct next; [discriminate Hbr | cbn in Hlen; lia].
  - destruct next as [| inode next]; [discriminate Hbr |].
    cbn [drawroute_loop]. cbn [trace_branches] in Hbr.
    rewrite count_sinks_cons. cbn [length] in Hlen.
    set (st1 := drawroute_color_node colors net_color inet st inode).
    destruct (bool_decide_reflect (is_sink inode)) as [Hs | Hs].
    + destruct Hbr as [_ Hbr].
      assert (Hend : ends_at_sink G (cur ++ [inode]))
        by (exists cur, inode; auto).
      destruct next as [| inode' next'].
      * exists [cur ++ [inode]], st1. repeat split; [by constructor |].
        cbn. by rewrite app_nil_r.
      * cbn [trace_branches] in Hbr.
        destruct (bool_decide_reflect (is_sink inode')) as [Hs' | Hs'];
          [by destruct Hbr |].
        destruct (IH next' [inode'] st1) as (calls & st' & -> & Hn & Hall & Hcat);
          [cbn [length] in Hlen; lia | exact Hbr | by constructor |].
        exists ((cur ++ [inode]) :: calls), st'.
        repeat split.
        -- cbn [length]. rewrite Hn, count_sinks_cons.
           by rewrite (bool_decide_eq_false_2 _ Hs').
        -- by constructor.
        -- cbn [concat]. rewrite Hcat. by rewrite <- app_assoc.
    + destruct (IH next (cur ++ [inode]) st1)
        as (calls & st' & -> & Hn & Hall & Hcat); [lia | exact Hbr | |].
      * apply Forall_app. split; [exact Hcur | by constructor].
      * exists calls, st'. repeat split; [exact Hn | exact Hall |].
        rewrite Hcat. by rewrite <- app_assoc.
Qed.

(** C6: the traceback of a routed net as [drawroute] splits it.  A net
    with no trace hands nothing to [draw_partial_route].  For a routed net
    whose traceback holds [k] sinks, a run of [drawroute] that gets through
    the traceback has handed over [k] sequences, one per sink -- each ends
    at its sink, which it includes and which is its only sink, and put end
    to end they are the traceback, so that no two share a sink and the
    entry after a sink starts the next sequence.  The one vector handed
    over after them, by the call that follows the loop, is empty: the loop
    is left right after [clear()]. *)
Theorem drawroute_net_partition
    (net_color : list t_color) (inet : nat) (st : list t_draw_rr_node) :
  fst <$> drawroute_net colors G net_color inet [] st = Some [] /\
  forall trace handed st',
    well_formed_trace G trace ->
    drawroute_net colors G net_color inet trace st = Some (handed, st') ->
    exists calls,
      handed = calls ++ [[]] /\
      length calls = count_sinks G trace /\
      Forall (ends_at_sink G) calls /\
      concat calls = trace.
Proof.
  split; [reflexivity |]. intros trace handed st' [Hne Hbr] Hrun.
  destruct trace as [| inode next]; [done |].
  cbn [trace_branches] in Hbr.
  destruct (bool_decide_reflect (is_sink inode)) as [Hs | Hs];
    [by destruct Hbr |].
  destruct (drawroute_loop_spec net_color inet (length next) next [inode] st)
    as (calls & st1 & Hloop & Hn & Hall & Hcat);
    [lia | exact Hbr | by constructor |].
  unfold drawroute_net in Hrun. rewrite Hloop in Hrun.
  injection Hrun as <- <-.
  exists calls. repeat split; [| exact Hall | exact Hcat].
  rewrite Hn, count_sinks_cons. by rewrite (bool_decide_eq_false_2 _ Hs).
Qed.

(** ** Switch lookup *)

Lemma find_switch_from_spec (prev : t_rr_node) (inode : nat) (remaining : nat) :
  forall i,
    (i + remaining = length (edges prev))%nat ->
    (exists j, (i <= j)%nat /\ edges prev !! j = Some inode) ->
    exists k,
      (i <= k)%nat /\
      edges prev !! k = Some inode /\
      (forall j, (i <= j < k)%nat -> edges prev !! j <> Some inode) /\
      find_switch_from prev inode remaining i = Some (switches prev !!! k).
Proof.
  induction remaining as [| remaining IH]; intros i Hlen (j & Hij & Hj).
  - apply lookup_lt_Some in Hj. lia.
  - cbn [find_switch_from].
    destruct (lookup_lt_is_Some_2 (edges prev) i) as [x Hx]; [lia |].
    rewrite (list_lookup_total_correct _ _ _ Hx).
    destruct (bool_decide_reflect (x = inode)) as [-> | Hne].
    + exists i. repeat split; [lia | exact Hx | lia].
    + destruct (IH (S i)) as (k & Hk & Hedge & Hfirst & Hres); [lia | |].
      * exists j. split; [| exact Hj].
        destruct (decide (j = i)) as [-> | ?]; [congruence | lia].
      * exists k. repeat split; [lia | exact Hedge | | exact Hres].
        intros j' Hj'. destruct (decide (j' = i)) as [-> | ?];
          [congruence | apply Hfirst; lia].
Qed.

Lemma find_switch_spec (prev_inode inode : nat) :
  inode ∈ edges (rr_node G prev_inode) ->
  exists switch,
    find_switch G prev_inode inode = Some switch /\
    first_edge_switch G prev_inode inode switch.
Proof.
  intros Hin. apply list_elem_of_lookup in Hin as [j Hj].
  destruct (find_switch_from_spec (rr_node G prev_inode) inode
              (get_num_edges (rr_node G prev_inode)) 0%nat)
    as (k & _ & Hedge & Hfirst & Hres); [reflexivity | |].
  - exists j. split; [lia | exact Hj].
  - eexists. split; [exact Hres |]. exists k.
    repeat split; [exact Hedge |]. intros j' Hj'. apply Hfirst. lia.
Qed.

(** C10: when every entry of the vector given to [draw_partial_route] is
    the target of an edge of the entry before it, each of its calls of
    [find_switch] returns, and returns the switch of the first edge of the
    previous node that leads to the current one; the assertion at the end
    of [find_switch] is not reached. *)
Theorem draw_partial_route_find_switch_ok (first : nat) (rest : list nat) :
  route_follows_edges G first rest ->
  Forall2
    (fun (pair : nat * nat) (result : option Z) =>
       exists switch,
         result = Some switch /\
         first_edge_switch G (fst pair) (snd pair) switch)
    (zip (first :: rest) rest)
    (draw_partial_route_find_switch G (first :: rest)).
Proof.
  cbn [draw_partial_route_find_switch].
  revert first. induction rest as [| inode rest IH]; intros first Hroute.
  - constructor.
  - destruct Hroute as [Hedge Hroute].
    cbn [zip zip_with draw_partial_route_switches]. constructor.
    + destruct (find_switch_spec first inode Hedge) as (sw & Hsw & Hfirst).
      exists sw. by split.
    + by apply IH.
Qed.

End TraceFlattenerFacts.

(** ** Path finding *)

Lemma trace_routed_connection_rr_nodes_recurr_unfold
    (rt_inode : nat) (children : list t_rt_node)
    (sink_rr_node : nat) (rr_nodes_on_path : list nat) :
  trace_routed_connection_rr_nodes_recurr
    (Rt_node rt_inode children) sink_rr_node rr_nodes_on_path
  = if bool_decide (rt_inode = sink_rr_node)
    then (true, rr_nodes_on_path ++ [sink_rr_node])
    else child_loop rt_inode sink_rr_node children rr_nodes_on_path.
Proof.
  cbn [trace_routed_connection_rr_nodes_recurr].
  destruct (bool_decide (rt_inode = sink_rr_node)); [reflexivity |].
  revert rr_nodes_on_path.
  induction children as [| c children IH]; intros path; [reflexivity |].
  cbn [child_loop].
  destruct (trace_routed_connection_rr_nodes_recurr c sink_rr_node path)
    as [[] path']; [reflexivity | apply IH].
Qed.

Lemma rt_path_head (rt : t_rt_node) (p : list nat) :
  rt_path rt p -> head p = Some (inode rt).
Proof. by destruct 1. Qed.

(** What the search of a subtree returns and leaves in the vector.  When
    the subtree holds the sink, the flag is set and the vector has grown by
    a path from the root of the subtree down to the sink, written sink
    first; when it does not, the flag is clear and the vector is as it
    was. *)
Lemma trace_routed_connection_rr_nodes_recurr_spec (sink_rr_node : nat) :
  forall (rt : t_rt_node) (rr_nodes_on_path : list nat),
    if rt_contains sink_rr_node rt then
      exists p,
        trace_routed_connection_rr_nodes_recurr rt sink_rr_node rr_nodes_on_path
          = (true, rr_nodes_on_path ++ rev p) /\
        rt_path rt p /\ last p = Some sink_rr_node
    else
      trace_routed_connection_rr_nodes_recurr rt sink_rr_node rr_nodes_on_path
        = (false, rr_nodes_on_path).
Proof.
  induction rt as [i children IH] using t_rt_node_forall_ind.
  intros path. rewrite trace_routed_connection_rr_nodes_recurr_unfold.
  cbn [rt_contains].
  destruct (bool_decide_reflect (i = sink_rr_node)) as [-> | Hne]; cbn [orb].
  { exists [sink_rr_node]. repeat split. apply (rt_path_end (Rt_node _ _)). }
  (* the loop over the children, for any tail [l] of the child list *)
  assert (Hloop : forall l, (forall c, c ∈ l -> c ∈ children) ->
            Forall (fun rt => forall path,
              if rt_contains sink_rr_node rt then
                exists p,
                  trace_routed_connection_rr_nodes_recurr rt sink_rr_node path
                    = (true, path ++ rev p) /\
                  rt_path rt p /\ last p = Some sink_rr_node
              else
                trace_routed_connection_rr_nodes_recurr rt sink_rr_node path
                  = (false, path)) l ->
            forall path,
              if existsb (rt_contains sink_rr_node) l then
                exists p,
                  child_loop i sink_rr_node l path = (true, path ++ rev p) /\
                  rt_path (Rt_node i children) p /\ last p = Some sink_rr_node
              else child_loop i sink_rr_node l path = (false, path)).
  { induction l as [| c l IHl]; intros Hsub Hall path0; [reflexivity |].
    apply Forall_cons in Hall as [Hc Hl].
    cbn [existsb child_loop]. specialize (Hc path0).
    destruct (rt_contains sink_rr_node c); cbn [orb].
    - destruct Hc as (p & -> & Hp & Hlast).
      exists (i :: p). repeat split.
      + cbn [rev]. by rewrite app_assoc.
      + apply (rt_path_step (Rt_node i children) c); [| exact Hp].
        apply Hsub, elem_of_cons. by left.
      + destruct p as [| x p]; [inversion Hp | exact Hlast].
    - rewrite Hc. apply IHl; [| exact Hl].
      intros c' Hc'. apply Hsub, elem_of_cons. by right. }
  apply Hloop; [auto | exact IH].
Qed.

Section PathFinderFacts.
Variable traceback_to_route_tree : Z -> t_rt_node.
Variable net_rr_terminals : Z -> Z -> nat.

(** C7: the route tree of the net is rooted at the source [S] of the net.
    When some node of the tree stands for the sink [T], the search reports
    success and the function returns the rr nodes of a walk down the tree,
    each step going from a tree node to one of its children, that starts at
    [S] and ends at [T].  When no node of the tree stands for [T], the
    search reports failure and the path returned is empty. *)
Theorem trace_routed_connection_rr_nodes_path
    (driver_clb_net_pin sink_clb_net_pin : t_net_pin) :
  net driver_clb_net_pin = net sink_clb_net_pin ->
  net_pin driver_clb_net_pin = 0%Z ->
  let rt_root := traceback_to_route_tree (net driver_clb_net_pin) in
  let S := net_rr_terminals (net driver_clb_net_pin) 0%Z in
  let T := net_rr_terminals (net sink_clb_net_pin) (net_pin sink_clb_net_pin) in
  inode rt_root = S ->
  (rt_contains T rt_root = true ->
   exists p,
     fst (trace_routed_connection_rr_nodes_recurr rt_root T []) = true /\
     trace_routed_connection_rr_nodes traceback_to_route_tree net_rr_terminals
       driver_clb_net_pin sink_clb_net_pin = Some p /\
     head p = Some S /\ last p = Some T /\ rt_path rt_root p) /\
  (rt_contains T rt_root = false ->
   trace_routed_connection_rr_nodes_recurr rt_root T [] = (false, []) /\
   trace_routed_connection_rr_nodes traceback_to_route_tree net_rr_terminals
     driver_clb_net_pin sink_clb_net_pin = Some []).
Proof.
  intros Hnet Hpin rt_root S T Hroot.
  assert (Hfun :
    trace_routed_connection_rr_nodes traceback_to_route_tree net_rr_terminals
      driver_clb_net_pin sink_clb_net_pin
    = Some (rev (snd (trace_routed_connection_rr_nodes_recurr rt_root T [])))).
  { unfold trace_routed_connection_rr_nodes.
    rewrite Hpin.
    replace (net driver_clb_net_pin =? net sink_clb_net_pin)%Z with true
      by (rewrite Hnet; symmetry; apply Z.eqb_refl).
    cbn [negb Z.eqb]. fold rt_root. fold S.
    rewrite bool_decide_eq_true_2 by exact Hroot. cbn [negb]. fold T.
    by destruct (trace_routed_connection_rr_nodes_recurr rt_root T []). }
  pose proof (trace_routed_connection_rr_nodes_recurr_spec T rt_root [])
    as Hspec.
  split; intros Hin; rewrite Hin in Hspec.
  - destruct Hspec as (p & Hrec & Hpath & Hlast). exists p.
    rewrite Hfun, Hrec. cbn [fst snd app]. rewrite rev_involutive.
    repeat split; [| exact Hlast | exact Hpath].
    rewrite <- Hroot. by apply rt_path_head.
  - rewrite Hfun, Hspec. by split.
Qed.

End PathFinderFacts.

(** * The theorems at the example device *)

Lemma ex_sides_are_0_to_3 : sides_are_0_to_3 ex_sides.
Proof. intros iside Hi. cbn. lia. Defined.

(** The two example states are states that [deselect_all] leaves: a click
    without the control key starts from them. *)
Lemma ex_states_deselected :
  deselect_all ex_state_rr_shown = ex_state_rr_shown /\
  deselect_all ex_state_nets_only = ex_state_nets_only.
Proof. split; reflexivity. Qed.

(** The click at (12, 17) falls on wire 2, and the handler treats it as a
    click on node 2 in the view that shows the graph as in the view that
    shows the nets. *)
Lemma ex_click_hits_wire_2 (ds : t_draw_state) :
  draw_rr_toggle ds <> DRAW_NO_RR \/ show_nets ds <> 0%Z ->
  draw_check_rr_node_hit ex_sides ex_graph ex_grid ex_coords 12%Q 17%Q
    = Some 2%Z /\
  highlight_rr_nodes ex_sides ex_colors ex_graph ex_grid ex_coords [ex_trace]
    12%Q 17%Q ds = Some (ex_click 2 ds).
Proof.
  intros Hview.
  assert (Hhit : draw_check_rr_node_hit ex_sides ex_graph ex_grid ex_coords
                   12%Q 17%Q = Some (Z.of_nat 2)) by (by vm_compute).
  split; [exact Hhit |]. by apply highlight_rr_nodes_on_hit.
Qed.

Lemma draw_check_rr_node_hit_first_match_witness :
  sides_are_0_to_3 ex_sides /\
  exists r,
    draw_check_rr_node_hit ex_sides ex_graph ex_grid ex_coords 12%Q 17%Q
      = Some r /\
    ((r = OPEN /\
      forall j, (j < num_rr_nodes ex_graph)%nat ->
        ~ in_test_region ex_sides ex_graph ex_grid ex_coords 12%Q 17%Q j)
     \/
     (exists k, r = Z.of_nat k /\ (k < num_rr_nodes ex_graph)%nat /\
        in_test_region ex_sides ex_graph ex_grid ex_coords 12%Q 17%Q k /\
        (forall j, (j < k)%nat ->
           ~ in_test_region ex_sides ex_graph ex_grid ex_coords 12%Q 17%Q j) /\
        type (rr_node ex_graph k) <> SOURCE /\
        type (rr_node ex_graph k) <> SINK)).
Proof.
  split; [exact ex_sides_are_0_to_3 |].
  exact (draw_check_rr_node_hit_first_match ex_sides ex_graph ex_grid
           ex_coords ex_sides_are_0_to_3 12%Q 17%Q).
Defined.

Lemma toggle_hit_node_transition_witness :
  (2 < length ex_draw_rr_node)%nat /\
  (color (ex_draw_rr_node !!! 2%nat) <> MAGENTA ->
   toggle_hit_node 2 ex_draw_rr_node !!! 2%nat
   = {| color := MAGENTA; node_highlighted := true |}) /\
  (color (ex_draw_rr_node !!! 2%nat) = MAGENTA ->
   toggle_hit_node 2 ex_draw_rr_node !!! 2%nat
   = {| color := WHITE; node_highlighted := false |}) /\
  (forall X, X <> 2%nat ->
     toggle_hit_node 2 ex_draw_rr_node !!! X = ex_draw_rr_node !!! X).
Proof.
  assert (Hlt : (2 < length ex_draw_rr_node)%nat) by (simpl; lia).
  split; [exact Hlt |].
  exact (toggle_hit_node_transition 2 ex_draw_rr_node Hlt).
Defined.

Lemma ex_wire_2_no_self_loop : 2%nat ∉ edges (rr_node ex_graph 2).
Proof.
  intros Hin. simpl in Hin.
  repeat (apply elem_of_cons in Hin as [Hin | Hin]; [lia |]).
  by apply elem_of_nil in Hin.
Defined.

Lemma ex_rr_shown : draw_rr_toggle ex_state_rr_shown <> DRAW_NO_RR.
Proof. simpl. intros Heq. discriminate Heq. Defined.

Lemma ex_wire_2_not_selected :
  color (draw_rr_node ex_state_rr_shown !!! 2%nat) <> MAGENTA.
Proof. simpl. intros Heq. discriminate Heq. Defined.

(** A click on wire 2 in the view that shows the rr graph, and the same
    click in the view that shows the nets only. *)
Lemma highlight_hit_node_one_hop_witness :
  ((2 < length (draw_rr_node ex_state_rr_shown))%nat /\
   draw_rr_toggle ex_state_rr_shown <> DRAW_NO_RR /\
   length (draw_rr_node ex_state_rr_shown) = num_rr_nodes ex_graph /\
   (2%nat ∉ edges (rr_node ex_graph 2)) /\
   let st := draw_rr_node ex_state_rr_shown in
   let st' := draw_rr_node (ex_click 2 ex_state_rr_shown) in
   let selected := negb (bool_decide (color (st !!! 2%nat) = MAGENTA)) in
   (forall P, (P < num_rr_nodes ex_graph)%nat ->
      2%nat ∈ edges (rr_node ex_graph P) -> st' !!! P = fanin_mark selected) /\
   (forall M, (M < num_rr_nodes ex_graph)%nat ->
      M ∈ edges (rr_node ex_graph 2) -> 2%nat ∉ edges (rr_node ex_graph M) ->
      st' !!! M = fanout_mark ex_colors selected) /\
   st' !!! 2%nat = toggle_hit_node 2 st !!! 2%nat /\
   (forall X, X <> 2%nat -> X ∉ edges (rr_node ex_graph 2) ->
      2%nat ∉ edges (rr_node ex_graph X) -> st' !!! X = st !!! X)) /\
  ((2 < length (draw_rr_node ex_state_nets_only))%nat /\
   draw_rr_toggle ex_state_nets_only = DRAW_NO_RR /\
   let st := draw_rr_node ex_state_nets_only in
   let st' := draw_rr_node (ex_click 2 ex_state_nets_only) in
   let selected := negb (bool_decide (color (st !!! 2%nat) = MAGENTA)) in
   st' = toggle_hit_node 2 st /\
   st' !!! 2%nat
   = (if selected
      then {| color := MAGENTA; node_highlighted := true |}
      else {| color := WHITE; node_highlighted := false |}) /\
   (forall X, X <> 2%nat -> st' !!! X = st !!! X)).
Proof.
  assert (Hlt : (2 < length (draw_rr_node ex_state_rr_shown))%nat)
    by (simpl; lia).
  assert (Hlen : length (draw_rr_node ex_state_rr_shown)
                 = num_rr_nodes ex_graph) by reflexivity.
  assert (Hlt' : (2 < length (draw_rr_node ex_state_nets_only))%nat)
    by (simpl; lia).
  assert (Hhidden : draw_rr_toggle ex_state_nets_only = DRAW_NO_RR)
    by reflexivity.
  split.
  - repeat (split; [first [exact ex_rr_shown | exact Hlt | exact Hlen
                          | exact ex_wire_2_no_self_loop] |]).
    exact (proj1 (highlight_hit_node_one_hop ex_colors ex_graph [ex_trace] 2
                    ex_state_rr_shown Hlt)
             ex_rr_shown Hlen ex_wire_2_no_self_loop).
  - split; [exact Hlt' |]. split; [exact Hhidden |].
    exact (proj2 (highlight_hit_node_one_hop ex_colors ex_graph [ex_trace] 2
                    ex_state_nets_only Hlt')
             Hhidden).
Defined.

Lemma highlight_hit_node_twice_witness :
  (2 < length (draw_rr_node ex_state_rr_shown))%nat /\
  length (draw_rr_node ex_state_rr_shown) = num_rr_nodes ex_graph /\
  (2%nat ∉ edges (rr_node ex_graph 2)) /\
  color (draw_rr_node ex_state_rr_shown !!! 2%nat) <> MAGENTA /\
  let ds1 := ex_click 2 ex_state_rr_shown in
  let ds2 := ex_click 2 ds1 in
  let default :=
    {| color := DEFAULT_RR_NODE_COLOR; node_highlighted := false |} in
  color (draw_rr_node ds1 !!! 2%nat) = MAGENTA /\
  color (draw_rr_node ds2 !!! 2%nat) = WHITE /\
  forall X, (X < num_rr_nodes ex_graph)%nat ->
    X ∈ edges (rr_node ex_graph 2) \/ 2%nat ∈ edges (rr_node ex_graph X) ->
    (draw_rr_node ex_state_rr_shown !!! X = default ->
     draw_rr_node ds2 !!! X = draw_rr_node ex_state_rr_shown !!! X) /\
    (draw_rr_toggle ex_state_rr_shown <> DRAW_NO_RR ->
     draw_rr_node ds2 !!! X = default).
Proof.
  assert (Hlt : (2 < length (draw_rr_node ex_state_rr_shown))%nat)
    by (simpl; lia).
  assert (Hlen : length (draw_rr_node ex_state_rr_shown)
                 = num_rr_nodes ex_graph) by reflexivity.
  repeat (split; [first [exact Hlt | exact Hlen | exact ex_wire_2_no_self_loop
                        | exact ex_wire_2_not_selected] |]).
  exact (highlight_hit_node_twice ex_colors ex_graph [ex_trace] 2
           ex_state_rr_shown Hlt Hlen ex_wire_2_no_self_loop
           ex_wire_2_not_selected).
Defined.

(** C4 as stated fails in the view that shows the nets without the
    routing-resource graph.  The click at (12, 17) hits wire 2 and selects
    it; node 3, the target of an edge of wire 2, keeps the default colour
    and is not highlighted. *)
Lemma propagation_skipped_when_rr_hidden :
  exists ds',
    highlight_rr_nodes ex_sides ex_colors ex_graph ex_grid ex_coords
      [ex_trace] 12%Q 17%Q ex_state_nets_only = Some ds' /\
    draw_rr_node ex_state_nets_only !!! 2%nat
      = {| color := BLACK; node_highlighted := false |} /\
    draw_rr_node ds' !!! 2%nat
      = {| color := MAGENTA; node_highlighted := true |} /\
    3%nat ∈ edges (rr_node ex_graph 2) /\
    draw_rr_node ds' !!! 3%nat
      = {| color := BLACK; node_highlighted := false |} /\
    draw_rr_node ds' !!! 3%nat <> fanout_mark ex_colors true.
Proof.
  exists (ex_click 2 ex_state_nets_only).
  split; [apply ex_click_hits_wire_2; right; by vm_compute |].
  repeat split; try (by vm_compute).
  simpl. apply elem_of_cons. by left.
Qed.

(** C5 as stated fails for a neighbour that was selected itself.  With the
    routing-resource graph shown, node 3 is clicked (selected); then wire
    2, which has an edge to node 3, is clicked twice.  Node 3 was MAGENTA
    and highlighted before the two clicks on wire 2 and is BLACK and not
    highlighted after them.  (The clicks on wire 2 are made with the
    control key, which keeps [highlight_blocks] from calling
    [deselect_all]; the redraw that follows a click leaves a highlighted
    node alone and gives a node that is not highlighted the colour of its
    type, so node 3 is not MAGENTA after it either.) *)
Lemma deselect_resets_selected_neighbour :
  let ds := ex_click 3 ex_state_rr_shown in
  let ds2 := ex_click 2 (ex_click 2 ds) in
  3%nat ∈ edges (rr_node ex_graph 2) /\
  color (draw_rr_node ds !!! 2%nat) <> MAGENTA /\
  color (draw_rr_node (ex_click 2 ds) !!! 2%nat) = MAGENTA /\
  color (draw_rr_node ds2 !!! 2%nat) = WHITE /\
  draw_rr_node ds !!! 3%nat
    = {| color := MAGENTA; node_highlighted := true |} /\
  draw_rr_node ds2 !!! 3%nat
    = {| color := BLACK; node_highlighted := false |} /\
  draw_rr_node ds2 !!! 3%nat <> draw_rr_node ds !!! 3%nat.
Proof.
  cbv zeta. repeat split; try (by vm_compute).
  simpl. apply elem_of_cons. by left.
Qed.

Lemma ex_trace_well_formed : well_formed_trace ex_graph ex_trace.
Proof. split; [intros Heq; discriminate Heq | simpl; repeat split]. Defined.

(** The example net: two sinks, the branch to the second leaving the
    routing at wire 2. *)
Lemma drawroute_net_partition_witness :
  well_formed_trace ex_graph ex_trace /\
  count_sinks ex_graph ex_trace = 2%nat /\
  fst <$> drawroute_net ex_colors ex_graph [BLACK] 0 ex_trace ex_draw_rr_node
    = Some [[0; 1; 2; 3; 5]; [2; 4; 6]; []]%nat /\
  exists calls,
    [[0; 1; 2; 3; 5]; [2; 4; 6]; []]%nat = calls ++ [[]] /\
    length calls = count_sinks ex_graph ex_trace /\
    Forall (ends_at_sink ex_graph) calls /\
    concat calls = ex_trace.
Proof.
  split; [exact ex_trace_well_formed |].
  split; [reflexivity |]. split; [reflexivity |].
  exact (proj2 (drawroute_net_partition ex_colors ex_graph [BLACK] 0
                  ex_draw_rr_node)
           ex_trace _ _ ex_trace_well_formed eq_refl).
Defined.

Lemma trace_routed_connection_rr_nodes_path_witness :
  let driver := {| net := 0; net_pin := 0 |} in
  let sink := {| net := 0; net_pin := 2 |} in
  let rt_root := ex_traceback_to_route_tree (net driver) in
  let S := ex_net_rr_terminals (net driver) 0%Z in
  let T := ex_net_rr_terminals (net sink) (net_pin sink) in
  net driver = net sink /\ net_pin driver = 0%Z /\ inode rt_root = S /\
  rt_contains T rt_root = true /\
  exists p,
    fst (trace_routed_connection_rr_nodes_recurr rt_root T []) = true /\
    trace_routed_connection_rr_nodes ex_traceback_to_route_tree
      ex_net_rr_terminals driver sink = Some p /\
    head p = Some S /\ last p = Some T /\ rt_path rt_root p.
Proof.
  cbv zeta.
  pose proof (trace_routed_connection_rr_nodes_path
                ex_traceback_to_route_tree ex_net_rr_terminals
                {| net := 0; net_pin := 0 |} {| net := 0; net_pin := 2 |}
                eq_refl eq_refl eq_refl) as [Hfound _].
  repeat (split; [reflexivity |]).
  exact (Hfound eq_refl).
Defined.



Lemma draw_partial_route_find_switch_ok_witness :
  route_follows_edges ex_graph 2 [4; 6]%nat /\
  Forall2
    (fun (pair : nat * nat) (result : option Z) =>
       exists switch,
         result = Some switch /\
         first_edge_switch ex_graph (fst pair) (snd pair) switch)
    (zip [2; 4; 6]%nat [4; 6]%nat)
    (draw_partial_route_find_switch ex_graph [2; 4; 6]%nat).
Proof.
  assert (Hroute : route_follows_edges ex_graph 2 [4; 6]%nat).
  { simpl. repeat split; repeat constructor. }
  split; [exact Hroute |].
  exact (draw_partial_route_find_switch_ok ex_graph 2 [4; 6]%nat Hroute).
Defined.

(** * Drawing a partial route *)

Section PartialRouteFacts.
Variable G : t_rr_graph.
Variable draw_route_type : e_route_type.
Variable st : list t_draw_rr_node.

Local Abbreviation body := (draw_partial_route_body G draw_route_type st).
Local Abbreviation loop := (draw_partial_route_loop G draw_route_type st).

Lemma find_switch_from_Some (prev : t_rr_node) (inode : nat) (remaining : nat) :
  forall i switch,
    (i + remaining = length (edges prev))%nat ->
    find_switch_from prev inode remaining i = Some switch ->
    inode ∈ edges prev.
Proof.
  induction remaining as [| remaining IH]; intros i switch Hlen Hfind;
    [discriminate Hfind |].
  cbn [find_switch_from] in Hfind.
  destruct (lookup_lt_is_Some_2 (edges prev) i) as [x Hx]; [lia |].
  rewrite (list_lookup_total_correct _ _ _ Hx) in Hfind. revert Hfind.
  destruct (bool_decide_reflect (x = inode)) as [Heq | Hne]; intros Hfind.
  - apply list_elem_of_lookup. exists i. by rewrite <- Heq.
  - apply (IH (S i) switch); [lia | exact Hfind].
Qed.

(** [find_switch] returns exactly when the second node is the target of an
    edge of the first. *)
Lemma find_switch_is_Some (prev_inode inode : nat) :
  is_Some (find_switch G prev_inode inode)
  <-> inode ∈ edges (rr_node G prev_inode).
Proof.
  split.
  - intros [switch Hfind].
    by apply (find_switch_from_Some _ _ _ 0%nat switch) in Hfind.
  - intros Hin. destruct (find_switch_spec G _ _ Hin) as (switch & -> & _).
    by eexists.
Qed.

(** When one iteration of the loop gets through the checks that
    [draw_partial_route] makes itself. *)
Lemma draw_partial_route_body_returned
    (tables : t_track_tables) (prev_node inode : nat) :
  step_returned (body tables prev_node inode) = true
  <-> inode ∈ edges (rr_node G prev_node) /\
      (type (rr_node G inode) = CHANX \/ type (rr_node G inode) = CHANY ->
       type (rr_node G prev_node) = CHANX \/
       type (rr_node G prev_node) = CHANY \/
       type (rr_node G prev_node) = OPIN).
Proof.
  rewrite <- find_switch_is_Some. unfold draw_partial_route_body, get_track_num.
  destruct (find_switch G prev_node inode) as [switch |].
  - destruct (type (rr_node G inode)) eqn:Hty,
             (type (rr_node G prev_node)) eqn:Hprev, draw_route_type;
      cbn; rewrite ?Hty, ?Hprev; cbn;
      (split; [intros Hret; split; [by eexists |];
               first [discriminate Hret | intuition congruence]
              | intros [_ Hwires]; first [reflexivity | exfalso; intuition congruence]]).
  - cbn. split; [discriminate | intros [[? ?] _]; discriminate].
Qed.

Lemma draw_partial_route_loop_returned (rest : list nat) :
  forall tables prev_node,
    forallb step_returned (loop tables prev_node rest) = true
    <-> route_follows_edges G prev_node rest /\
        wires_follow_wires_or_opins G prev_node rest.
Proof.
  induction rest as [| inode rest IH]; intros tables prev_node;
    cbn [draw_partial_route_loop forallb route_follows_edges
         wires_follow_wires_or_opins]; [tauto |].
  pose proof (draw_partial_route_body_returned tables prev_node inode) as Hbody.
  destruct (step_returned (body tables prev_node inode)) eqn:Hret; cbn [andb].
  - rewrite IH. intuition.
  - split; [discriminate |]. intros [[Hedge _] [Hwire _]].
    assert (false = true) by (apply Hbody; by split). discriminate.
Qed.

(** X1: what [draw_partial_route] asks of its vector.  A run that reaches
    its end has been given a vector in which every entry but the first is
    the target of an edge of the entry before it and every wire but the
    first entry follows a wire or an output pin: at the first entry that
    is not the target of such an edge the assertion of [find_switch]
    fails, and at the first wire that follows another kind of node
    [vpr_throw] is reached.  A vector with fewer than two entries makes no
    iteration: no routine is called and the call returns. *)
Theorem draw_partial_route_returns_only_if (first : nat) (rest : list nat) :
  (snd (draw_partial_route G draw_route_type st (first :: rest)) = true ->
   route_follows_edges G first rest /\
   wires_follow_wires_or_opins G first rest) /\
  (~ (route_follows_edges G first rest /\
      wires_follow_wires_or_opins G first rest) ->
   snd (draw_partial_route G draw_route_type st (first :: rest)) = false) /\
  draw_partial_route G draw_route_type st [first] = ([], true) /\
  draw_partial_route G draw_route_type st [] = ([], true).
Proof.
  assert (Hiff := draw_partial_route_loop_returned rest reset_track_tables
                    first).
  unfold draw_partial_route, draw_partial_route_steps. cbn [snd].
  split; [apply Hiff |]. split; [| by split].
  intros Hnot.
  destruct (forallb step_returned (loop reset_track_tables first rest));
    [| reflexivity].
  exfalso. apply Hnot, Hiff. reflexivity.
Qed.

(** The tables after an iteration that ran to its end, when the routing is
    [GLOBAL]: the counter of the wire just met has gone up by one. *)
Lemma draw_partial_route_body_tables
    (tables : t_track_tables) (prev_node inode : nat) (x y : Z) :
  draw_route_type = GLOBAL ->
  step_returned (body tables prev_node inode) = true ->
  let step := body tables prev_node inode in
  chanx_track (step_tables step) x y
  = (chanx_track tables x y + count_wires_at G CHANX x y [inode])%Z /\
  chany_track (step_tables step) x y
  = (chany_track tables x y + count_wires_at G CHANY x y [inode])%Z.
Proof.
  intros -> Hret. revert Hret. cbn zeta.
  unfold draw_partial_route_body, get_track_num, count_wires_at, incr_track.
  rewrite !filter_cons, !filter_nil.
  destruct (find_switch G prev_node inode) as [switch |]; [| discriminate].
  destruct (type (rr_node G inode)) eqn:Hty,
           (type (rr_node G prev_node)) eqn:Hprev;
    cbn; rewrite ?Hty, ?Hprev; cbn;
    change (bool_decide (GLOBAL = DETAILED)) with false;
    change (bool_decide (GLOBAL = GLOBAL)) with true;
    cbn; try discriminate; intros _;
    repeat match goal with
      | |- context [decide ?P] => destruct (decide P) as [? | ?]
      end;
    cbn [length]; try (split; lia); try (exfalso; intuition congruence);
    repeat match goal with
      | |- context [Z.eqb ?a ?b] => destruct (Z.eqb_spec a b)
      end;
    cbn [andb]; try (split; lia); subst; exfalso; intuition congruence.
Qed.

Lemma count_wires_at_cons (t : t_rr_type) (x y : Z) (inode : nat) (l : list nat) :
  count_wires_at G t x y (inode :: l)
  = (count_wires_at G t x y [inode] + count_wires_at G t x y l)%Z.
Proof.
  unfold count_wires_at. rewrite !filter_cons, filter_nil.
  destruct (decide _); cbn [length]; lia.
Qed.

Lemma count_wires_at_app (t : t_rr_type) (x y : Z) (l l' : list nat) :
  count_wires_at G t x y (l ++ l')
  = (count_wires_at G t x y l + count_wires_at G t x y l')%Z.
Proof.
  unfold count_wires_at. rewrite filter_app, length_app. lia.
Qed.

Lemma count_wires_at_nonneg (t : t_rr_type) (x y : Z) (l : list nat) :
  (0 <= count_wires_at G t x y l)%Z.
Proof. unfold count_wires_at. lia. Qed.

(** The value of [itrack] in iteration [k] of the loop entered with any
    tables. *)
Lemma draw_partial_route_loop_itrack (rest : list nat) :
  draw_route_type = GLOBAL ->
  forall tables prev_node k inode step itrack,
    rest !! k = Some inode ->
    loop tables prev_node rest !! k = Some step ->
    step_itrack step = Some itrack ->
    let x := get_xlow (rr_node G inode) in
    let y := get_ylow (rr_node G inode) in
    (type (rr_node G inode) = CHANX /\
     itrack = (chanx_track tables x y + 1
               + count_wires_at G CHANX x y (take k rest))%Z) \/
    (type (rr_node G inode) = CHANY /\
     itrack = (chany_track tables x y + 1
               + count_wires_at G CHANY x y (take k rest))%Z).
Proof.
  intros Hglobal.
  induction rest as [| inode0 rest IH];
    intros tables prev_node k inode step itrack Hk Hstep Hitrack;
    [discriminate Hk |].
  cbn [draw_partial_route_loop] in Hstep.
  destruct k as [| k].
  - cbn in Hk, Hstep. injection Hk as ->. injection Hstep as <-.
    cbn [take]. revert Hitrack. cbn zeta.
    unfold draw_partial_route_body, get_track_num, count_wires_at, incr_track.
    rewrite Hglobal, filter_nil.
    destruct (find_switch G prev_node inode) as [switch |]; [| discriminate].
    destruct (type (rr_node G inode)) eqn:Hty,
             (type (rr_node G prev_node)) eqn:Hprev;
      cbn; rewrite ?Hty, ?Hprev; cbn;
      change (bool_decide (GLOBAL = DETAILED)) with false;
      change (bool_decide (GLOBAL = GLOBAL)) with true;
      cbn; try discriminate;
      rewrite !Z.eqb_refl; cbn [andb]; intros [= <-];
      (left; split; [reflexivity | lia]) || (right; split; [reflexivity | lia]).
  - cbn [lookup list_lookup] in Hk. cbn [take].
    destruct (step_returned (body tables prev_node inode0)) eqn:Hret;
      [| discriminate Hstep].
    cbn [lookup list_lookup] in Hstep.
    specialize (IH _ _ _ _ _ _ Hk Hstep Hitrack). cbn zeta in IH |- *.
    destruct (draw_partial_route_body_tables tables prev_node inode0
                (get_xlow (rr_node G inode)) (get_ylow (rr_node G inode))
                Hglobal Hret) as [Hx Hy].
    cbn zeta in Hx, Hy. rewrite Hx, Hy in IH.
    rewrite !(count_wires_at_cons _ _ _ inode0 (take k rest)).
    destruct IH as [[Hty ->] | [Hty ->]]; [left | right];
      (split; [exact Hty | lia]).
Qed.

(** The track that an iteration names to an edge routine for the wire it
    has met is its [itrack]. *)
Lemma draw_partial_route_body_to_track
    (tables : t_track_tables) (prev_node inode : nat) (itrack : Z) :
  step_itrack (body tables prev_node inode) = Some itrack ->
  forall call to_track,
    call ∈ step_calls (body tables prev_node inode) ->
    to_track_passed call = Some to_track ->
    to_track = itrack.
Proof.
  unfold draw_partial_route_body.
  destruct (find_switch G prev_node inode) as [switch |]; [| discriminate].
  destruct (type (rr_node G inode)) eqn:Hty; try discriminate;
    (match goal with
     | |- context [get_track_num G draw_route_type inode ?t] =>
         destruct (get_track_num G draw_route_type inode t) as [itrack0 |]
     end; [| discriminate]);
    destruct (type (rr_node G prev_node)) eqn:Hprev;
    try match goal with
      | |- context [get_track_num G draw_route_type prev_node ?t] =>
          destruct (get_track_num G draw_route_type prev_node t)
      end;
    cbn [step_itrack step_calls app]; intros [= <-] call to_track Hin;
    repeat (apply elem_of_cons in Hin as [-> | Hin]);
    try (by apply elem_of_nil in Hin);
    cbn [to_track_passed]; intros Hpassed;
    first [discriminate Hpassed | by injection Hpassed].
Qed.

(** Every step of the loop is an iteration for its entry of the vector. *)
Lemma draw_partial_route_loop_step (rest : list nat) :
  forall tables prev_node k inode step,
    rest !! k = Some inode ->
    loop tables prev_node rest !! k = Some step ->
    exists tables' prev_node', step = body tables' prev_node' inode.
Proof.
  induction rest as [| inode0 rest IH];
    intros tables prev_node k inode step Hk Hstep; [discriminate Hk |].
  cbn [draw_partial_route_loop] in Hstep. destruct k as [| k].
  - cbn in Hk, Hstep. injection Hk as ->. injection Hstep as <-.
    by eexists _, _.
  - cbn [lookup list_lookup] in Hk, Hstep.
    destruct (step_returned (body tables prev_node inode0));
      [| discriminate Hstep].
    by apply (IH _ _ _ _ _ Hk Hstep).
Qed.

(** X2: track numbers of a global routing.  When the routing is [GLOBAL],
    the track number that [draw_partial_route] works out for the wire at
    position [k + 1] of its vector -- the value of its local [itrack] -- is
    the number of wires of the same axis and the same grid location among
    the entries at positions [1] to [k]: 0 for the first such wire, 1 for
    the next, and so on; the entry at position [0] is not counted.  It is
    the track that the iteration names for this wire to the routine that
    draws the edge from a wire before it.  (The wire itself is drawn by
    [draw_rr_chanx] or [draw_rr_chany], which are given no track.) *)
Theorem draw_partial_route_global_tracks
    (first : nat) (rest : list nat) (k inode : nat)
    (step : t_route_step) (itrack : Z) :
  draw_route_type = GLOBAL ->
  rest !! k = Some inode ->
  draw_partial_route_steps G draw_route_type st (first :: rest) !! k
    = Some step ->
  step_itrack step = Some itrack ->
  (type (rr_node G inode) = CHANX \/ type (rr_node G inode) = CHANY) /\
  itrack = count_wires_at G (type (rr_node G inode))
             (get_xlow (rr_node G inode)) (get_ylow (rr_node G inode))
             (take k rest) /\
  forall call to_track,
    call ∈ step_calls step ->
    to_track_passed call = Some to_track ->
    to_track = itrack.
Proof.
  intros Hglobal Hk Hstep Hitrack. cbn [draw_partial_route_steps] in Hstep.
  assert (Hcalls : forall call to_track,
            call ∈ step_calls step ->
            to_track_passed call = Some to_track -> to_track = itrack).
  { destruct (draw_partial_route_loop_step rest _ _ _ _ _ Hk Hstep)
      as (tables' & prev_node' & ->).
    by apply draw_partial_route_body_to_track. }
  destruct (draw_partial_route_loop_itrack rest Hglobal _ _ _ _ _ _
              Hk Hstep Hitrack) as [[Hty ->] | [Hty ->]];
    rewrite Hty; cbn [reset_track_tables chanx_track chany_track];
    (split; [auto | split; [lia | exact Hcalls]]).
Qed.

(** X3: in a [GLOBAL] routing, two wires of the same axis at the same grid
    location that stand at different positions of the vector get different
    track numbers from [draw_partial_route], the later one the larger:
    the values of [itrack] in their two iterations, which are the tracks
    named for them to the routines that draw edges between wires. *)
Theorem draw_partial_route_global_tracks_increase
    (first : nat) (rest : list nat) (k1 k2 inode1 inode2 : nat)
    (step1 step2 : t_route_step) (itrack1 itrack2 : Z) :
  draw_route_type = GLOBAL ->
  let steps := draw_partial_route_steps G draw_route_type st (first :: rest) in
  (k1 < k2)%nat ->
  rest !! k1 = Some inode1 ->
  rest !! k2 = Some inode2 ->
  type (rr_node G inode1) = type (rr_node G inode2) ->
  get_xlow (rr_node G inode1) = get_xlow (rr_node G inode2) ->
  get_ylow (rr_node G inode1) = get_ylow (rr_node G inode2) ->
  steps !! k1 = Some step1 ->
  steps !! k2 = Some step2 ->
  step_itrack step1 = Some itrack1 ->
  step_itrack step2 = Some itrack2 ->
  (itrack1 < itrack2)%Z /\
  forall call1 call2 to_track1 to_track2,
    call1 ∈ step_calls step1 -> to_track_passed call1 = Some to_track1 ->
    call2 ∈ step_calls step2 -> to_track_passed call2 = Some to_track2 ->
    (to_track1 < to_track2)%Z.
Proof.
  intros Hglobal steps Hlt Hk1 Hk2 Hty Hx Hy Hs1 Hs2 Hi1 Hi2.
  unfold steps in Hs1, Hs2. cbn [draw_partial_route_steps] in Hs1, Hs2.
  assert (Horder : (itrack1 < itrack2)%Z).
  { pose proof (draw_partial_route_loop_itrack rest Hglobal _ _ _ _ _ _
                  Hk1 Hs1 Hi1) as H1.
    pose proof (draw_partial_route_loop_itrack rest Hglobal _ _ _ _ _ _
                  Hk2 Hs2 Hi2) as H2.
    cbn zeta in H1, H2. rewrite <- Hx, <- Hy in H2.
    assert (Htake : take k2 rest
                    = take k1 rest ++ [inode1] ++ drop (S k1) (take k2 rest)).
    { rewrite <- (take_drop (S k1) (take k2 rest)) at 1.
      rewrite take_take, Nat.min_l by lia.
      rewrite (take_S_r _ _ _ Hk1). by rewrite <- app_assoc. }
    rewrite Htake in H2. rewrite !count_wires_at_app in H2.
    pose proof (count_wires_at_nonneg CHANX (get_xlow (rr_node G inode1))
                  (get_ylow (rr_node G inode1))
                  (drop (S k1) (take k2 rest))).
    pose proof (count_wires_at_nonneg CHANY (get_xlow (rr_node G inode1))
                  (get_ylow (rr_node G inode1))
                  (drop (S k1) (take k2 rest))).
    assert (Hone : forall t, type (rr_node G inode1) = t ->
               count_wires_at G t (get_xlow (rr_node G inode1))
                 (get_ylow (rr_node G inode1)) [inode1] = 1%Z).
    { intros t Ht. unfold count_wires_at. rewrite filter_cons, filter_nil.
      by rewrite decide_True. }
    destruct H1 as [[Ht1 ->] | [Ht1 ->]], H2 as [[Ht2 ->] | [Ht2 ->]];
      try congruence; rewrite (Hone _ Ht1); lia. }
  split; [exact Horder |].
  intros call1 call2 to_track1 to_track2 Hin1 Hp1 Hin2 Hp2.
  destruct (draw_partial_route_loop_step rest _ _ _ _ _ Hk1 Hs1)
    as (tables1 & prev1 & ->).
  destruct (draw_partial_route_loop_step rest _ _ _ _ _ Hk2 Hs2)
    as (tables2 & prev2 & ->).
  rewrite (draw_partial_route_body_to_track _ _ _ _ Hi1 _ _ Hin1 Hp1).
  rewrite (draw_partial_route_body_to_track _ _ _ _ Hi2 _ _ Hin2 Hp2).
  exact Horder.
Qed.

(** What an iteration that ran to its end has drawn as nodes: the node of
    the iteration, unless it is a [SOURCE] or a [SINK]. *)
Lemma draw_partial_route_body_node_drawn
    (tables : t_track_tables) (prev_node inode : nat) :
  step_returned (body tables prev_node inode) = true ->
  omap node_drawn (step_calls (body tables prev_node inode))
  = (fun inode => (inode, color (st !!! inode)))
      <$> filter (fun inode => type (rr_node G inode) <> SOURCE
                               /\ type (rr_node G inode) <> SINK) [inode].
Proof.
  rewrite filter_cons, filter_nil.
  unfold draw_partial_route_body, get_track_num.
  destruct (find_switch G prev_node inode) as [switch |]; [| discriminate].
  destruct (type (rr_node G inode)) eqn:Hty,
           (type (rr_node G prev_node)) eqn:Hprev, draw_route_type;
    cbn; rewrite ?Hty, ?Hprev; cbn; try discriminate; intros _;
    (destruct (decide _) as [Hd | Hd];
      [first [reflexivity | exfalso; intuition congruence]
      | first [reflexivity | exfalso; apply Hd; split; congruence]]).
Qed.

Lemma draw_partial_route_loop_nodes_drawn (rest : list nat) :
  forall tables prev_node,
    forallb step_returned (loop tables prev_node rest) = true ->
    omap node_drawn (concat (step_calls <$> loop tables prev_node rest))
    = (fun inode => (inode, color (st !!! inode)))
        <$> filter (fun inode => type (rr_node G inode) <> SOURCE
                                 /\ type (rr_node G inode) <> SINK) rest.
Proof.
  induction rest as [| inode rest IH]; intros tables prev_node Hret;
    [reflexivity |].
  cbn [draw_partial_route_loop forallb fmap list_fmap concat] in Hret |- *.
  apply andb_prop in Hret as [Hbody Hret]. rewrite Hbody in Hret |- *.
  rewrite omap_app, (IH _ _ Hret), draw_partial_route_body_node_drawn
    by exact Hbody.
  rewrite <- fmap_app. f_equal.
  rewrite (filter_cons _ inode rest), filter_cons, filter_nil.
  by destruct (decide _).
Qed.

(** X4: when [draw_partial_route] runs to its end, the nodes it has drawn
    are the pins and wires of its vector from the second entry on, each
    once per occurrence, in the order of the vector and in the colour that
    [draw_rr_node] holds for it.  The first entry of the vector is not
    drawn as a node, and neither is a [SOURCE] or a [SINK]. *)
Theorem draw_partial_route_nodes_drawn (first : nat) (rest : list nat) :
  snd (draw_partial_route G draw_route_type st (first :: rest)) = true ->
  omap node_drawn
    (fst (draw_partial_route G draw_route_type st (first :: rest)))
  = (fun inode => (inode, color (st !!! inode)))
      <$> filter (fun inode => type (rr_node G inode) <> SOURCE
                               /\ type (rr_node G inode) <> SINK) rest.
Proof.
  unfold draw_partial_route, draw_partial_route_steps. cbn [fst snd].
  apply draw_partial_route_loop_nodes_drawn.
Qed.

End PartialRouteFacts.

(** * Routes that follow the rr graph *)

Section RoutesInTheGraphFacts.
Variable colors : t_highlight_colors.
Variable G : t_rr_graph.

(** A vector that [draw_partial_route] can take: every entry but the first
    is the target of an edge of the entry before it, and every wire but
    the first entry follows a wire or an output pin. *)
Local Abbreviation follows_edges := (fun rr_nodes_to_draw : list nat =>
  match rr_nodes_to_draw with
  | [] => True
  | first :: rest =>
      route_follows_edges G first rest /\
      wires_follow_wires_or_opins G first rest
  end).

Lemma route_follows_edges_wires (rest : list nat) :
  wires_driven_by_wires_or_opins G ->
  forall first,
    route_follows_edges G first rest ->
    wires_follow_wires_or_opins G first rest.
Proof.
  intros Hgraph. induction rest as [| inode rest IH]; intros first;
    cbn [route_follows_edges wires_follow_wires_or_opins]; [done |].
  intros [Hedge Hrest]. split; [by apply Hgraph | by apply IH].
Qed.

(** The first branch of a traceback that follows the edges does so as a
    vector, and what comes after its sink is again such a traceback. *)
Lemma trace_follows_edges_branch (body : list nat) (sink : nat) (next : list nat) :
  Forall (fun inode => type (rr_node G inode) <> SINK) body ->
  trace_follows_edges G (body ++ sink :: next) ->
  match body ++ [sink] with
  | [] => True
  | first :: rest => route_follows_edges G first rest
  end /\
  trace_follows_edges G next.
Proof.
  induction body as [| inode body IH]; intros Hbody Htrace.
  - split; [done |].
    destruct next as [| inode' next]; [done | by destruct Htrace].
  - apply Forall_cons in Hbody as [Hinode Hbody].
    destruct body as [| inode' body].
    + destruct Htrace as [Hedge Htrace].
      split; [by split; [apply Hedge |] |].
      by apply (IH Hbody).
    + destruct Htrace as [Hedge Htrace].
      destruct (IH Hbody Htrace) as [Hroute Hafter].
      split; [| exact Hafter].
      split; [by apply Hedge | exact Hroute].
Qed.

Lemma trace_follows_edges_vectors (calls : list (list nat)) :
  wires_driven_by_wires_or_opins G ->
  Forall (ends_at_sink G) calls ->
  trace_follows_edges G (concat calls) ->
  Forall follows_edges calls.
Proof.
  intros Hgraph. induction calls as [| v calls IH]; intros Hends Htrace;
    [constructor |].
  apply Forall_cons in Hends as [(body & sink & -> & _ & Hbody) Hends].
  cbn [concat] in Htrace. rewrite <- app_assoc in Htrace.
  destruct (trace_follows_edges_branch body sink (concat calls) Hbody Htrace)
    as [Hroute Hafter].
  constructor; [| by apply IH].
  destruct (body ++ [sink]) as [| first rest]; [done |].
  split; [exact Hroute | by apply route_follows_edges_wires].
Qed.

(** X5: the routing of a net as [drawroute] hands it over.  The traceback
    of the net is well formed and follows the edges of the rr graph, and
    the wires of the graph are driven by wires and output pins.  Then
    every vector that a run of [drawroute] through the traceback hands to
    [draw_partial_route] follows the edges of the graph from entry to
    entry -- the condition under which [find_switch] finds its edge each
    time -- and no wire in it follows a node from which
    [draw_partial_route] draws no connection.  The vectors are such as
    [draw_partial_route] asks for, although the traceback as a whole is
    not: the entry after a sink is no target of an edge of the sink. *)
Theorem drawroute_net_routes_follow_edges
    (net_color : list t_color) (inet : nat) (trace : list nat)
    (st : list t_draw_rr_node)
    (handed : list (list nat)) (st' : list t_draw_rr_node) :
  wires_driven_by_wires_or_opins G ->
  well_formed_trace G trace ->
  trace_follows_edges G trace ->
  drawroute_net colors G net_color inet trace st = Some (handed, st') ->
  concat handed = trace /\
  Forall
    (fun rr_nodes_to_draw =>
       match rr_nodes_to_draw with
       | [] => True
       | first :: rest =>
           route_follows_edges G first rest /\
           wires_follow_wires_or_opins G first rest
       end)
    handed.
Proof.
  intros Hgraph [Hne Hbr] Htrace Hrun.
  destruct trace as [| inode next]; [done |].
  cbn [trace_branches] in Hbr.
  destruct (bool_decide_reflect (type (rr_node G inode) = SINK)) as [Hs | Hs];
    [by destruct Hbr |].
  destruct (drawroute_loop_spec colors G net_color inet (length next) next
              [inode] st)
    as (calls & st1 & Hloop & _ & Hall & Hcat);
    [lia | exact Hbr | by constructor |].
  unfold drawroute_net in Hrun. rewrite Hloop in Hrun.
  injection Hrun as <- <-. split.
  - rewrite concat_app, Hcat. cbn. by rewrite app_nil_r.
  - apply Forall_app. split; [| by constructor].
    apply trace_follows_edges_vectors;
      [exact Hgraph | exact Hall | by rewrite Hcat].
Qed.

(** A walk down a route tree whose links are edges of the graph follows
    the edges of the graph. *)
Lemma rt_path_follows_edges (rt : t_rt_node) (p : list nat) :
  rt_path rt p ->
  rt_follows_edges G rt = true ->
  exists rest, p = inode rt :: rest /\ route_follows_edges G (inode rt) rest.
Proof.
  induction 1 as [rt | rt child p Hchild Hpath IH]; intros Hrt.
  - by exists [].
  - destruct rt as [i children]. cbn [rt_follows_edges child_list inode] in *.
    rewrite forallb_forall in Hrt.
    apply list_elem_of_In, Hrt, andb_prop in Hchild as [Hedge Hsub].
    apply bool_decide_eq_true in Hedge.
    destruct (IH Hsub) as (rest & -> & Hroute).
    exists (inode child :: rest). by split.
Qed.

Lemma rt_path_contained (rt : t_rt_node) (p : list nat) :
  rt_path rt p -> forall x, x ∈ p -> rt_contains x rt = true.
Proof.
  induction 1 as [rt | rt child p Hchild Hpath IH]; intros x Hx;
    destruct rt as [i children]; cbn [rt_contains inode child_list] in *.
  - apply list_elem_of_singleton in Hx as ->.
    by rewrite bool_decide_eq_true_2.
  - apply elem_of_cons in Hx as [-> | Hx];
      [by rewrite bool_decide_eq_true_2 |].
    apply orb_true_iff. right. apply existsb_exists. exists child.
    split; [by apply list_elem_of_In | by apply IH].
Qed.

End RoutesInTheGraphFacts.

Section RoutedConnectionFacts.
Variable G : t_rr_graph.
Variable draw_route_type : e_route_type.
Variable traceback_to_route_tree : Z -> t_rt_node.
Variable net_rr_terminals : Z -> Z -> nat.

Lemma color_routed_rr_nodes_length (color : t_color) (l : list nat) :
  forall st, length (color_routed_rr_nodes color l st) = length st.
Proof.
  unfold color_routed_rr_nodes. induction l as [| inode l IH]; intros st;
    cbn [fold_left]; [reflexivity |].
  by rewrite IH, length_alter.
Qed.

(** The state of a node after the colouring loop. *)
Lemma color_routed_rr_nodes_lookup (c : t_color) (l : list nat) (X : nat) :
  forall st,
    (X < length st)%nat ->
    color_routed_rr_nodes c l st !!! X
    = if bool_decide (X ∈ l)
      then {| color := c; node_highlighted := node_highlighted (st !!! X) |}
      else st !!! X.
Proof.
  unfold color_routed_rr_nodes. induction l as [| inode l IH]; intros st HX;
    cbn [fold_left].
  - by rewrite bool_decide_eq_false_2 by apply not_elem_of_nil.
  - rewrite IH by (by rewrite length_alter).
    destruct (decide (inode = X)) as [-> | Hne].
    + rewrite list_lookup_total_alter_eq by exact HX. cbn.
      rewrite (bool_decide_eq_true_2 (X ∈ X :: l))
        by (apply elem_of_cons; by left).
      by destruct (bool_decide (X ∈ l)).
    + rewrite list_lookup_total_alter_ne by exact Hne.
      rewrite (bool_decide_ext (X ∈ inode :: l) (X ∈ l)); [reflexivity |].
      rewrite elem_of_cons. intuition congruence.
Qed.

(** X6: a connection of the critical path.  The route tree of the net is
    rooted at the source [S] of the net, its links are edges of the rr
    graph, and the wires of the graph are driven by wires and output pins.
    When the tree holds the sink [T], the path from [S] to [T] is traced;
    every node on it takes the colour asked for and keeps its highlight
    flag, and every other node stays as it was; the path is then handed to
    [draw_partial_route], and it is a vector such as [draw_partial_route]
    asks for: it follows the edges of the graph, and no wire on it follows
    a node from which no connection is drawn.  If that call runs to its
    end, it has drawn each pin and wire after [S], in path order and in
    the colour asked for.  When the tree does not hold [T], the vector is
    empty: nothing is coloured and no drawing routine is called. *)
Theorem draw_routed_timing_edge_connection_path
    (driver_clb_net_pin sink_clb_net_pin : t_net_pin) (c : t_color)
    (st : list t_draw_rr_node) :
  net driver_clb_net_pin = net sink_clb_net_pin ->
  net_pin driver_clb_net_pin = 0%Z ->
  let rt_root := traceback_to_route_tree (net driver_clb_net_pin) in
  let S := net_rr_terminals (net driver_clb_net_pin) 0%Z in
  let T := net_rr_terminals (net sink_clb_net_pin) (net_pin sink_clb_net_pin) in
  inode rt_root = S ->
  rt_follows_edges G rt_root = true ->
  wires_driven_by_wires_or_opins G ->
  (forall x, rt_contains x rt_root = true -> (x < length st)%nat) ->
  let result :=
    draw_routed_timing_edge_connection G draw_route_type
      traceback_to_route_tree net_rr_terminals
      driver_clb_net_pin sink_clb_net_pin c st in
  (rt_contains T rt_root = true ->
   exists path st',
     rt_path rt_root (S :: path) /\ last (S :: path) = Some T /\
     route_follows_edges G S path /\
     wires_follow_wires_or_opins G S path /\
     length st' = length st /\
     (forall X, (X < length st)%nat ->
        st' !!! X
        = if bool_decide (X ∈ S :: path)
          then {| color := c; node_highlighted := node_highlighted (st !!! X) |}
          else st !!! X) /\
     result
     = Some (draw_partial_route G draw_route_type st' (S :: path), st') /\
     (snd (draw_partial_route G draw_route_type st' (S :: path)) = true ->
      omap node_drawn
        (fst (draw_partial_route G draw_route_type st' (S :: path)))
      = (fun inode => (inode, c))
          <$> filter (fun inode => type (rr_node G inode) <> SOURCE
                                   /\ type (rr_node G inode) <> SINK) path)) /\
  (rt_contains T rt_root = false -> result = Some ([], true, st)).
Proof.
  intros Hnet Hpin rt_root S T Hroot Htree Hgraph Hsize result.
  assert (Hfun :
    trace_routed_connection_rr_nodes traceback_to_route_tree net_rr_terminals
      driver_clb_net_pin sink_clb_net_pin
    = Some (rev (snd (trace_routed_connection_rr_nodes_recurr rt_root T [])))).
  { unfold trace_routed_connection_rr_nodes.
    rewrite Hpin.
    replace (net driver_clb_net_pin =? net sink_clb_net_pin)%Z with true
      by (rewrite Hnet; symmetry; apply Z.eqb_refl).
    cbn [negb Z.eqb]. fold rt_root. fold S.
    rewrite bool_decide_eq_true_2 by exact Hroot. cbn [negb]. fold T.
    by destruct (trace_routed_connection_rr_nodes_recurr rt_root T []). }
  pose proof (trace_routed_connection_rr_nodes_recurr_spec T rt_root [])
    as Hspec.
  unfold result, draw_routed_timing_edge_connection. rewrite Hfun.
  split; intros Hin; rewrite Hin in Hspec.
  - destruct Hspec as (p & -> & Hpath & Hlast).
    cbn [snd app]. rewrite rev_involutive.
    destruct (rt_path_follows_edges G rt_root p Hpath Htree)
      as (path & -> & Hroute).
    rewrite Hroot in Hpath, Hlast, Hroute |- *.
    set (st' := color_routed_rr_nodes c (S :: path) st).
    assert (Hlookup : forall X, (X < length st)%nat ->
              st' !!! X
              = if bool_decide (X ∈ S :: path)
                then {| color := c;
                        node_highlighted := node_highlighted (st !!! X) |}
                else st !!! X)
      by (intros X HX; by apply color_routed_rr_nodes_lookup).
    exists path, st'.
    split; [exact Hpath |]. split; [exact Hlast |]. split; [exact Hroute |].
    split; [by apply route_follows_edges_wires |].
    split; [apply color_routed_rr_nodes_length |].
    split; [exact Hlookup |].
    split; [by destruct (draw_partial_route G draw_route_type st' (S :: path)) |].
    intros Hret.
    unfold draw_partial_route, draw_partial_route_steps in Hret |- *.
    cbn [fst snd] in Hret |- *.
    rewrite (draw_partial_route_loop_nodes_drawn G draw_route_type st'
               path reset_track_tables S Hret).
    apply list_fmap_ext. intros i x Hx.
    apply list_elem_of_lookup_2, list_elem_of_filter in Hx as [_ Hx].
    assert (Hxin : x ∈ S :: path) by (apply elem_of_cons; by right).
    rewrite Hlookup
      by (apply Hsize, (rt_path_contained rt_root (S :: path)); done).
    by rewrite bool_decide_eq_true_2.
  - rewrite Hspec. reflexivity.
Qed.

End RoutedConnectionFacts.

(** * What [drawroute] leaves in [draw_rr_node] *)

Section DrawroutePaintFacts.
Variable colors : t_highlight_colors.
Variable G : t_rr_graph.
Variable net_color : list t_color.
Variable inet : nat.

(** The state that the loop of [drawroute] gives to a node of net [inet]. *)
Local Abbreviation paint := (fun d : t_draw_rr_node =>
  if draw_if_net_highlighted colors net_color inet
  then {| color := net_color !!! inet; node_highlighted := true |}
  else {| color := DEFAULT_RR_NODE_COLOR;
          node_highlighted := node_highlighted d |}).

Lemma drawroute_color_node_length (st : list t_draw_rr_node) (inode : nat) :
  length (drawroute_color_node colors net_color inet st inode) = length st.
Proof.
  unfold drawroute_color_node.
  destruct (draw_if_net_highlighted _ _ _);
    [apply length_insert | apply length_alter].
Qed.

Lemma drawroute_color_node_lookup (st : list t_draw_rr_node) (inode X : nat) :
  (X < length st)%nat ->
  drawroute_color_node colors net_color inet st inode !!! X
  = if bool_decide (X = inode) then paint (st !!! X) else st !!! X.
Proof.
  intros HX. unfold drawroute_color_node.
  destruct (bool_decide_reflect (X = inode)) as [-> | Hne];
    destruct (draw_if_net_highlighted _ _ _).
  - by rewrite list_lookup_total_insert_eq.
  - by rewrite list_lookup_total_alter_eq.
  - by rewrite list_lookup_total_insert_ne.
  - by rewrite list_lookup_total_alter_ne.
Qed.

(** The loop, entered with the vector [cur]: the first vector it hands
    over starts with [cur], and the nodes it has given the state of the
    net are those it has appended to [cur] and those that follow the first
    entry of a later vector. *)
Lemma drawroute_loop_paints (n : nat) :
  forall next cur st calls last st',
    (length next <= n)%nat ->
    drawroute_loop colors G net_color inet next cur st
      = Some (calls, last, st') ->
    last = [] /\ length st' = length st /\
    exists appended calls',
      calls = (cur ++ appended) :: calls' /\
      forall X, (X < length st)%nat ->
        st' !!! X
        = if bool_decide (X ∈ appended ++ concat (tail <$> calls'))
          then paint (st !!! X) else st !!! X.
Proof.
  induction n as [| n IH]; intros next cur st calls last st' Hlen Hloop;
    destruct next as [| inode next]; try discriminate Hloop;
    [cbn in Hlen; lia |].
  cbn [drawroute_loop] in Hloop. cbn [length] in Hlen.
  set (st1 := drawroute_color_node colors net_color inet st inode) in *.
  assert (Hlen1 : length st1 = length st)
    by apply drawroute_color_node_length.
  assert (Hst1 : forall X, (X < length st)%nat ->
            st1 !!! X
            = if bool_decide (X = inode) then paint (st !!! X) else st !!! X)
    by (intros X HX; by apply drawroute_color_node_lookup).
  assert (Hmerge : forall (X : nat) (l : list nat) (s2 : t_draw_rr_node),
            (X < length st)%nat ->
            s2 = (if bool_decide (X ∈ l) then paint (st1 !!! X) else st1 !!! X) ->
            s2 = if bool_decide (X ∈ inode :: l)
                 then paint (st !!! X) else st !!! X).
  { intros X l s2 HX ->. rewrite (Hst1 X HX).
    destruct (bool_decide_reflect (X = inode)) as [-> | Hne].
    - rewrite (bool_decide_eq_true_2 (inode ∈ inode :: l))
        by (apply elem_of_cons; by left).
      destruct (bool_decide (inode ∈ l)); [| reflexivity].
      by destruct (draw_if_net_highlighted _ _ _).
    - rewrite (bool_decide_ext (X ∈ inode :: l) (X ∈ l)); [reflexivity |].
      rewrite elem_of_cons. intuition congruence. }
  destruct (bool_decide (type (rr_node G inode) = SINK)).
  - destruct next as [| inode' next'].
    + injection Hloop as <- <- <-. repeat split; [exact Hlen1 |].
      exists [inode], []. split; [reflexivity |].
      intros X HX. cbn [fmap list_fmap concat]. rewrite app_nil_r.
      apply (Hmerge X [] _ HX).
      by rewrite bool_decide_eq_false_2 by apply not_elem_of_nil.
    + destruct (drawroute_loop colors G net_color inet next' [inode'] st1)
        as [[[calls2 last2] st2] |] eqn:Hrec; [| discriminate Hloop].
      injection Hloop as <- <- <-.
      assert (Hlen' : (length next' <= n)%nat) by (cbn [length] in Hlen; lia).
      destruct (IH _ _ _ _ _ _ Hlen' Hrec)
        as (-> & Hlen2 & appended & calls' & -> & Hst2).
      repeat split; [lia |].
      exists [inode], (([inode'] ++ appended) :: calls').
      split; [reflexivity |].
      intros X HX. cbn [fmap list_fmap concat tail app].
      apply (Hmerge X _ _ HX). apply Hst2. lia.
  - assert (Hlen' : (length next <= n)%nat) by lia.
    destruct (IH _ _ _ _ _ _ Hlen' Hloop)
      as (-> & Hlen2 & appended & calls' & -> & Hst2).
    repeat split; [lia |].
    exists (inode :: appended), calls'.
    split; [by rewrite <- app_assoc |].
    intros X HX. cbn [app]. apply (Hmerge X _ _ HX). apply Hst2. lia.
Qed.

Lemma drawroute_net_lookup
    (trace : list nat) (st : list t_draw_rr_node)
    (calls : list (list nat)) (st' : list t_draw_rr_node) :
  drawroute_net colors G net_color inet trace st = Some (calls, st') ->
  length st' = length st /\
  forall X, (X < length st)%nat ->
    st' !!! X
    = if bool_decide (X ∈ concat (tail <$> calls))
      then paint (st !!! X) else st !!! X.
Proof.
  unfold drawroute_net. destruct trace as [| inode next].
  - intros [= <- <-]. split; [reflexivity |]. intros X _.
    by rewrite bool_decide_eq_false_2 by apply not_elem_of_nil.
  - destruct (drawroute_loop colors G net_color inet next [inode] st)
      as [[[calls1 last] st1] |] eqn:Hloop; [| discriminate].
    intros [= <- <-].
    destruct (drawroute_loop_paints (length next) _ _ _ _ _ _
                (le_n _) Hloop)
      as (-> & Hlen & appended & calls' & -> & Hst).
    split; [exact Hlen |]. intros X HX.
    rewrite (Hst X HX). cbn [app fmap list_fmap concat tail].
    rewrite fmap_app, concat_app. cbn [fmap list_fmap concat tail].
    by rewrite !app_nil_r.
Qed.

(** X7: the colours that [drawroute] leaves for one net.  Every node that
    follows the first entry of a vector handed to [draw_partial_route] has
    been given the state of the net -- the colour of the net and the
    highlight flag when the net is highlighted, the default colour with its
    flag as it was when the net is not -- and every other node is as it
    was.  So the first entry of the traceback is recoloured only if it is
    met again. *)
Theorem drawroute_net_paints
    (trace : list nat) (st : list t_draw_rr_node)
    (calls : list (list nat)) (st' : list t_draw_rr_node) :
  drawroute_net colors G net_color inet trace st = Some (calls, st') ->
  length st' = length st /\
  forall X, (X < length st)%nat ->
    st' !!! X
    = if bool_decide (X ∈ concat (tail <$> calls))
      then (if draw_if_net_highlighted colors net_color inet
            then {| color := net_color !!! inet; node_highlighted := true |}
            else {| color := DEFAULT_RR_NODE_COLOR;
                    node_highlighted := node_highlighted (st !!! X) |})
      else st !!! X.
Proof. apply drawroute_net_lookup. Qed.

End DrawroutePaintFacts.

Section DrawrouteFrameFacts.
Variable colors : t_highlight_colors.
Variable G : t_rr_graph.

Lemma drawroute_net_keeps_highlights
    (net_color : list t_color) (inet : nat) (trace : list nat)
    (st : list t_draw_rr_node) (calls : list (list nat))
    (st' : list t_draw_rr_node) :
  drawroute_net colors G net_color inet trace st = Some (calls, st') ->
  length st' = length st /\
  forall X, (X < length st)%nat ->
    node_highlighted (st !!! X) = true ->
    node_highlighted (st' !!! X) = true.
Proof.
  intros Hnet.
  destruct (drawroute_net_lookup colors G net_color inet trace st calls st'
              Hnet) as [Hlen Hst].
  split; [exact Hlen |]. intros X HX Hflag. rewrite (Hst X HX).
  destruct (bool_decide _); [| exact Hflag].
  by destruct (draw_if_net_highlighted _ _ _).
Qed.

Lemma drawroute_nets_keeps_highlights
    (draw_net_type : e_draw_net_type) (is_global : list bool)
    (trace_head : list (list nat)) (net_color : list t_color)
    (inets : list nat) :
  forall st calls st',
    drawroute_nets colors G draw_net_type is_global trace_head net_color
      inets st = Some (calls, st') ->
    length st' = length st /\
    forall X, (X < length st)%nat ->
      node_highlighted (st !!! X) = true ->
      node_highlighted (st' !!! X) = true.
Proof.
  induction inets as [| inet inets IH]; intros st calls st' Hnets;
    cbn [drawroute_nets] in Hnets.
  - injection Hnets as <- <-. by split.
  - destruct (is_global !!! inet : bool); [by apply (IH _ _ _ Hnets) |].
    destruct (bool_decide (draw_net_type = HIGHLIGHTED)
              && bool_decide (net_color !!! inet = BLACK));
      [by apply (IH _ _ _ Hnets) |].
    destruct (drawroute_net colors G net_color inet (trace_head !!! inet) st)
      as [[calls1 st1] |] eqn:Hnet; [| discriminate Hnets].
    destruct (drawroute_nets colors G draw_net_type is_global trace_head
                net_color inets st1)
      as [[calls2 st2] |] eqn:Hrest; [| discriminate Hnets].
    injection Hnets as <- <-.
    destruct (drawroute_net_keeps_highlights _ _ _ _ _ _ Hnet) as [Hlen1 H1].
    destruct (IH _ _ _ Hrest) as [Hlen2 H2].
    split; [lia |]. intros X HX Hflag. apply H2; [lia |]. by apply H1.
Qed.

(** When only the highlighted nets are drawn and every net is BLACK, every
    net is skipped. *)
Lemma drawroute_nets_all_black
    (is_global : list bool) (trace_head : list (list nat))
    (net_color : list t_color) (inets : list nat)
    (st : list t_draw_rr_node) :
  (forall inet, inet ∈ inets -> net_color !!! inet = BLACK) ->
  drawroute_nets colors G HIGHLIGHTED is_global trace_head net_color inets st
  = Some ([], st).
Proof.
  induction inets as [| inet inets IH]; intros Hblack;
    cbn [drawroute_nets]; [reflexivity |].
  rewrite (bool_decide_eq_true_2 (net_color !!! inet = BLACK))
    by (apply Hblack, elem_of_cons; by left).
  rewrite IH by (intros i Hi; apply Hblack, elem_of_cons; by right).
  by destruct (is_global !!! inet : bool).
Qed.

(** X8: what [drawroute] leaves alone.  It changes nothing but the entries
    of [draw_rr_node], whose number it keeps, and it never clears a
    highlight flag; and when it is asked for the highlighted nets only and
    every net is BLACK, it draws nothing and changes nothing. *)
Theorem drawroute_frame
    (draw_net_type : e_draw_net_type) (is_global : list bool)
    (trace_head : list (list nat)) (ds : t_draw_state) :
  (forall calls ds',
     drawroute colors G draw_net_type is_global trace_head ds
       = Some (calls, ds') ->
     draw_rr_toggle ds' = draw_rr_toggle ds /\
     show_nets ds' = show_nets ds /\
     net_color ds' = net_color ds /\
     length (draw_rr_node ds') = length (draw_rr_node ds) /\
     forall X, (X < length (draw_rr_node ds))%nat ->
       node_highlighted (draw_rr_node ds !!! X) = true ->
       node_highlighted (draw_rr_node ds' !!! X) = true) /\
  ((forall inet, (inet < length is_global)%nat ->
      net_color ds !!! inet = BLACK) ->
   drawroute colors G HIGHLIGHTED is_global trace_head ds = Some ([], ds)).
Proof.
  split.
  - intros calls ds'. unfold drawroute.
    destruct (drawroute_nets colors G draw_net_type is_global trace_head
                (net_color ds) (seq 0 (length is_global)) (draw_rr_node ds))
      as [[calls1 st1] |] eqn:Hnets; [| discriminate].
    intros [= <- <-]. cbn.
    repeat (split; [reflexivity |]).
    by apply (drawroute_nets_keeps_highlights _ _ _ _ _ _ _ _ Hnets).
  - intros Hblack. unfold drawroute.
    rewrite drawroute_nets_all_black
      by (intros inet Hin; apply Hblack; apply elem_of_seq in Hin; lia).
    by destruct ds.
Qed.

End DrawrouteFrameFacts.

(** * A click that hits a node of the rr graph *)

Lemma replicate_lookup_total_default {A : Type} `{Inhabited A}
    (x : A) (n i : nat) :
  x = inhabitant -> replicate n x !!! i = x.
Proof.
  intros ->. rewrite list_lookup_total_alt.
  destruct (replicate n inhabitant !! i) as [x |] eqn:Hx; [| reflexivity].
  by apply lookup_replicate in Hx as [-> _].
Qed.

Lemma existsb_bool_decide_elem (f : nat -> bool) (N : nat) (l : list nat) :
  (forall i, f i = bool_decide (i = N)) ->
  existsb f l = bool_decide (N ∈ l).
Proof.
  intros Hf. induction l as [| i l IH]; cbn [existsb].
  - by rewrite bool_decide_eq_false_2 by apply not_elem_of_nil.
  - rewrite Hf, IH.
    destruct (bool_decide_reflect (i = N)) as [-> | Hne]; cbn [orb].
    + symmetry. apply bool_decide_eq_true_2, elem_of_cons. by left.
    + apply bool_decide_ext. rewrite elem_of_cons. intuition congruence.
Qed.

Lemma existsb_never (f : nat -> bool) (l : list nat) :
  (forall i, f i = false) -> existsb f l = false.
Proof.
  intros Hf. induction l as [| i l IH]; cbn [existsb]; [reflexivity |].
  by rewrite Hf, IH.
Qed.

Lemma highlight_nets_length (trace_head : list (list nat))
    (st : list t_draw_rr_node) (net_color : list t_color) :
  length (highlight_nets trace_head st net_color) = length net_color.
Proof.
  unfold highlight_nets. generalize (seq 0 (length trace_head)) as l.
  intros l. revert net_color.
  induction l as [| inet l IH]; intros nc; cbn [fold_left]; [reflexivity |].
  by rewrite IH, highlight_net_trace_length.
Qed.

Section BlockClickFacts.
Context {F : Type} `{FloatOps F}.
Variable sides : t_side_codes.
Variable colors : t_highlight_colors.
Variable G : t_rr_graph.
Variable grid : Z -> Z -> t_grid_tile.
Variable draw_coords : t_draw_coords F.
Variable trace_head : list (list nat).

Local Abbreviation default_node :=
  {| color := DEFAULT_RR_NODE_COLOR; node_highlighted := false |}.
Local Abbreviation selected_node :=
  {| color := MAGENTA; node_highlighted := true |}.

(** The node clicked on is selected whenever the click starts from the
    state that [deselect_all] leaves. *)
Lemma toggle_hit_node_deselected (hit_node n : nat) :
  toggle_hit_node hit_node (replicate n default_node)
  = <[hit_node := selected_node]> (replicate n default_node).
Proof.
  unfold toggle_hit_node.
  rewrite (@replicate_lookup_total_default _ t_draw_rr_node_inhabited default_node n hit_node eq_refl).
  by rewrite bool_decide_eq_false_2 by discriminate.
Qed.

(** The state after a click on [hit_node] that starts from the state
    [deselect_all] leaves, in the view that shows the nets and not the rr
    graph. *)
Lemma highlight_hit_node_deselected_nets_view
    (ds : t_draw_state) (hit_node : nat) :
  draw_rr_toggle ds = DRAW_NO_RR ->
  show_nets ds <> 0%Z ->
  (hit_node < length (draw_rr_node ds))%nat ->
  let ds' := highlight_hit_node colors G trace_head hit_node (deselect_all ds) in
  draw_rr_node ds'
  = <[hit_node := selected_node]>
      (replicate (length (draw_rr_node ds)) default_node) /\
  length (net_color ds') = length (net_color ds) /\
  forall inet, (inet < length (net_color ds))%nat ->
    net_color ds' !!! inet
    = if bool_decide (hit_node ∈ trace_head !!! inet)
      then MAGENTA else BLACK.
Proof.
  intros Hno Hnets Hlt. cbv zeta.
  unfold highlight_hit_node.
  cbn [deselect_all draw_rr_toggle show_nets draw_rr_node net_color].
  rewrite (bool_decide_eq_true_2 _ Hno). cbn [negb].
  apply Z.eqb_neq in Hnets. rewrite Hnets. cbn [negb].
  rewrite toggle_hit_node_deselected.
  set (st := <[hit_node := selected_node]>
               (replicate (length (draw_rr_node ds)) default_node)).
  split; [reflexivity |]. split.
  { by rewrite highlight_nets_length, length_replicate. }
  intros inet Hinet.
  assert (Hcolor : forall index,
            color (st !!! index) = MAGENTA <-> index = hit_node
                                               /\ color (st !!! index) = MAGENTA).
  { intros index. split; [| tauto]. intros Hm. split; [| exact Hm].
    destruct (decide (index = hit_node)) as [| Hne]; [done |]. exfalso.
    unfold st in Hm. rewrite list_lookup_total_insert_ne in Hm by done.
    rewrite (@replicate_lookup_total_default _ t_draw_rr_node_inhabited default_node _ index eq_refl) in Hm.
    discriminate Hm. }
  assert (Hblack : forall index,
            index <> hit_node -> st !!! index = default_node).
  { intros index Hne. unfold st.
    rewrite list_lookup_total_insert_ne by done.
    apply (@replicate_lookup_total_default _ t_draw_rr_node_inhabited default_node _ index eq_refl). }
  assert (Hwhite : forall index, color (st !!! index) <> WHITE).
  { intros index. destruct (decide (index = hit_node)) as [-> | Hne].
    - unfold st.
      rewrite list_lookup_total_insert_eq by (by rewrite length_replicate).
      discriminate.
    - rewrite (Hblack index Hne). discriminate. }
  unfold highlight_nets.
  rewrite (highlight_nets_loop_lookup st trace_head inet)
    by (apply NoDup_seq || by rewrite length_replicate).
  assert (Hnc : replicate (length (net_color ds)) BLACK !!! inet = BLACK)
    by apply (@replicate_lookup_total_default _ t_color_inhabited BLACK _ inet eq_refl).
  destruct (bool_decide_reflect (inet ∈ seq 0 (length trace_head)))
    as [Hin | Hout].
  - rewrite highlight_net_trace_lookup by (by rewrite length_replicate).
    rewrite existsb_never
      by (intros index; apply bool_decide_eq_false_2, Hwhite).
    rewrite Hnc.
    destruct (existsb _ (trace_head !!! inet)) eqn:Hm.
    + apply existsb_exists in Hm as (index & Hidx & Hm).
      apply bool_decide_eq_true, Hcolor in Hm as [-> _].
      by rewrite bool_decide_eq_true_2 by (by apply list_elem_of_In).
    + destruct (bool_decide_reflect (hit_node ∈ trace_head !!! inet))
        as [Hon | Hoff]; [| reflexivity].
      assert (Hex : existsb
                (fun index => bool_decide (color (st !!! index) = MAGENTA))
                (trace_head !!! inet) = true).
      { apply existsb_exists. exists hit_node.
        split; [by apply list_elem_of_In |].
        apply bool_decide_eq_true. unfold st.
        by rewrite list_lookup_total_insert_eq by (by rewrite length_replicate). }
      congruence.
  - rewrite Hnc.
    assert (Hempty : trace_head !!! inet = []).
    { rewrite list_lookup_total_alt, lookup_ge_None_2; [reflexivity |].
      rewrite elem_of_seq in Hout. lia. }
    rewrite Hempty. by rewrite bool_decide_eq_false_2 by apply not_elem_of_nil.
Qed.

(** X11: [deselect_all] wipes whatever a click or a redraw of the routing
    has left: run after a click on a node, after [drawroute], or after
    itself, it leaves the state it would have left before. *)
Theorem deselect_all_absorbs (ds : t_draw_state) :
  deselect_all (deselect_all ds) = deselect_all ds /\
  (forall hit_node,
     deselect_all (highlight_hit_node colors G trace_head hit_node ds)
     = deselect_all ds) /\
  (forall draw_net_type is_global calls ds',
     drawroute colors G draw_net_type is_global trace_head ds
       = Some (calls, ds') ->
     deselect_all ds' = deselect_all ds).
Proof.
  repeat split.
  - unfold deselect_all. cbn. by rewrite !length_replicate.
  - intros hit_node. unfold deselect_all.
    rewrite highlight_hit_node_length. f_equal.
    unfold highlight_hit_node. cbn [net_color].
    destruct (negb (show_nets ds =? 0)%Z); [| reflexivity].
    by rewrite highlight_nets_length.
  - intros draw_net_type is_global calls ds'. unfold drawroute.
    destruct (drawroute_nets colors G draw_net_type is_global trace_head
                (net_color ds) (seq 0 (length is_global)) (draw_rr_node ds))
      as [[calls1 st1] |] eqn:Hnets; [| discriminate].
    intros [= <- <-]. unfold deselect_all. cbn.
    destruct (drawroute_nets_keeps_highlights _ _ _ _ _ _ _ _ _ _ Hnets)
      as [-> _].
    reflexivity.
Qed.

End BlockClickFacts.

(** * Drawing the rr graph *)

Section RrGraphViewFacts.
Variable colors : t_highlight_colors.
Variable G : t_rr_graph.

(** What one iteration of the loop of [draw_rr_edges] draws. *)
Lemma draw_rr_edge_drawn (toggle : e_draw_rr_toggle)
    (st : list t_draw_rr_node) (inode iedge : nat)
    (drawn : list (t_color * t_draw_call)) (c : t_color) (call : t_draw_call) :
  draw_rr_edge G toggle st inode iedge = Some drawn ->
  (c, call) ∈ drawn ->
  let to_node := edges (rr_node G inode) !!! iedge in
  (exists otherwise,
     c = edge_setcolor st inode to_node otherwise /\ otherwise <> MAGENTA) /\
  inode ∈ call_nodes call /\ to_node ∈ call_nodes call /\
  (toggle = DRAW_NODES_AND_SBOX_RR -> type (rr_node G inode) <> OPIN ->
   wire_to_wire call = true).
Proof.
  unfold draw_rr_edge.
  destruct (type (rr_node G inode)),
           (type (rr_node G (edges (rr_node G inode) !!! iedge)));
    try discriminate;
    repeat match goal with
      | |- context [bool_decide (toggle = ?t)] =>
          destruct (bool_decide_reflect (toggle = t))
      | |- context [node_highlighted ?d && ?b] =>
          destruct (node_highlighted d && b)
      end;
    intros [= <-] Hin; cbn zeta;
    try (by apply elem_of_nil in Hin);
    apply list_elem_of_singleton in Hin; injection Hin as -> ->;
    (split; [eexists; split; [reflexivity | discriminate] |]);
    cbn [call_nodes wire_to_wire];
    (repeat split; try (repeat constructor); try done; try congruence).
Qed.

Lemma draw_rr_edges_loop_drawn (toggle : e_draw_rr_toggle)
    (st : list t_draw_rr_node) (inode : nat) (iedges : list nat) :
  forall drawn c call,
    draw_rr_edges_loop G toggle st inode iedges = Some drawn ->
    (c, call) ∈ drawn ->
    exists iedge drawn1,
      iedge ∈ iedges /\
      draw_rr_edge G toggle st inode iedge = Some drawn1 /\
      (c, call) ∈ drawn1.
Proof.
  induction iedges as [| iedge iedges IH]; intros drawn c call Hloop Hin;
    cbn [draw_rr_edges_loop] in Hloop.
  - injection Hloop as <-. by apply elem_of_nil in Hin.
  - destruct (draw_rr_edge G toggle st inode iedge) as [drawn1 |] eqn:Hedge;
      [| discriminate Hloop].
    destruct (draw_rr_edges_loop G toggle st inode iedges) as [drawn2 |];
      [| discriminate Hloop].
    injection Hloop as <-. apply elem_of_app in Hin as [Hin | Hin].
    + exists iedge, drawn1. repeat split; [apply elem_of_cons; by left | done..].
    + destruct (IH _ _ _ eq_refl Hin) as (i & d & Hi & Hd & Hcd).
      exists i, d. repeat split; [apply elem_of_cons; by right | done..].
Qed.

(** X12: the colour of an edge of the rr graph.  Every edge that
    [draw_rr_edges] draws joins the node to the target of one of its
    edges; it is drawn in the colour of the target when the node is
    MAGENTA (selected), in the colour of the node when only the target is,
    and is MAGENTA itself only when both its ends are. *)
Theorem draw_rr_edges_color (toggle : e_draw_rr_toggle)
    (st : list t_draw_rr_node) (inode : nat)
    (drawn : list (t_color * t_draw_call)) (c : t_color) (call : t_draw_call) :
  draw_rr_edges G toggle st inode = Some drawn ->
  (c, call) ∈ drawn ->
  exists to_node,
    to_node ∈ edges (rr_node G inode) /\
    inode ∈ call_nodes call /\ to_node ∈ call_nodes call /\
    (color (st !!! inode) = MAGENTA -> c = color (st !!! to_node)) /\
    (color (st !!! inode) <> MAGENTA -> color (st !!! to_node) = MAGENTA ->
     c = color (st !!! inode)) /\
    (c = MAGENTA ->
     color (st !!! inode) = MAGENTA /\ color (st !!! to_node) = MAGENTA).
Proof.
  unfold draw_rr_edges. destruct (_ || _).
  { intros [= <-] Hin. by apply elem_of_nil in Hin. }
  intros Hloop Hin.
  destruct (draw_rr_edges_loop_drawn _ _ _ _ _ _ _ Hloop Hin)
    as (iedge & drawn1 & Hiedge & Hedge & Hin1).
  destruct (draw_rr_edge_drawn _ _ _ _ _ _ _ Hedge Hin1)
    as ((otherwise & -> & Hother) & Hfrom & Hto & _).
  exists (edges (rr_node G inode) !!! iedge).
  split.
  { apply elem_of_seq in Hiedge as [_ Hlt]. cbn in Hlt.
    destruct (lookup_lt_is_Some_2 (edges (rr_node G inode)) iedge Hlt)
      as [to_node Hlook].
    rewrite (list_lookup_total_correct _ _ _ Hlook).
    by apply list_elem_of_lookup_2 in Hlook. }
  split; [exact Hfrom |]. split; [exact Hto |].
  unfold edge_setcolor.
  destruct (bool_decide_reflect
              (color (st !!! inode) = MAGENTA)) as [Hm | Hm];
    [by repeat split |].
  destruct (bool_decide_reflect
              (color (st !!! (edges (rr_node G inode) !!! iedge)) = MAGENTA))
    as [Hm' | Hm']; repeat split; try done; intros; congruence.
Qed.

(** X13: the edges that the views leave out.  [draw_rr_edges] draws
    nothing when only the nodes are shown, and only connections between
    two wires when the nodes and the switch boxes are shown. *)
Theorem draw_rr_edges_by_view (toggle : e_draw_rr_toggle)
    (st : list t_draw_rr_node) (inode : nat) :
  (toggle = DRAW_NODES_RR -> draw_rr_edges G toggle st inode = Some []) /\
  (toggle = DRAW_NODES_AND_SBOX_RR ->
   forall drawn c call,
     draw_rr_edges G toggle st inode = Some drawn ->
     (c, call) ∈ drawn -> wire_to_wire call = true).
Proof.
  split.
  - intros ->. reflexivity.
  - intros Hsbox drawn c call. unfold draw_rr_edges.
    rewrite (bool_decide_eq_true_2 _ Hsbox).
    rewrite (bool_decide_eq_false_2 (toggle = DRAW_NODES_RR))
      by (rewrite Hsbox; discriminate).
    cbn [orb andb].
    destruct (bool_decide_reflect (type (rr_node G inode) = OPIN))
      as [Hopin | Hopin].
    { intros [= <-] Hin. by apply elem_of_nil in Hin. }
    intros Hloop Hin.
    destruct (draw_rr_edges_loop_drawn _ _ _ _ _ _ _ Hloop Hin)
      as (iedge & drawn1 & _ & Hedge & Hin1).
    by apply (draw_rr_edge_drawn _ _ _ _ _ _ _ Hedge Hin1).
Qed.

Lemma draw_rr_edge_is_Some (toggle : e_draw_rr_toggle)
    (st : list t_draw_rr_node) (inode iedge : nat) :
  is_Some (draw_rr_edge G toggle st inode iedge)
  <-> edge_types_drawn (type (rr_node G inode))
        (type (rr_node G (edges (rr_node G inode) !!! iedge))) = true.
Proof.
  unfold draw_rr_edge.
  destruct (type (rr_node G inode)),
           (type (rr_node G (edges (rr_node G inode) !!! iedge)));
    cbn [edge_types_drawn];
    repeat match goal with
      | |- context [bool_decide (toggle = ?t)] =>
          destruct (bool_decide (toggle = t))
      | |- context [node_highlighted ?d && ?b] =>
          destruct (node_highlighted d && b)
      end;
    split; try done; try (by eexists); intros [? ?]; discriminate.
Qed.

Lemma draw_rr_edges_loop_is_Some (toggle : e_draw_rr_toggle)
    (st : list t_draw_rr_node) (inode : nat) (iedges : list nat) :
  is_Some (draw_rr_edges_loop G toggle st inode iedges)
  <-> forall iedge, iedge ∈ iedges ->
        is_Some (draw_rr_edge G toggle st inode iedge).
Proof.
  induction iedges as [| iedge iedges IH]; cbn [draw_rr_edges_loop].
  - split; [| by eexists]. intros _ i Hi. by apply elem_of_nil in Hi.
  - split.
    + intros Hsome i Hi.
      destruct (draw_rr_edge G toggle st inode iedge) as [d |] eqn:Hedge;
        [| by destruct Hsome].
      destruct (draw_rr_edges_loop G toggle st inode iedges) as [d' |];
        [| by destruct Hsome].
      apply elem_of_cons in Hi as [-> | Hi]; [by rewrite Hedge |].
      apply IH; [by eexists | exact Hi].
    + intros Hall.
      destruct (Hall iedge) as [d Hd]; [apply elem_of_cons; by left |].
      rewrite Hd.
      destruct (proj2 IH) as [d' Hd'].
      { intros i Hi. apply Hall, elem_of_cons. by right. }
      rewrite Hd'. by eexists.
Qed.

Lemma draw_rr_edges_is_Some (toggle : e_draw_rr_toggle)
    (st : list t_draw_rr_node) (inode : nat) :
  (toggle <> DRAW_NODES_RR ->
   ~ (toggle = DRAW_NODES_AND_SBOX_RR /\ type (rr_node G inode) = OPIN) ->
   (is_Some (draw_rr_edges G toggle st inode)
    <-> forall to_node, to_node ∈ edges (rr_node G inode) ->
          edge_types_drawn (type (rr_node G inode))
            (type (rr_node G to_node)) = true)) /\
  (toggle = DRAW_NODES_RR \/
   (toggle = DRAW_NODES_AND_SBOX_RR /\ type (rr_node G inode) = OPIN) ->
   is_Some (draw_rr_edges G toggle st inode)).
Proof.
  unfold draw_rr_edges. split.
  - intros Hnodes Hsbox.
    rewrite (bool_decide_eq_false_2 _ Hnodes). cbn [orb].
    assert (Hgate : bool_decide (toggle = DRAW_NODES_AND_SBOX_RR)
                    && bool_decide (type (rr_node G inode) = OPIN) = false).
    { apply andb_false_iff.
      destruct (decide (toggle = DRAW_NODES_AND_SBOX_RR)) as [Ht | Ht];
        [right | left]; apply bool_decide_eq_false_2; tauto. }
    rewrite Hgate, draw_rr_edges_loop_is_Some.
    split.
    + intros Hall to_node Hto.
      apply list_elem_of_lookup_1 in Hto as [iedge Hlook].
      specialize (Hall iedge). rewrite draw_rr_edge_is_Some in Hall.
      rewrite (list_lookup_total_correct _ _ _ Hlook) in Hall.
      apply Hall, elem_of_seq. apply lookup_lt_Some in Hlook.
      unfold get_num_edges. lia.
    + intros Hall iedge Hiedge. apply draw_rr_edge_is_Some, Hall.
      apply elem_of_seq in Hiedge as [_ Hlt]. cbn in Hlt.
      destruct (lookup_lt_is_Some_2 (edges (rr_node G inode)) iedge Hlt)
        as [to_node Hlook].
      rewrite (list_lookup_total_correct _ _ _ Hlook).
      by apply list_elem_of_lookup_2 in Hlook.
  - intros [-> | [-> ->]]; cbn; by eexists.
Qed.

(** X14: what [draw_rr_edges] asks of the edges of a node.  In a view in
    which the edges of the node are drawn, a run that reaches its end has
    found every edge of the node to be one it can draw: from an output pin
    to a wire or an input pin, or from a wire to an input pin or a wire.
    On a node with an edge of another kind the run ends in a [vpr_throw].
    In the view that shows no edges, and for an output pin in the view
    that shows the switch boxes, it returns at once and draws nothing,
    whatever the edges of the node. *)
Theorem draw_rr_edges_returns_only_if (toggle : e_draw_rr_toggle)
    (st : list t_draw_rr_node) (inode : nat) :
  (toggle <> DRAW_NODES_RR ->
   ~ (toggle = DRAW_NODES_AND_SBOX_RR /\ type (rr_node G inode) = OPIN) ->
   (is_Some (draw_rr_edges G toggle st inode) ->
    forall to_node, to_node ∈ edges (rr_node G inode) ->
      edge_types_drawn (type (rr_node G inode))
        (type (rr_node G to_node)) = true) /\
   (forall to_node, to_node ∈ edges (rr_node G inode) ->
      edge_types_drawn (type (rr_node G inode))
        (type (rr_node G to_node)) = false ->
      draw_rr_edges G toggle st inode = None)) /\
  (toggle = DRAW_NODES_RR \/
   (toggle = DRAW_NODES_AND_SBOX_RR /\ type (rr_node G inode) = OPIN) ->
   draw_rr_edges G toggle st inode = Some []).
Proof.
  split.
  - intros Hnodes Hsbox.
    destruct (draw_rr_edges_is_Some toggle st inode) as [Hiff _].
    specialize (Hiff Hnodes Hsbox). split; [apply Hiff |].
    intros to_node Hto Hbad.
    destruct (draw_rr_edges G toggle st inode) as [drawn |] eqn:Hrun;
      [| reflexivity].
    rewrite (proj1 Hiff (ltac:(by eexists)) to_node Hto) in Hbad.
    discriminate Hbad.
  - unfold draw_rr_edges. intros [-> | [-> ->]]; reflexivity.
Qed.

Lemma draw_rr_type_color_length (st : list t_draw_rr_node) (inode : nat) :
  length (draw_rr_type_color G st inode) = length st.
Proof.
  unfold draw_rr_type_color.
  destruct (negb _); [| reflexivity].
  destruct (type (rr_node G inode)); rewrite ?length_alter; reflexivity.
Qed.

Lemma draw_rr_type_color_lookup (st : list t_draw_rr_node) (inode X : nat) :
  (X < length st)%nat ->
  draw_rr_type_color G st inode !!! X
  = if bool_decide (X = inode) then type_colored G X (st !!! X) else st !!! X.
Proof.
  intros HX. unfold draw_rr_type_color, type_colored.
  destruct (bool_decide_reflect (X = inode)) as [-> | Hne].
  - destruct (node_highlighted (st !!! inode)) eqn:Hflag; cbn [negb];
      [reflexivity |].
    destruct (type (rr_node G inode));
      rewrite ?list_lookup_total_alter_eq by exact HX;
      rewrite ?Hflag; reflexivity.
  - destruct (negb _); [| reflexivity].
    destruct (type (rr_node G inode));
      rewrite ?list_lookup_total_alter_ne by done; reflexivity.
Qed.

Lemma type_colored_idempotent (inode : nat) (d : t_draw_rr_node) :
  type_colored G inode (type_colored G inode d) = type_colored G inode d.
Proof.
  unfold type_colored. destruct (node_highlighted d) eqn:Hflag.
  - by rewrite Hflag.
  - destruct (type (rr_node G inode)); cbn; by rewrite ?Hflag.
Qed.

(** The colours after the loop of [draw_rr]. *)
Lemma draw_rr_loop_colors (toggle : e_draw_rr_toggle) (inodes : list nat) :
  forall st drawn st',
    draw_rr_loop G toggle inodes st = Some (drawn, st') ->
    length st' = length st /\
    forall X, (X < length st)%nat ->
      st' !!! X
      = if bool_decide (X ∈ inodes) then type_colored G X (st !!! X)
        else st !!! X.
Proof.
  induction inodes as [| inode inodes IH]; intros st drawn st' Hloop;
    cbn [draw_rr_loop] in Hloop.
  - injection Hloop as <- <-. split; [reflexivity |]. intros X _.
    by rewrite bool_decide_eq_false_2 by apply not_elem_of_nil.
  - destruct (draw_rr_draw_node G toggle (draw_rr_type_color G st inode) inode)
      as [drawn1 |]; [| discriminate Hloop].
    destruct (draw_rr_loop G toggle inodes (draw_rr_type_color G st inode))
      as [[drawn2 st2] |] eqn:Hrest; [| discriminate Hloop].
    injection Hloop as <- <-.
    destruct (IH _ _ _ Hrest) as [Hlen Hst].
    rewrite draw_rr_type_color_length in Hlen, Hst.
    split; [exact Hlen |]. intros X HX. rewrite (Hst X HX).
    rewrite draw_rr_type_color_lookup by exact HX.
    destruct (bool_decide_reflect (X = inode)) as [-> | Hne].
    + rewrite (bool_decide_eq_true_2 (inode ∈ inode :: inodes))
        by (apply elem_of_cons; by left).
      destruct (bool_decide (inode ∈ inodes));
        [apply type_colored_idempotent | reflexivity].
    + rewrite (bool_decide_ext (X ∈ inode :: inodes) (X ∈ inodes));
        [reflexivity |].
      rewrite elem_of_cons. intuition congruence.
Qed.

Lemma draw_rr_colors_aux
    (is_global : list bool) (trace_head : list (list nat)) (ds : t_draw_state)
    (drawn : list t_rr_drawn) (calls : list (list nat)) (ds' : t_draw_state) :
  (forall inet, (inet < length is_global)%nat ->
     net_color ds !!! inet = BLACK) ->
  draw_rr colors G is_global trace_head ds = Some (drawn, calls, ds') ->
  calls = [] /\
  draw_rr_toggle ds' = draw_rr_toggle ds /\
  show_nets ds' = show_nets ds /\
  net_color ds' = net_color ds /\
  length (draw_rr_node ds') = length (draw_rr_node ds) /\
  forall X, (X < length (draw_rr_node ds))%nat ->
    draw_rr_node ds' !!! X
    = if bool_decide (draw_rr_toggle ds <> DRAW_NO_RR
                      /\ (X < num_rr_nodes G)%nat)
      then type_colored G X (draw_rr_node ds !!! X)
      else draw_rr_node ds !!! X.
Proof.
  intros Hblack. unfold draw_rr.
  destruct (bool_decide_reflect (draw_rr_toggle ds = DRAW_NO_RR))
    as [Hno | Hshown].
  - unfold drawroute. rewrite drawroute_nets_all_black
      by (intros inet Hin; apply Hblack; apply elem_of_seq in Hin; lia).
    intros [= <- <- <-]. cbn. repeat (split; [reflexivity |]).
    intros X _. by rewrite bool_decide_eq_false_2 by tauto.
  - destruct (draw_rr_loop G (draw_rr_toggle ds) (seq 0 (num_rr_nodes G))
                (draw_rr_node ds)) as [[drawn1 st1] |] eqn:Hloop;
      [| discriminate].
    unfold drawroute. cbn [net_color draw_rr_node draw_rr_toggle show_nets].
    rewrite drawroute_nets_all_black
      by (intros inet Hin; apply Hblack; apply elem_of_seq in Hin; lia).
    intros [= <- <- <-]. cbn.
    destruct (draw_rr_loop_colors _ _ _ _ _ Hloop) as [Hlen Hst].
    repeat (split; [done |]). intros X HX. rewrite (Hst X HX).
    rewrite (bool_decide_ext (X ∈ seq 0 (num_rr_nodes G))
               (draw_rr_toggle ds <> DRAW_NO_RR /\ (X < num_rr_nodes G)%nat));
      [reflexivity |].
    rewrite elem_of_seq. intuition lia.
Qed.

(** X15: the colours that [draw_rr] leaves when no net is highlighted.
    Its call of [drawroute] then draws nothing.  In a view that shows the
    rr graph every node that is not highlighted has the colour of its type
    afterwards -- the default for a wire, PINK for an output pin,
    LIGHTSKYBLUE for an input pin -- so that the WHITE of a deselected pin
    or wire does not outlast the redraw; a highlighted node, a SOURCE and a
    SINK keep what they had.  In the view that hides the rr graph nothing
    changes. *)
Theorem draw_rr_colors
    (is_global : list bool) (trace_head : list (list nat)) (ds : t_draw_state)
    (drawn : list t_rr_drawn) (calls : list (list nat)) (ds' : t_draw_state) :
  (forall inet, (inet < length is_global)%nat ->
     net_color ds !!! inet = BLACK) ->
  draw_rr colors G is_global trace_head ds = Some (drawn, calls, ds') ->
  calls = [] /\
  draw_rr_toggle ds' = draw_rr_toggle ds /\
  show_nets ds' = show_nets ds /\
  net_color ds' = net_color ds /\
  length (draw_rr_node ds') = length (draw_rr_node ds) /\
  forall X, (X < length (draw_rr_node ds))%nat ->
    draw_rr_node ds' !!! X
    = if bool_decide (draw_rr_toggle ds <> DRAW_NO_RR
                      /\ (X < num_rr_nodes G)%nat)
      then type_colored G X (draw_rr_node ds !!! X)
      else draw_rr_node ds !!! X.
Proof. apply draw_rr_colors_aux. Qed.

Lemma draw_rr_draw_node_is_Some (toggle : e_draw_rr_toggle)
    (st : list t_draw_rr_node) (inode : nat) :
  is_Some (draw_rr_draw_node G toggle st inode)
  <-> (type (rr_node G inode) = CHANX \/ type (rr_node G inode) = CHANY
       \/ type (rr_node G inode) = OPIN ->
       is_Some (draw_rr_edges G toggle st inode)).
Proof.
  unfold draw_rr_draw_node.
  destruct (type (rr_node G inode)) eqn:Hty;
    try (split; [intros _ [? | [? | ?]]; discriminate | by eexists]);
    (destruct (draw_rr_edges G toggle st inode) as [drawn |];
      [split; by eexists
      | split; [intros [? ?]; discriminate
               | intros Hsome; destruct Hsome as [? ?]; [tauto | discriminate]]]).
Qed.

(** A run of the loop of [draw_rr] has drawn each of its nodes. *)
Lemma draw_rr_loop_draws_nodes (toggle : e_draw_rr_toggle)
    (inodes : list nat) :
  forall st,
    is_Some (draw_rr_loop G toggle inodes st) ->
    forall inode, inode ∈ inodes ->
      exists st', is_Some (draw_rr_draw_node G toggle st' inode).
Proof.
  induction inodes as [| inode0 inodes IH]; intros st Hrun inode Hin;
    [by apply elem_of_nil in Hin |].
  cbn [draw_rr_loop] in Hrun.
  destruct (draw_rr_draw_node G toggle (draw_rr_type_color G st inode0) inode0)
    as [drawn1 |] eqn:Hnode; [| by destruct Hrun].
  destruct (draw_rr_loop G toggle inodes (draw_rr_type_color G st inode0))
    as [[drawn2 st2] |] eqn:Hrest; [| by destruct Hrun].
  apply elem_of_cons in Hin as [-> | Hin].
  - exists (draw_rr_type_color G st inode0). by rewrite Hnode.
  - apply (IH (draw_rr_type_color G st inode0)); [by rewrite Hrest | exact Hin].
Qed.

(** X16: what [draw_rr] asks of the rr graph.  A run of [draw_rr] that
    reaches its end in a view that shows edges has found every edge that
    it looks at to be one that [draw_rr_edges] can draw: in the two views
    that show every edge, the edges that leave a wire or an output pin; in
    the view that shows the switch boxes, the edges that leave a wire.  On
    a graph with another edge among these the run ends in a [vpr_throw]. *)
Theorem draw_rr_returns_only_if
    (is_global : list bool) (trace_head : list (list nat)) (ds : t_draw_state) :
  is_Some (draw_rr colors G is_global trace_head ds) ->
  forall inode, (inode < num_rr_nodes G)%nat ->
    ((draw_rr_toggle ds = DRAW_ALL_RR
      \/ draw_rr_toggle ds = DRAW_ALL_BUT_BUFFERS_RR) /\
     (type (rr_node G inode) = CHANX \/ type (rr_node G inode) = CHANY
      \/ type (rr_node G inode) = OPIN))
    \/ (draw_rr_toggle ds = DRAW_NODES_AND_SBOX_RR /\
        (type (rr_node G inode) = CHANX \/ type (rr_node G inode) = CHANY)) ->
    forall to_node, to_node ∈ edges (rr_node G inode) ->
      edge_types_drawn (type (rr_node G inode))
        (type (rr_node G to_node)) = true.
Proof.
  intros Hrun inode Hinode Hview.
  assert (Hshown : draw_rr_toggle ds <> DRAW_NO_RR)
    by (destruct Hview as [[[-> | ->] _] | [-> _]]; discriminate).
  unfold draw_rr in Hrun.
  rewrite (bool_decide_eq_false_2 _ Hshown) in Hrun.
  destruct (draw_rr_loop G (draw_rr_toggle ds) (seq 0 (num_rr_nodes G))
              (draw_rr_node ds)) as [[drawn1 st1] |] eqn:Hloop;
    [| by destruct Hrun].
  destruct (draw_rr_loop_draws_nodes (draw_rr_toggle ds)
              (seq 0 (num_rr_nodes G)) (draw_rr_node ds)
              (ltac:(by rewrite Hloop)) inode) as [st' Hnode];
    [apply elem_of_seq; lia |].
  apply draw_rr_draw_node_is_Some in Hnode;
    [| destruct Hview as [[_ Hty] | [_ Hty]]; tauto].
  destruct (draw_rr_edges_is_Some (draw_rr_toggle ds) st' inode) as [Hiff _].
  apply Hiff; [| | exact Hnode].
  - destruct Hview as [[[-> | ->] _] | [-> _]]; discriminate.
  - intros [Hsbox Hopin].
    destruct Hview as [[[Ht | Ht] _] | [_ [Hty | Hty]]]; congruence.
Qed.

Lemma draw_rr_draw_node_drawn (toggle : e_draw_rr_toggle)
    (st : list t_draw_rr_node) (inode : nat) (drawn : list t_rr_drawn) :
  draw_rr_draw_node G toggle st inode = Some drawn ->
  omap rr_node_drawn drawn
  = (fun inode => (inode, color (st !!! inode)))
      <$> filter (fun inode => type (rr_node G inode) <> SOURCE
                               /\ type (rr_node G inode) <> SINK) [inode].
Proof.
  rewrite filter_cons, filter_nil. unfold draw_rr_draw_node.
  assert (Hedges : forall edges : list (t_color * t_draw_call),
            omap rr_node_drawn
              ((fun edge => Drawn_edge (fst edge) (snd edge)) <$> edges) = []).
  { intros edges. induction edges as [| e edges IH]; [reflexivity |].
    cbn. exact IH. }
  destruct (type (rr_node G inode)) eqn:Hty;
    try (destruct (draw_rr_edges G toggle st inode) as [edges |];
         [| discriminate]);
    intros [= <-]; cbn [omap list_omap rr_node_drawn node_drawn];
    rewrite ?Hedges;
    (destruct (decide _) as [Hd | Hd];
      [first [reflexivity | exfalso; intuition congruence]
      | first [reflexivity | exfalso; apply Hd; split; congruence]]).
Qed.

Lemma draw_rr_loop_nodes_drawn (toggle : e_draw_rr_toggle) (inodes : list nat) :
  NoDup inodes ->
  forall st drawn st',
    (forall inode, inode ∈ inodes -> (inode < length st)%nat) ->
    draw_rr_loop G toggle inodes st = Some (drawn, st') ->
    omap rr_node_drawn drawn
    = (fun inode => (inode, color (type_colored G inode (st !!! inode))))
        <$> filter (fun inode => type (rr_node G inode) <> SOURCE
                                 /\ type (rr_node G inode) <> SINK) inodes.
Proof.
  induction 1 as [| inode inodes Hnotin Hnodup IH];
    intros st drawn st' Hrange Hloop; cbn [draw_rr_loop] in Hloop.
  - by injection Hloop as <- <-.
  - destruct (draw_rr_draw_node G toggle (draw_rr_type_color G st inode) inode)
      as [drawn1 |] eqn:Hnode; [| discriminate Hloop].
    destruct (draw_rr_loop G toggle inodes (draw_rr_type_color G st inode))
      as [[drawn2 st2] |] eqn:Hrest; [| discriminate Hloop].
    injection Hloop as <- <-.
    assert (Hinode : (inode < length st)%nat)
      by (apply Hrange, elem_of_cons; by left).
    rewrite omap_app, (draw_rr_draw_node_drawn _ _ _ _ Hnode).
    assert (Hrange' : forall j, j ∈ inodes ->
                        (j < length (draw_rr_type_color G st inode))%nat)
      by (intros j Hj; rewrite draw_rr_type_color_length;
          apply Hrange, elem_of_cons; by right).
    rewrite (IH _ _ _ Hrange' Hrest).
    rewrite (filter_cons _ inode inodes), filter_cons, filter_nil.
    assert (Hrestmap :
      (fun j => (j, color (type_colored G j
                             (draw_rr_type_color G st inode !!! j))))
        <$> filter (fun j => type (rr_node G j) <> SOURCE
                             /\ type (rr_node G j) <> SINK) inodes
      = (fun j => (j, color (type_colored G j (st !!! j))))
          <$> filter (fun j => type (rr_node G j) <> SOURCE
                               /\ type (rr_node G j) <> SINK) inodes).
    { apply list_fmap_ext. intros k j Hj.
      apply list_elem_of_lookup_2, list_elem_of_filter in Hj as [_ Hj].
      rewrite draw_rr_type_color_lookup
        by (apply Hrange, elem_of_cons; by right).
      rewrite bool_decide_eq_false_2; [reflexivity |].
      intros ->. contradiction. }
    rewrite Hrestmap.
    destruct (decide _); cbn [fmap list_fmap app]; [| reflexivity].
    rewrite draw_rr_type_color_lookup by exact Hinode.
    by rewrite bool_decide_eq_true_2.
Qed.

(** X17: the rr graph is drawn in the colours that are kept.  With no net
    highlighted, [draw_rr] in a view that shows the rr graph draws every
    pin and every wire once, in the order of their indices, and in the
    colour that it leaves for the node in [draw_rr_node]; it draws no
    SOURCE and no SINK. *)
Theorem draw_rr_nodes_drawn
    (is_global : list bool) (trace_head : list (list nat)) (ds : t_draw_state)
    (drawn : list t_rr_drawn) (calls : list (list nat)) (ds' : t_draw_state) :
  draw_rr_toggle ds <> DRAW_NO_RR ->
  (forall inet, (inet < length is_global)%nat ->
     net_color ds !!! inet = BLACK) ->
  length (draw_rr_node ds) = num_rr_nodes G ->
  draw_rr colors G is_global trace_head ds = Some (drawn, calls, ds') ->
  omap rr_node_drawn drawn
  = (fun inode => (inode, color (draw_rr_node ds' !!! inode)))
      <$> filter (fun inode => type (rr_node G inode) <> SOURCE
                               /\ type (rr_node G inode) <> SINK)
            (seq 0 (num_rr_nodes G)).
Proof.
  intros Hshown Hblack Hlen Hdraw.
  pose proof (draw_rr_colors_aux _ _ _ _ _ _ Hblack Hdraw)
    as (_ & _ & _ & _ & _ & Hst).
  unfold draw_rr in Hdraw.
  rewrite (bool_decide_eq_false_2 _ Hshown) in Hdraw.
  destruct (draw_rr_loop G (draw_rr_toggle ds) (seq 0 (num_rr_nodes G))
              (draw_rr_node ds)) as [[drawn1 st1] |] eqn:Hloop;
    [| discriminate Hdraw].
  unfold drawroute in Hdraw.
  cbn [net_color draw_rr_node draw_rr_toggle show_nets] in Hdraw.
  rewrite drawroute_nets_all_black in Hdraw
    by (intros inet Hin; apply Hblack; apply elem_of_seq in Hin; lia).
  injection Hdraw as <- _ _.
  assert (Hrange : forall inode, inode ∈ seq 0 (num_rr_nodes G) ->
                      (inode < length (draw_rr_node ds))%nat)
    by (intros inode Hin; apply elem_of_seq in Hin; lia).
  rewrite (draw_rr_loop_nodes_drawn _ _ (NoDup_seq _ _) _ _ _ Hrange Hloop).
  apply list_fmap_ext. intros k inode Hin.
  apply list_elem_of_lookup_2, list_elem_of_filter in Hin as [_ Hin].
  apply elem_of_seq in Hin.
  rewrite Hst by lia.
  by rewrite bool_decide_eq_true_2 by (split; [exact Hshown | lia]).
Qed.

(** The state after a click on [hit_node] and the redraw, in a view that
    shows the rr graph and no nets, with no net highlighted. *)
Lemma draw_rr_after_click
    (is_global : list bool) (trace_head : list (list nat)) (ds : t_draw_state)
    (hit_node : nat)
    (drawn : list t_rr_drawn) (calls : list (list nat)) (ds' : t_draw_state) :
  draw_rr_toggle ds <> DRAW_NO_RR ->
  show_nets ds = 0%Z ->
  (forall inet, net_color ds !!! inet = BLACK) ->
  length (draw_rr_node ds) = num_rr_nodes G ->
  (hit_node < num_rr_nodes G)%nat ->
  hit_node ∉ edges (rr_node G hit_node) ->
  draw_rr colors G is_global trace_head
    (highlight_hit_node colors G trace_head hit_node ds)
    = Some (drawn, calls, ds') ->
  draw_rr_toggle ds' = draw_rr_toggle ds /\
  show_nets ds' = show_nets ds /\
  net_color ds' = net_color ds /\
  length (draw_rr_node ds') = num_rr_nodes G /\
  forall X, (X < num_rr_nodes G)%nat ->
    let selected :=
      negb (bool_decide (color (draw_rr_node ds !!! hit_node) = MAGENTA)) in
    draw_rr_node ds' !!! X
    = type_colored G X
        (if bool_decide (hit_node ∈ edges (rr_node G X))
         then fanin_mark selected
         else if bool_decide (X ∈ edges (rr_node G hit_node))
         then fanout_mark colors selected
         else toggle_hit_node hit_node (draw_rr_node ds) !!! X).
Proof.
  intros Hshown Hnets Hblack Hlen Hlt Hloop Hdraw.
  assert (Hnc : net_color (highlight_hit_node colors G trace_head hit_node ds)
                = net_color ds).
  { unfold highlight_hit_node. cbn [net_color]. by rewrite Hnets. }
  apply draw_rr_colors_aux in Hdraw
    as (_ & Htoggle & Hshow & Hcolor & Hlen' & Hst);
    [| intros inet _; rewrite Hnc; apply Hblack].
  rewrite highlight_hit_node_length in Hlen', Hst.
  repeat split; try done; try congruence.
  intros X HX selected. rewrite Hst by lia.
  assert (Htog : draw_rr_toggle
                   (highlight_hit_node colors G trace_head hit_node ds)
                 = draw_rr_toggle ds) by reflexivity.
  rewrite Htog, bool_decide_eq_true_2 by (split; [exact Hshown | exact HX]).
  f_equal.
  rewrite highlight_hit_node_lookup by (lia || exact Hloop). cbv zeta.
  rewrite (bool_decide_eq_false_2 _ Hshown).
  rewrite (bool_decide_ext (_ /\ hit_node ∈ edges (rr_node G X) /\ _)
             (hit_node ∈ edges (rr_node G X))) by (intuition lia).
  rewrite (bool_decide_ext (X ∈ edges (rr_node G hit_node) /\ _)
             (X ∈ edges (rr_node G hit_node))) by (intuition lia).
  reflexivity.
Qed.

(** X18: selecting a node and deselecting it again restores the picture.
    The view shows the rr graph and no nets; the rr graph has been drawn
    with nothing selected.  A click on a pin or wire that has no edge to
    itself, with the control key held, leaves the node MAGENTA after the
    redraw; a second such click and redraw leave the draw state exactly as
    it was before the first click: the WHITE that marks the deselected node
    is gone, and every neighbour has the colour of its type again. *)
Theorem select_deselect_round_trip
    (is_global : list bool) (trace_head : list (list nat)) (ds : t_draw_state)
    (hit_node : nat)
    (drawn0 drawn1 drawn2 : list t_rr_drawn)
    (calls0 calls1 calls2 : list (list nat)) (ds0 ds1 ds2 : t_draw_state) :
  draw_rr_toggle ds <> DRAW_NO_RR ->
  show_nets ds = 0%Z ->
  length (draw_rr_node ds) = num_rr_nodes G ->
  (hit_node < num_rr_nodes G)%nat ->
  hit_node ∉ edges (rr_node G hit_node) ->
  type (rr_node G hit_node) <> SOURCE ->
  type (rr_node G hit_node) <> SINK ->
  draw_rr colors G is_global trace_head (deselect_all ds)
    = Some (drawn0, calls0, ds0) ->
  draw_rr colors G is_global trace_head
    (highlight_hit_node colors G trace_head hit_node ds0)
    = Some (drawn1, calls1, ds1) ->
  draw_rr colors G is_global trace_head
    (highlight_hit_node colors G trace_head hit_node ds1)
    = Some (drawn2, calls2, ds2) ->
  draw_rr_node ds1 !!! hit_node
  = {| color := MAGENTA; node_highlighted := true |} /\
  ds2 = ds0.
Proof.
  intros Hshown Hnets Hlen Hlt Hloop Hsrc Hsink Hdraw0 Hdraw1 Hdraw2.
  set (default := {| color := DEFAULT_RR_NODE_COLOR;
                     node_highlighted := false |}).
  assert (Hblack : forall inet, net_color (deselect_all ds) !!! inet = BLACK)
    by (intros inet;
        apply (@replicate_lookup_total_default _ t_color_inhabited BLACK
                 _ inet eq_refl)).
  apply draw_rr_colors_aux in Hdraw0
    as (_ & Htoggle0 & Hshow0 & Hcolor0 & Hlen0 & Hst0);
    [| intros inet _; apply Hblack].
  cbn [deselect_all draw_rr_toggle show_nets net_color draw_rr_node]
    in Htoggle0, Hshow0, Hcolor0, Hlen0, Hst0.
  rewrite length_replicate in Hlen0, Hst0.
  assert (H0 : forall X, (X < num_rr_nodes G)%nat ->
            draw_rr_node ds0 !!! X = type_colored G X default).
  { intros X HX. rewrite Hst0 by lia.
    rewrite bool_decide_eq_true_2 by (split; [exact Hshown | exact HX]).
    f_equal.
    apply (@replicate_lookup_total_default _ t_draw_rr_node_inhabited
             default _ X eq_refl). }
  assert (Hfixed : forall X, type_colored G X (type_colored G X default)
                             = type_colored G X default)
    by (intros X; apply type_colored_idempotent).
  assert (Hblack0 : forall inet, net_color ds0 !!! inet = BLACK)
    by (intros inet; rewrite Hcolor0; apply Hblack).
  apply draw_rr_after_click in Hdraw1
    as (Htoggle1 & Hshow1 & Hcolor1 & Hlen1 & Hst1);
    [| congruence | congruence | exact Hblack0 | lia | exact Hlt | exact Hloop].
  cbv zeta in Hst1.
  assert (Hnot_magenta : color (draw_rr_node ds0 !!! hit_node) <> MAGENTA).
  { rewrite H0 by exact Hlt. unfold type_colored, default. cbn.
    destruct (type (rr_node G hit_node)); discriminate. }
  rewrite (bool_decide_eq_false_2 _ Hnot_magenta) in Hst1. cbn [negb] in Hst1.
  assert (Hsel : draw_rr_node ds1 !!! hit_node
                 = {| color := MAGENTA; node_highlighted := true |}).
  { rewrite Hst1 by exact Hlt.
    rewrite !(bool_decide_eq_false_2 _ Hloop).
    rewrite toggle_hit_node_lookup by lia.
    by rewrite (bool_decide_eq_false_2 _ Hnot_magenta). }
  split; [exact Hsel |].
  assert (Hblack1 : forall inet, net_color ds1 !!! inet = BLACK)
    by (intros inet; rewrite Hcolor1; apply Hblack0).
  apply draw_rr_after_click in Hdraw2
    as (Htoggle2 & Hshow2 & Hcolor2 & Hlen2 & Hst2);
    [| congruence | congruence | exact Hblack1 | lia | exact Hlt | exact Hloop].
  cbv zeta in Hst2. rewrite Hsel in Hst2. cbn [color] in Hst2.
  rewrite (bool_decide_eq_true_2 (MAGENTA = MAGENTA)) in Hst2 by reflexivity.
  cbn [negb fanin_mark fanout_mark] in Hst1, Hst2.
  assert (Hnodes : draw_rr_node ds2 = draw_rr_node ds0).
  { apply list_eq. intros X.
    destruct (decide (X < num_rr_nodes G)%nat) as [HX | HX].
    - rewrite !list_lookup_lookup_total_lt by lia. f_equal.
      rewrite Hst2, H0 by exact HX. fold default.
      destruct (bool_decide (hit_node ∈ edges (rr_node G X))) eqn:Hback;
        [reflexivity |].
      destruct (bool_decide (X ∈ edges (rr_node G hit_node))) eqn:Hout;
        [reflexivity |].
      destruct (decide (X = hit_node)) as [-> | Hne].
      + rewrite toggle_hit_node_lookup by lia. rewrite Hsel. cbn [color].
        rewrite (bool_decide_eq_true_2 (MAGENTA = MAGENTA)) by reflexivity.
        unfold type_colored, default. cbn.
        by destruct (type (rr_node G hit_node)).
      + rewrite toggle_hit_node_lookup_ne by exact Hne.
        rewrite Hst1 by exact HX.
        rewrite Hback, Hout.
        rewrite toggle_hit_node_lookup_ne by exact Hne.
        rewrite H0 by exact HX. rewrite type_colored_idempotent.
        apply Hfixed.
    - rewrite !lookup_ge_None_2 by lia. reflexivity. }
  destruct ds2, ds0. cbn in *. congruence.
Qed.

End RrGraphViewFacts.

(** * Edges between the two axes *)

Section CrossAxisEdgesFacts.
Context {F : Type} `{FloatOps F}.
Variable G : t_rr_graph.
Variable draw_coords : t_draw_coords F.

(** X19: what the line between an x-directed and a y-directed wire depends
    on.  Its first point has the height of the x-directed wire and its
    second point the abscissa of the y-directed wire, both taken from the
    wires' own boxes; the two track numbers it is given matter only through
    the test for an odd track; and between two bidirectional wires neither
    the tracks nor the direction of the edge matter, so that the edge drawn
    from the x-directed wire and the one drawn back from the y-directed
    wire are the same line. *)
Theorem draw_chanx_to_chany_edge_tracks (chanx_node chany_node : nat) :
  (forall chanx_track chany_track edge_dir,
     let line := draw_chanx_to_chany_edge G draw_coords chanx_node chanx_track
                   chany_node chany_track edge_dir in
     snd (fst line) = bottom (draw_get_rr_chan_bbox G draw_coords chanx_node)
     /\ fst (snd line) = left (draw_get_rr_chan_bbox G draw_coords chany_node))
  /\
  (forall chanx_track chany_track chanx_track' chany_track' edge_dir,
     (Z.rem chanx_track 2 =? 1)%Z = (Z.rem chanx_track' 2 =? 1)%Z ->
     (Z.rem chany_track 2 =? 1)%Z = (Z.rem chany_track' 2 =? 1)%Z ->
     draw_chanx_to_chany_edge G draw_coords chanx_node chanx_track
       chany_node chany_track edge_dir
     = draw_chanx_to_chany_edge G draw_coords chanx_node chanx_track'
         chany_node chany_track' edge_dir)
  /\
  (get_direction (rr_node G chanx_node) = BI_DIRECTION ->
   get_direction (rr_node G chany_node) = BI_DIRECTION ->
   forall chanx_track chany_track edge_dir chanx_track' chany_track' edge_dir',
     draw_chanx_to_chany_edge G draw_coords chanx_node chanx_track
       chany_node chany_track edge_dir
     = draw_chanx_to_chany_edge G draw_coords chanx_node chanx_track'
         chany_node chany_track' edge_dir').
Proof.
  repeat split.
  - intros tx ty tx' ty' d Hx Hy. unfold draw_chanx_to_chany_edge.
    by rewrite Hx, Hy.
  - intros Hbx Hby tx ty d tx' ty' d'. unfold draw_chanx_to_chany_edge.
    rewrite !(bool_decide_eq_true_2 _ Hbx), !(bool_decide_eq_true_2 _ Hby).
    reflexivity.
Qed.

End CrossAxisEdgesFacts.

(** * The squares of a pin *)

Section PinSquaresFacts.
Context {F : Type} `{FloatOps F}.
Variable sides : t_side_codes.
Variable G : t_rr_graph.
Variable grid : Z -> Z -> t_grid_tile.
Variable draw_coords : t_draw_coords F.
Local Open Scope float_scope.

Hypothesis sides_enum : sides_are_0_to_3 sides.

(** The loop over the sides returns, and its rectangles are the squares of
    half-size [pin_size] around the drawn centres of the pin on the sides
    visited that carry it. *)
Lemma draw_rr_pin_sides_spec (inode : nat) (isides : list Z) :
  Forall (fun iside => (0 <= iside < 4)%Z) isides ->
  exists rects,
    draw_rr_pin_sides sides G grid draw_coords inode isides = Some rects /\
    forall x y,
      (exists rect, rect ∈ rects /\ in_rect x y rect)
      <->
      let n := rr_node G inode in
      let tile := grid (get_xlow n) (get_ylow n) in
      exists iside xcen ycen,
        iside ∈ isides /\
        pinloc (grid_type tile) (width_offset tile) (height_offset tile)
               iside (get_ptc_num n) <> 0%Z /\
        draw_get_rr_pin_coords sides grid draw_coords n iside
          (width_offset tile) (height_offset tile) = Some (xcen, ycen) /\
        (xcen - pin_size draw_coords <=? x) = true /\
        (x <=? xcen + pin_size draw_coords) = true /\
        (ycen - pin_size draw_coords <=? y) = true /\
        (y <=? ycen + pin_size draw_coords) = true.
Proof.
  induction 1 as [| iside rest Hi Hrest IH].
  - exists []. split; [reflexivity |]. intros x y. cbv zeta. split.
    + intros (rect & Hin & _). by apply elem_of_nil in Hin.
    + intros (i & ? & ? & Hin & _). by apply elem_of_nil in Hin.
  - destruct IH as (rects & Hrects & Hiff). cbn [draw_rr_pin_sides].
    cbv zeta in *.
    set (n := rr_node G inode) in *.
    set (tile := grid (get_xlow n) (get_ylow n)) in *.
    destruct (Z.eqb_spec
                (pinloc (grid_type tile) (width_offset tile)
                   (height_offset tile) iside (get_ptc_num n)) 0) as [Hz | Hnz];
      cbn [negb].
    + exists rects. split; [exact Hrects |]. intros x y. rewrite Hiff. split.
      * intros (i & xc & yc & Hin & Hrestc). exists i, xc, yc.
        split; [apply elem_of_cons; by right | exact Hrestc].
      * intros (i & xc & yc & Hin & Hp & Hrestc).
        apply elem_of_cons in Hin as [-> | Hin]; [contradiction |].
        exists i, xc, yc. auto.
    + destruct (draw_get_rr_pin_coords_defined sides grid draw_coords
                  sides_enum n iside (width_offset tile)
                  (height_offset tile) Hi) as [[xcen ycen] Hc].
      rewrite Hc, Hrects. eexists. split; [reflexivity |].
      intros x y. split.
      * intros (rect & Hin & Hrect).
        apply elem_of_cons in Hin as [-> | Hin].
        -- exists iside, xcen, ycen.
           split; [apply elem_of_cons; by left |]. auto.
        -- destruct (proj1 (Hiff x y)) as (i & xc & yc & Hi' & Hrestc);
             [by exists rect |].
           exists i, xc, yc.
           split; [apply elem_of_cons; by right | exact Hrestc].
      * intros (i & xc & yc & Hin & Hp & Hco & Hsq).
        apply elem_of_cons in Hin as [-> | Hin].
        -- rewrite Hc in Hco. injection Hco as <- <-.
           eexists. split; [apply elem_of_cons; by left | exact Hsq].
        -- destruct (proj2 (Hiff x y)) as (rect & Hrin & Hrect);
             [exists i, xc, yc; auto |].
           exists rect. split; [apply elem_of_cons; by right | exact Hrect].
Qed.

(** X20: a pin is drawn where it can be clicked.  When the view is zoomed
    in far enough for pins to be drawn, [draw_rr_pin] returns and the
    squares it fills are exactly the region in which the hit test accepts a
    click on the pin: a point lies in one of the squares, border included,
    if and only if it lies in the pin's test region.  When the view is not
    zoomed in that far, nothing is drawn for the pin. *)
Theorem draw_rr_pin_squares (inode : nat) :
  draw_rr_pin sides G grid draw_coords false inode = Some [] /\
  exists rects,
    draw_rr_pin sides G grid draw_coords true inode = Some rects /\
    forall x y,
      (exists rect, rect ∈ rects /\ in_rect x y rect)
      <-> in_pin_region sides G grid draw_coords x y inode.
Proof.
  split; [reflexivity |]. unfold draw_rr_pin. cbn [negb].
  destruct (draw_rr_pin_sides_spec inode [0; 1; 2; 3]%Z)
    as (rects & Hrects & Hiff).
  { repeat constructor; lia. }
  exists rects. split; [exact Hrects |]. intros x y. rewrite Hiff.
  unfold in_pin_region. cbv zeta. split.
  - intros (i & xc & yc & Hin & Hrest). exists i, xc, yc.
    split; [| exact Hrest].
    repeat (apply elem_of_cons in Hin as [-> | Hin]; [lia |]).
    inversion Hin.
  - intros (i & xc & yc & Hin & Hrest). exists i, xc, yc.
    split; [| exact Hrest].
    assert (i = 0 \/ i = 1 \/ i = 2 \/ i = 3)%Z as [-> | [-> | [-> | ->]]]
      by lia; repeat constructor.
Qed.

End PinSquaresFacts.

(** * The critical-path button *)

Lemma toggle_crit_path_placement (show_crit_path show_crit_path' : e_draw_crit_path) :
  toggle_crit_path PLACEMENT show_crit_path = Some show_crit_path' ->
  routed_crit_path show_crit_path' = false.
Proof. destruct show_crit_path; intros [= <-]; reflexivity. Qed.

(** X21: the cycle of the critical-path button.  On a routing the button
    steps through the five modes and is back at the mode it started from
    after five presses and not before; on a placement it never reaches a
    mode that draws the routed path, drops such a mode on the first press,
    and cycles through the other three; with no picture on screen the
    assertion fails. *)
Theorem toggle_crit_path_cycle (show_crit_path : e_draw_crit_path) :
  toggle_crit_path_times 5 ROUTING show_crit_path = Some show_crit_path /\
  (forall n, (0 < n < 5)%nat ->
     toggle_crit_path_times n ROUTING show_crit_path <> Some show_crit_path) /\
  (forall n show_crit_path',
     toggle_crit_path_times (S n) PLACEMENT show_crit_path
       = Some show_crit_path' ->
     routed_crit_path show_crit_path' = false) /\
  (routed_crit_path show_crit_path = true ->
   toggle_crit_path PLACEMENT show_crit_path = Some DRAW_NO_CRIT_PATH) /\
  (routed_crit_path show_crit_path = false ->
   toggle_crit_path_times 3 PLACEMENT show_crit_path = Some show_crit_path) /\
  toggle_crit_path NO_PICTURE show_crit_path = None.
Proof.
  split; [by destruct show_crit_path |]. split.
  { intros n Hn.
    assert (n = 1 \/ n = 2 \/ n = 3 \/ n = 4)%nat
      as [-> | [-> | [-> | ->]]] by lia;
      destruct show_crit_path; discriminate. }
  split.
  { intros n. revert show_crit_path.
    induction n as [| n IH]; intros s s' Htimes.
    - cbn in Htimes. destruct s; injection Htimes as <-; reflexivity.
    - cbn [toggle_crit_path_times] in Htimes.
      destruct (toggle_crit_path PLACEMENT s) as [s1 |] eqn:Hone;
        [| discriminate Htimes].
      by apply (IH s1). }
  split; [by destruct show_crit_path |].
  split; [by destruct show_crit_path | reflexivity].
Qed.

(** * A highlighted net in the view that shows the nets *)

Lemma elem_of_concat {A : Type} (x : A) (ls : list (list A)) :
  x ∈ concat ls <-> exists l, x ∈ l /\ l ∈ ls.
Proof.
  induction ls as [| l0 ls IH]; cbn [concat].
  - split; [intros Hx; by apply elem_of_nil in Hx |].
    intros (l & _ & Hl). by apply elem_of_nil in Hl.
  - rewrite elem_of_app, IH. split.
    + intros [Hx | (l & Hx & Hl)].
      * exists l0. split; [exact Hx | apply elem_of_cons; by left].
      * exists l. split; [exact Hx | apply elem_of_cons; by right].
    + intros (l & Hx & Hl). apply elem_of_cons in Hl as [-> | Hl];
        [by left | right; by exists l].
Qed.

Section HighlightedNetFacts.
Variable colors : t_highlight_colors.
Variable G : t_rr_graph.

(** The loop of [drawroute] hands over nothing but entries of the vector
    it starts with and of the traceback. *)
Lemma drawroute_loop_calls_subset (net_color : list t_color) (inet n : nat) :
  forall next cur st calls last st',
    (length next <= n)%nat ->
    drawroute_loop colors G net_color inet next cur st
      = Some (calls, last, st') ->
    forall x, x ∈ concat calls -> x ∈ cur ++ next.
Proof.
  induction n as [| n IH]; intros next cur st calls last st' Hlen Hloop;
    destruct next as [| inode next]; try discriminate Hloop;
    [cbn in Hlen; lia |].
  cbn [drawroute_loop] in Hloop. cbn [length] in Hlen.
  destruct (bool_decide (type (rr_node G inode) = SINK)).
  - destruct next as [| inode' next'].
    + injection Hloop as <- <- <-. intros x Hx. cbn in Hx.
      by rewrite app_nil_r in Hx.
    + destruct (drawroute_loop colors G net_color inet next' [inode'] _)
        as [[[calls2 last2] st2] |] eqn:Hrec; [| discriminate Hloop].
      injection Hloop as <- <- <-. intros x Hx. cbn [concat] in Hx.
      assert (Hlen' : (length next' <= n)%nat) by (cbn [length] in Hlen; lia).
      apply elem_of_app in Hx as [Hx | Hx].
      * apply elem_of_app in Hx as [Hx | Hx]; apply elem_of_app;
          [by left | right].
        apply list_elem_of_singleton in Hx as ->. apply elem_of_cons. by left.
      * apply (IH _ _ _ _ _ _ Hlen' Hrec) in Hx.
        apply elem_of_app. right. apply elem_of_cons. by right.
  - assert (Hlen' : (length next <= n)%nat) by lia.
    intros x Hx. apply (IH _ _ _ _ _ _ Hlen' Hloop) in Hx.
    by rewrite <- app_assoc in Hx.
Qed.

(** A node that is not on the traceback of a net is left alone when the
    net is drawn. *)
Lemma drawroute_net_off_trace
    (net_color : list t_color) (inet : nat) (trace : list nat)
    (st : list t_draw_rr_node) (calls : list (list nat))
    (st' : list t_draw_rr_node) (M : nat) :
  drawroute_net colors G net_color inet trace st = Some (calls, st') ->
  M ∉ trace -> (M < length st)%nat -> st' !!! M = st !!! M.
Proof.
  intros Hnet Hoff HM.
  destruct (drawroute_net_lookup _ _ _ _ _ _ _ _ Hnet) as [_ Hst].
  rewrite (Hst M HM). rewrite bool_decide_eq_false_2; [reflexivity |].
  intros Hin. apply Hoff. clear Hst.
  unfold drawroute_net in Hnet. destruct trace as [| inode next].
  { injection Hnet as <- <-. by apply elem_of_nil in Hin. }
  destruct (drawroute_loop colors G net_color inet next [inode] st)
    as [[[calls1 last] st1] |] eqn:Hloop; [| discriminate Hnet].
  injection Hnet as <- <-.
  destruct (drawroute_loop_paints colors G net_color inet (length next)
              _ _ _ _ _ _ (le_n _) Hloop) as (-> & _).
  apply (drawroute_loop_calls_subset _ _ (length next) _ _ _ _ _ _
           (le_n _) Hloop).
  apply elem_of_concat in Hin as (v & HMv & Hv).
  apply list_elem_of_fmap in Hv as (w & -> & Hw).
  apply elem_of_app in Hw as [Hw | Hw].
  - apply elem_of_concat. exists w. split; [| exact Hw].
    destruct w as [| a w]; [by apply elem_of_nil in HMv |].
    apply elem_of_cons. by right.
  - apply list_elem_of_singleton in Hw as ->. by apply elem_of_nil in HMv.
Qed.

Lemma drawroute_nets_off_trace
    (draw_net_type : e_draw_net_type) (is_global : list bool)
    (trace_head : list (list nat)) (net_color : list t_color) (M : nat)
    (inets : list nat) :
  (forall inet, inet ∈ inets -> M ∉ trace_head !!! inet) ->
  forall st calls st',
    drawroute_nets colors G draw_net_type is_global trace_head net_color
      inets st = Some (calls, st') ->
    (M < length st)%nat -> st' !!! M = st !!! M.
Proof.
  induction inets as [| inet inets IH]; intros Hoff st calls st' Hnets HM;
    cbn [drawroute_nets] in Hnets.
  - by injection Hnets as <- <-.
  - assert (Hrest : forall i, i ∈ inets -> M ∉ trace_head !!! i)
      by (intros i Hi; apply Hoff, elem_of_cons; by right).
    destruct (is_global !!! inet : bool); [by apply (IH Hrest _ _ _ Hnets) |].
    destruct (bool_decide (draw_net_type = HIGHLIGHTED)
              && bool_decide (net_color !!! inet = BLACK));
      [by apply (IH Hrest _ _ _ Hnets) |].
    destruct (drawroute_net colors G net_color inet (trace_head !!! inet) st)
      as [[calls1 st1] |] eqn:Hnet; [| discriminate Hnets].
    destruct (drawroute_nets colors G draw_net_type is_global trace_head
                net_color inets st1)
      as [[calls2 st2] |] eqn:Hmore; [| discriminate Hnets].
    injection Hnets as <- <-.
    destruct (drawroute_net_lookup _ _ _ _ _ _ _ _ Hnet) as [Hlen1 _].
    rewrite (IH Hrest _ _ _ Hmore) by lia.
    apply (drawroute_net_off_trace _ _ _ _ _ _ _ Hnet); [| exact HM].
    apply Hoff, elem_of_cons. by left.
Qed.

(** In vectors that end at their only sink, the entry that follows an
    entry other than a sink is not the first of its vector. *)
Lemma entry_after_non_sink (calls : list (list nat)) :
  Forall (ends_at_sink G) calls ->
  forall k P M,
    concat calls !! k = Some P ->
    type (rr_node G P) <> SINK ->
    concat calls !! S k = Some M ->
    M ∈ concat (tail <$> calls).
Proof.
  induction 1 as [| v calls (body & sink & -> & Hsink & Hbody) Hcalls IH];
    intros k P M HP HPtype HM; [discriminate HP |].
  cbn [concat fmap list_fmap] in *.
  apply elem_of_app.
  destruct (decide (k < length body)%nat) as [Hk | Hk].
  - left.
    rewrite lookup_app_l in HM by (rewrite length_app; cbn; lia).
    destruct body as [| b body]; [cbn in Hk; lia |].
    cbn [app tail]. cbn in HM. by apply list_elem_of_lookup_2 in HM.
  - destruct (decide (k = length body)) as [-> | Hne].
    + rewrite lookup_app_l in HP by (rewrite length_app; cbn; lia).
      rewrite lookup_app_r in HP by lia.
      rewrite Nat.sub_diag in HP. injection HP as <-. contradiction.
    + right.
      rewrite lookup_app_r in HP by (rewrite length_app; cbn; lia).
      rewrite lookup_app_r in HM by (rewrite length_app; cbn; lia).
      rewrite length_app in HP, HM. cbn [length] in HP, HM.
      apply (IH (k - (length body + 1))%nat P M HP HPtype).
      replace (S (k - (length body + 1)))%nat
        with (S k - (length body + 1))%nat by lia.
      exact HM.
Qed.

(** The state of an entry of a well-formed traceback that follows an entry
    other than a sink, once the net has been drawn. *)
Lemma drawroute_net_entry_painted
    (net_color : list t_color) (inet : nat) (trace : list nat)
    (st : list t_draw_rr_node) (calls : list (list nat))
    (st' : list t_draw_rr_node) (k P M : nat) :
  drawroute_net colors G net_color inet trace st = Some (calls, st') ->
  well_formed_trace G trace ->
  trace !! k = Some P -> type (rr_node G P) <> SINK ->
  trace !! S k = Some M -> (M < length st)%nat ->
  draw_if_net_highlighted colors net_color inet = true ->
  st' !!! M = {| color := net_color !!! inet; node_highlighted := true |}.
Proof.
  intros Hnet [Hne Hbr] HP HPtype HM HMlt Hhigh.
  destruct (drawroute_net_lookup _ _ _ _ _ _ _ _ Hnet) as [_ Hst].
  rewrite (Hst M HMlt), Hhigh. rewrite bool_decide_eq_true_2; [reflexivity |].
  clear Hst. unfold drawroute_net in Hnet.
  destruct trace as [| inode next]; [done |].
  cbn [trace_branches] in Hbr.
  destruct (bool_decide_reflect (type (rr_node G inode) = SINK)) as [Hs | Hs];
    [by destruct Hbr |].
  destruct (drawroute_loop_spec colors G net_color inet (length next) next
              [inode] st)
    as (calls1 & st1 & Hloop & _ & Hall & Hcat);
    [lia | exact Hbr | by constructor |].
  rewrite Hloop in Hnet. injection Hnet as <- <-.
  rewrite fmap_app, concat_app. apply elem_of_app. left.
  apply (entry_after_non_sink calls1 Hall k P M); by rewrite ?Hcat.
Qed.

(** The same after all the nets have been drawn, when no other net runs
    through the node. *)
Lemma drawroute_nets_entry_painted
    (draw_net_type : e_draw_net_type) (is_global : list bool)
    (trace_head : list (list nat)) (net_color : list t_color)
    (inet k P M : nat) (inets : list nat) :
  NoDup inets -> inet ∈ inets ->
  (forall inet', inet' ∈ inets -> inet' <> inet -> M ∉ trace_head !!! inet') ->
  is_global !!! inet = false ->
  draw_if_net_highlighted colors net_color inet = true ->
  net_color !!! inet <> BLACK ->
  well_formed_trace G (trace_head !!! inet) ->
  (trace_head !!! inet) !! k = Some P -> type (rr_node G P) <> SINK ->
  (trace_head !!! inet) !! S k = Some M ->
  forall st calls st',
    drawroute_nets colors G draw_net_type is_global trace_head net_color
      inets st = Some (calls, st') ->
    (M < length st)%nat ->
    st' !!! M = {| color := net_color !!! inet; node_highlighted := true |}.
Proof.
  intros Hnodup Hin Hothers Hglobal Hhigh Hnb Hwf HP HPtype HM.
  induction Hnodup as [| i inets Hi Hnodup IH];
    intros st calls st' Hnets HMlt; [by apply elem_of_nil in Hin |].
  cbn [drawroute_nets] in Hnets.
  destruct (decide (i = inet)) as [-> | Hne].
  - rewrite Hglobal in Hnets.
    rewrite (bool_decide_eq_false_2 _ Hnb), andb_false_r in Hnets.
    destruct (drawroute_net colors G net_color inet (trace_head !!! inet) st)
      as [[calls1 st1] |] eqn:Hnet; [| discriminate Hnets].
    destruct (drawroute_nets colors G draw_net_type is_global trace_head
                net_color inets st1)
      as [[calls2 st2] |] eqn:Hmore; [| discriminate Hnets].
    injection Hnets as <- <-.
    destruct (drawroute_net_lookup _ _ _ _ _ _ _ _ Hnet) as [Hlen1 _].
    rewrite (drawroute_nets_off_trace draw_net_type is_global trace_head
               net_color M inets) with (st := st1) (calls := calls2);
      [| | exact Hmore | lia].
    + by apply (drawroute_net_entry_painted _ _ _ _ _ _ k P M Hnet).
    + intros i Hi'. apply Hothers; [apply elem_of_cons; by right |].
      intros ->. contradiction.
  - assert (Hin' : inet ∈ inets)
      by (apply elem_of_cons in Hin as [-> | Hin]; [contradiction | exact Hin]).
    assert (Hothers' : forall inet', inet' ∈ inets -> inet' <> inet ->
                         M ∉ trace_head !!! inet')
      by (intros i' Hi' Hne'; apply Hothers;
          [apply elem_of_cons; by right | exact Hne']).
    destruct (is_global !!! i : bool);
      [by apply (IH Hin' Hothers' _ _ _ Hnets) |].
    destruct (bool_decide (draw_net_type = HIGHLIGHTED)
              && bool_decide (net_color !!! i = BLACK));
      [by apply (IH Hin' Hothers' _ _ _ Hnets) |].
    destruct (drawroute_net colors G net_color i (trace_head !!! i) st)
      as [[calls1 st1] |] eqn:Hnet; [| discriminate Hnets].
    destruct (drawroute_nets colors G draw_net_type is_global trace_head
                net_color inets st1)
      as [[calls2 st2] |] eqn:Hmore; [| discriminate Hnets].
    injection Hnets as <- <-.
    destruct (drawroute_net_lookup _ _ _ _ _ _ _ _ Hnet) as [Hlen1 _].
    apply (IH Hin' Hothers' _ _ _ Hmore). lia.
Qed.

(** X22: a highlighted net is switched off by a click on any of its
    painted nodes.  In the view that shows the nets and not the rr graph, a
    click selects a node of a net, and the nets are drawn again.  Then the
    net is MAGENTA, and so is every entry of its traceback that follows an
    entry other than a sink and lies on no other net: [drawroute] has
    given it the colour of the net.  A click on such an entry with the
    control key held therefore deselects it -- it turns WHITE -- and the
    net goes back to BLACK. *)
Theorem highlighted_net_deselected_by_any_entry
    (is_global : list bool) (trace_head : list (list nat)) (ds : t_draw_state)
    (hit_node inet k P M : nat)
    (calls : list (list nat)) (ds2 : t_draw_state) :
  draw_rr_toggle ds = DRAW_NO_RR ->
  show_nets ds <> 0%Z ->
  (hit_node < length (draw_rr_node ds))%nat ->
  (inet < length is_global)%nat ->
  (inet < length trace_head)%nat ->
  (inet < length (net_color ds))%nat ->
  is_global !!! inet = false ->
  hit_node ∈ trace_head !!! inet ->
  well_formed_trace G (trace_head !!! inet) ->
  (trace_head !!! inet) !! k = Some P ->
  type (rr_node G P) <> SINK ->
  (trace_head !!! inet) !! S k = Some M ->
  (M < length (draw_rr_node ds))%nat ->
  (forall inet', (inet' < length is_global)%nat -> inet' <> inet ->
     M ∉ trace_head !!! inet') ->
  let ds1 := highlight_hit_node colors G trace_head hit_node (deselect_all ds) in
  drawroute colors G ALL_NETS is_global trace_head ds1 = Some (calls, ds2) ->
  let ds3 := highlight_hit_node colors G trace_head M ds2 in
  net_color ds2 !!! inet = MAGENTA /\
  draw_rr_node ds2 !!! M = {| color := MAGENTA; node_highlighted := true |} /\
  draw_rr_node ds3 !!! M = {| color := WHITE; node_highlighted := false |} /\
  net_color ds3 !!! inet = BLACK.
Proof.
  intros Hno Hnets Hhit Hinet Hinet' Hinet'' Hglobal Hon Hwf HP HPtype HM HMlt
    Hothers ds1 Hdraw ds3.
  destruct (highlight_hit_node_deselected_nets_view colors G trace_head ds
              hit_node Hno Hnets Hhit) as (Hst1 & Hnclen & Hnc1).
  fold ds1 in Hst1, Hnclen, Hnc1.
  assert (Htoggle : draw_rr_toggle ds1 = DRAW_NO_RR) by exact Hno.
  assert (Hshow : (show_nets ds1 =? 0)%Z = false)
    by (apply Z.eqb_neq; exact Hnets).
  clearbody ds1.
  assert (Hmag : net_color ds1 !!! inet = MAGENTA).
  { rewrite Hnc1 by exact Hinet''. by rewrite bool_decide_eq_true_2. }
  assert (Hhigh : draw_if_net_highlighted colors (net_color ds1) inet = true).
  { unfold draw_if_net_highlighted.
    by rewrite (bool_decide_eq_true_2 _ Hmag). }
  unfold drawroute in Hdraw.
  destruct (drawroute_nets colors G ALL_NETS is_global trace_head
              (net_color ds1) (seq 0 (length is_global)) (draw_rr_node ds1))
    as [[calls1 st2] |] eqn:Hloop; [| discriminate Hdraw].
  injection Hdraw as <- <-.
  assert (Hlen1 : length (draw_rr_node ds1) = length (draw_rr_node ds))
    by (rewrite Hst1, length_insert; apply length_replicate).
  assert (Hpainted : st2 !!! M
                     = {| color := MAGENTA; node_highlighted := true |}).
  { rewrite <- Hmag.
    apply (drawroute_nets_entry_painted ALL_NETS is_global trace_head
             (net_color ds1) inet k P M (seq 0 (length is_global)))
      with (st := draw_rr_node ds1) (calls := calls1);
      try done.
    - apply NoDup_seq.
    - apply elem_of_seq. lia.
    - intros i Hi Hne. apply Hothers; [| exact Hne].
      apply elem_of_seq in Hi. lia.
    - rewrite Hmag. discriminate.
    - lia. }
  destruct (drawroute_nets_keeps_highlights _ _ _ _ _ _ _ _ _ _ Hloop)
    as [Hlen2 _].
  split; [exact Hmag |]. split; [exact Hpainted |].
  unfold ds3, highlight_hit_node.
  cbn [draw_rr_toggle show_nets draw_rr_node net_color].
  rewrite (bool_decide_eq_true_2 _ Htoggle), Hshow. cbn [negb].
  assert (Hwhite : toggle_hit_node M st2 !!! M
                   = {| color := WHITE; node_highlighted := false |}).
  { rewrite toggle_hit_node_lookup by lia. rewrite Hpainted. cbn [color].
    by rewrite bool_decide_eq_true_2. }
  split; [exact Hwhite |].
  unfold highlight_nets.
  rewrite (highlight_nets_loop_lookup (toggle_hit_node M st2) trace_head inet)
    by (apply NoDup_seq || lia).
  rewrite bool_decide_eq_true_2 by (apply elem_of_seq; lia).
  rewrite highlight_net_trace_lookup by lia.
  assert (Hex : existsb
            (fun index =>
               bool_decide (color (toggle_hit_node M st2 !!! index) = WHITE))
            (trace_head !!! inet) = true).
  { apply existsb_exists. exists M. split.
    - apply list_elem_of_In. by apply list_elem_of_lookup_2 in HM.
    - apply bool_decide_eq_true. by rewrite Hwhite. }
  by rewrite Hex.
Qed.

End HighlightedNetFacts.

(** * A click without the control key, and the redraw that follows *)

Section PlainClickFacts.
Context {F : Type} `{FloatOps F}.
Variable sides : t_side_codes.
Variable colors : t_highlight_colors.
Variable G : t_rr_graph.
Variable grid : Z -> Z -> t_grid_tile.
Variable draw_coords : t_draw_coords F.
Variable trace_head : list (list nat).

Local Abbreviation default_node :=
  {| color := DEFAULT_RR_NODE_COLOR; node_highlighted := false |}.
Local Abbreviation selected_node :=
  {| color := MAGENTA; node_highlighted := true |}.

(** X9: a click without the control key, on a spot where no block lies, in
    the view that shows the nets and not the rr graph.  Whatever was
    selected before, [highlight_blocks] reaches [drawscreen] with the node
    hit as the one selected node, every other node at the default and not
    highlighted, and with a net MAGENTA exactly when its traceback holds
    the node hit, every other net being BLACK.  The redraw of the routing
    that follows, through [drawroute], changes the colour of no net, leaves
    the node hit highlighted, and leaves every node that lies on no
    traceback as the click has left it; the nodes on the tracebacks are
    painted by it. *)
Theorem highlight_blocks_plain_click_nets_view
    (abs_x abs_y : F) (ds : t_draw_state) (hit_node : nat) :
  draw_rr_toggle ds = DRAW_NO_RR ->
  show_nets ds <> 0%Z ->
  draw_check_rr_node_hit sides G grid draw_coords abs_x abs_y
    = Some (Z.of_nat hit_node) ->
  (hit_node < length (draw_rr_node ds))%nat ->
  exists ds',
    highlight_blocks sides colors G grid draw_coords trace_head
      abs_x abs_y false None ds = Some (Click_on_routing ds') /\
    draw_rr_node ds'
    = <[hit_node := selected_node]>
        (replicate (length (draw_rr_node ds)) default_node) /\
    length (net_color ds') = length (net_color ds) /\
    (forall inet, (inet < length (net_color ds))%nat ->
       net_color ds' !!! inet
       = if bool_decide (hit_node ∈ trace_head !!! inet)
         then MAGENTA else BLACK) /\
    forall draw_net_type is_global calls ds'',
      drawroute colors G draw_net_type is_global trace_head ds'
        = Some (calls, ds'') ->
      net_color ds'' = net_color ds' /\
      length (draw_rr_node ds'') = length (draw_rr_node ds) /\
      node_highlighted (draw_rr_node ds'' !!! hit_node) = true /\
      forall X, (X < length (draw_rr_node ds))%nat ->
        (forall inet, (inet < length is_global)%nat ->
           X ∉ trace_head !!! inet) ->
        draw_rr_node ds'' !!! X = draw_rr_node ds' !!! X.
Proof.
  intros Hno Hnets Hhit Hlt. unfold highlight_blocks. cbn [negb].
  rewrite (highlight_rr_nodes_on_hit sides colors G grid draw_coords
             trace_head abs_x abs_y (deselect_all ds) hit_node);
    [| by right | exact Hhit].
  eexists. split; [reflexivity |].
  destruct (highlight_hit_node_deselected_nets_view colors G trace_head ds
              hit_node Hno Hnets Hlt) as (Hst & Hnclen & Hnc).
  set (ds' := highlight_hit_node colors G trace_head hit_node
                (deselect_all ds)) in *.
  split; [exact Hst |]. split; [exact Hnclen |]. split; [exact Hnc |].
  intros draw_net_type is_global calls ds'' Hdraw.
  assert (Hlen1 : length (draw_rr_node ds') = length (draw_rr_node ds))
    by (rewrite Hst, length_insert; apply length_replicate).
  clearbody ds'. unfold drawroute in Hdraw.
  destruct (drawroute_nets colors G draw_net_type is_global trace_head
              (net_color ds') (seq 0 (length is_global)) (draw_rr_node ds'))
    as [[calls1 st2] |] eqn:Hloop; [| discriminate Hdraw].
  injection Hdraw as <- <-. cbn [net_color draw_rr_node].
  destruct (drawroute_nets_keeps_highlights _ _ _ _ _ _ _ _ _ _ Hloop)
    as [Hlen2 Hflags].
  split; [reflexivity |]. split; [lia |]. split.
  - apply Hflags; [lia |]. rewrite Hst.
    by rewrite list_lookup_total_insert_eq by (by rewrite length_replicate).
  - intros X HX Hoff.
    apply (drawroute_nets_off_trace colors G draw_net_type is_global
             trace_head (net_color ds') X (seq 0 (length is_global)))
      with (calls := calls1); [| exact Hloop | lia].
    intros inet Hin. apply Hoff. apply elem_of_seq in Hin. lia.
Qed.

(** X10: a click without the control key, on a spot where no block lies,
    in a view that shows the rr graph, on a node without an edge to
    itself.  Whatever was selected before, [highlight_blocks] reaches
    [drawscreen] with the node hit selected, every node with an edge to it
    BLUE and highlighted, every other target of one of its edges at the
    fan-out colour and highlighted, and every other node at the default
    colour and not highlighted.  When the nets are not shown, the redraw
    that follows, through [draw_rr], keeps these highlighted nodes as they
    are and gives every other node the colour of its type: the default
    for a wire, PINK for an output pin, LIGHTSKYBLUE for an input pin. *)
Theorem highlight_blocks_plain_click_rr_view
    (abs_x abs_y : F) (ds : t_draw_state) (hit_node : nat) :
  draw_rr_toggle ds <> DRAW_NO_RR ->
  draw_check_rr_node_hit sides G grid draw_coords abs_x abs_y
    = Some (Z.of_nat hit_node) ->
  (hit_node < length (draw_rr_node ds))%nat ->
  length (draw_rr_node ds) = num_rr_nodes G ->
  hit_node ∉ edges (rr_node G hit_node) ->
  exists ds',
    highlight_blocks sides colors G grid draw_coords trace_head
      abs_x abs_y false None ds = Some (Click_on_routing ds') /\
    (forall X, (X < num_rr_nodes G)%nat ->
       draw_rr_node ds' !!! X
       = if bool_decide (hit_node ∈ edges (rr_node G X))
         then {| color := BLUE; node_highlighted := true |}
         else if bool_decide (X ∈ edges (rr_node G hit_node))
         then {| color := DRIVES_IT_COLOR colors; node_highlighted := true |}
         else if bool_decide (X = hit_node) then selected_node
         else default_node) /\
    (show_nets ds = 0%Z ->
     forall is_global drawn calls ds'',
       draw_rr colors G is_global trace_head ds' = Some (drawn, calls, ds'') ->
       forall X, (X < num_rr_nodes G)%nat ->
         draw_rr_node ds'' !!! X
         = if bool_decide (hit_node ∈ edges (rr_node G X))
           then {| color := BLUE; node_highlighted := true |}
           else if bool_decide (X ∈ edges (rr_node G hit_node))
           then {| color := DRIVES_IT_COLOR colors; node_highlighted := true |}
           else if bool_decide (X = hit_node) then selected_node
           else type_colored G X default_node).
Proof.
  intros Hshown Hhit Hlt Hlen Hloop. unfold highlight_blocks. cbn [negb].
  rewrite (highlight_rr_nodes_on_hit sides colors G grid draw_coords
             trace_head abs_x abs_y (deselect_all ds) hit_node);
    [| by left | exact Hhit].
  eexists. split; [reflexivity |].
  set (ds' := highlight_hit_node colors G trace_head hit_node
                (deselect_all ds)).
  assert (Hclick : forall X, (X < num_rr_nodes G)%nat ->
            draw_rr_node ds' !!! X
            = if bool_decide (hit_node ∈ edges (rr_node G X))
              then {| color := BLUE; node_highlighted := true |}
              else if bool_decide (X ∈ edges (rr_node G hit_node))
              then {| color := DRIVES_IT_COLOR colors;
                      node_highlighted := true |}
              else if bool_decide (X = hit_node) then selected_node
              else default_node).
  { intros X HX. unfold ds'.
    rewrite highlight_hit_node_lookup;
      [| cbn; by rewrite length_replicate | exact Hloop].
    cbn [deselect_all draw_rr_toggle draw_rr_node].
    rewrite (bool_decide_eq_false_2 _ Hshown), length_replicate.
    rewrite (@replicate_lookup_total_default _ t_draw_rr_node_inhabited
               default_node _ hit_node eq_refl).
    cbn [color].
    rewrite (bool_decide_eq_false_2 (DEFAULT_RR_NODE_COLOR = MAGENTA))
      by discriminate.
    cbn [negb fanin_mark fanout_mark].
    rewrite (bool_decide_ext (_ /\ hit_node ∈ edges (rr_node G X) /\ _)
               (hit_node ∈ edges (rr_node G X))) by (intuition lia).
    rewrite (bool_decide_ext (X ∈ edges (rr_node G hit_node) /\ _)
               (X ∈ edges (rr_node G hit_node))) by (intuition lia).
    destruct (bool_decide (hit_node ∈ edges (rr_node G X))); [reflexivity |].
    destruct (bool_decide (X ∈ edges (rr_node G hit_node))); [reflexivity |].
    rewrite toggle_hit_node_deselected.
    destruct (bool_decide_reflect (X = hit_node)) as [-> | Hne].
    - by rewrite list_lookup_total_insert_eq by (by rewrite length_replicate).
    - rewrite list_lookup_total_insert_ne by done.
      apply (@replicate_lookup_total_default _ t_draw_rr_node_inhabited
               default_node _ X eq_refl). }
  split; [exact Hclick |].
  intros Hshow is_global drawn calls ds'' Hredraw X HX.
  assert (Hlen' : length (draw_rr_node ds') = num_rr_nodes G).
  { unfold ds'. rewrite highlight_hit_node_length. cbn [deselect_all draw_rr_node].
    by rewrite length_replicate. }
  assert (Hblack : forall inet, (inet < length is_global)%nat ->
            net_color ds' !!! inet = BLACK).
  { intros inet _. unfold ds', highlight_hit_node.
    cbn [deselect_all show_nets net_color]. rewrite Hshow. cbn [Z.eqb negb].
    apply (@replicate_lookup_total_default _ t_color_inhabited BLACK _ inet
             eq_refl). }
  destruct (draw_rr_colors_aux colors G is_global trace_head ds' drawn calls
              ds'' Hblack Hredraw) as (_ & _ & _ & _ & _ & Hst).
  rewrite Hst by lia.
  rewrite bool_decide_eq_true_2 by (split; [exact Hshown | exact HX]).
  rewrite (Hclick X HX). unfold type_colored.
  destruct (bool_decide (hit_node ∈ edges (rr_node G X))); [reflexivity |].
  destruct (bool_decide (X ∈ edges (rr_node G hit_node))); [reflexivity |].
  destruct (bool_decide (X = hit_node)); reflexivity.
Qed.

End PlainClickFacts.

(** * The new theorems at the example device *)

(** A vector that [draw_partial_route] takes -- output pin 1, wire 2, wire
    7 on the same channel segment, wire 2 again -- and one at which the
    assertion of [find_switch] fails: source 0 has no edge to sink 5. *)
Lemma draw_partial_route_returns_only_if_witness :
  (snd (draw_partial_route ex_graph DETAILED ex_draw_rr_node
          [1; 2; 7; 2]%nat) = true /\
   route_follows_edges ex_graph 1 [2; 7; 2]%nat /\
   wires_follow_wires_or_opins ex_graph 1 [2; 7; 2]%nat) /\
  (~ (route_follows_edges ex_graph 0 [5]%nat /\
      wires_follow_wires_or_opins ex_graph 0 [5]%nat) /\
   snd (draw_partial_route ex_graph DETAILED ex_draw_rr_node [0; 5]%nat)
   = false).
Proof.
  assert (Hnot : ~ (route_follows_edges ex_graph 0 [5]%nat /\
                    wires_follow_wires_or_opins ex_graph 0 [5]%nat)).
  { intros [[Hedge _] _]. simpl in Hedge.
    apply elem_of_cons in Hedge as [Hedge | Hedge]; [discriminate Hedge |].
    by apply elem_of_nil in Hedge. }
  split.
  - split; [reflexivity |].
    exact (proj1 (draw_partial_route_returns_only_if ex_graph DETAILED
                    ex_draw_rr_node 1%nat [2; 7; 2]%nat) eq_refl).
  - split; [exact Hnot |].
    exact (proj1 (proj2 (draw_partial_route_returns_only_if ex_graph DETAILED
                           ex_draw_rr_node 0%nat [5]%nat)) Hnot).
Defined.

(** The vector that visits wire 2 twice, in a global routing: at its
    second visit wire 2 is the third wire met at its grid location. *)
Lemma draw_partial_route_global_tracks_witness :
  exists step,
    draw_partial_route_steps ex_graph GLOBAL ex_draw_rr_node
      [1; 2; 7; 2]%nat !! 2%nat = Some step /\
    step_itrack step = Some 2%Z /\
    step_calls step
    = [Call_draw_rr_chanx 2 BLACK; Call_draw_chanx_to_chanx_edge 7 2 2 3] /\
    (type (rr_node ex_graph 2) = CHANX \/ type (rr_node ex_graph 2) = CHANY) /\
    2%Z = count_wires_at ex_graph (type (rr_node ex_graph 2))
            (get_xlow (rr_node ex_graph 2)) (get_ylow (rr_node ex_graph 2))
            (take 2 [2; 7; 2]%nat) /\
    forall call to_track,
      call ∈ step_calls step ->
      to_track_passed call = Some to_track ->
      to_track = 2%Z.
Proof.
  eexists. split; [reflexivity |]. split; [reflexivity |].
  split; [reflexivity |].
  exact (draw_partial_route_global_tracks ex_graph GLOBAL ex_draw_rr_node
           1%nat [2; 7; 2]%nat 2%nat 2%nat _ 2%Z
           eq_refl eq_refl eq_refl eq_refl).
Defined.

Lemma draw_partial_route_global_tracks_increase_witness :
  exists step1 step2,
    draw_partial_route_steps ex_graph GLOBAL ex_draw_rr_node
      [1; 2; 7; 2]%nat !! 0%nat = Some step1 /\
    draw_partial_route_steps ex_graph GLOBAL ex_draw_rr_node
      [1; 2; 7; 2]%nat !! 1%nat = Some step2 /\
    step_itrack step1 = Some 0%Z /\
    step_itrack step2 = Some 1%Z /\
    (0 < 1)%Z /\
    forall call1 call2 to_track1 to_track2,
      call1 ∈ step_calls step1 -> to_track_passed call1 = Some to_track1 ->
      call2 ∈ step_calls step2 -> to_track_passed call2 = Some to_track2 ->
      (to_track1 < to_track2)%Z.
Proof.
  eexists _, _. split; [reflexivity |]. split; [reflexivity |].
  split; [reflexivity |]. split; [reflexivity |].
  exact (draw_partial_route_global_tracks_increase ex_graph GLOBAL
           ex_draw_rr_node 1%nat [2; 7; 2]%nat 0%nat 1%nat 2%nat 7%nat
           _ _ 0%Z 1%Z eq_refl (le_n 1)
           eq_refl eq_refl eq_refl eq_refl eq_refl
           eq_refl eq_refl eq_refl eq_refl).
Defined.

(** The same vector in a detailed routing: wire 2 is drawn twice. *)
Lemma draw_partial_route_nodes_drawn_witness :
  snd (draw_partial_route ex_graph DETAILED ex_draw_rr_node
         [1; 2; 7; 2]%nat) = true /\
  omap node_drawn
    (fst (draw_partial_route ex_graph DETAILED ex_draw_rr_node
            [1; 2; 7; 2]%nat))
  = [(2%nat, BLACK); (7%nat, BLACK); (2%nat, BLACK)].
Proof.
  split; [reflexivity |].
  exact (draw_partial_route_nodes_drawn ex_graph DETAILED ex_draw_rr_node
           1%nat [2; 7; 2]%nat eq_refl).
Defined.

Lemma ex_wires_driven_by_wires_or_opins :
  wires_driven_by_wires_or_opins ex_graph.
Proof.
  intros from_node to_node Hin Hwire.
  do 8 (destruct from_node as [| from_node];
        [cbn in Hin |- *;
         repeat (apply elem_of_cons in Hin as [-> | Hin];
                 [cbn in Hwire |- *; intuition congruence |]);
         by apply elem_of_nil in Hin |]).
  cbn in Hin. destruct from_node; by apply elem_of_nil in Hin.
Defined.

Lemma ex_trace_follows_edges : trace_follows_edges ex_graph ex_trace.
Proof.
  cbn. repeat split;
    try (intros Hne; first [by destruct Hne | repeat constructor]).
Defined.

(** The two branches of the example net: the second starts at wire 2,
    which no edge of sink 5 leads to. *)
Lemma drawroute_net_routes_follow_edges_witness :
  wires_driven_by_wires_or_opins ex_graph /\
  well_formed_trace ex_graph ex_trace /\
  trace_follows_edges ex_graph ex_trace /\
  exists st',
    drawroute_net ex_colors ex_graph [BLACK] 0 ex_trace ex_draw_rr_node
      = Some ([[0; 1; 2; 3; 5]; [2; 4; 6]; []]%nat, st') /\
    concat [[0; 1; 2; 3; 5]; [2; 4; 6]; []]%nat = ex_trace /\
    Forall
      (fun rr_nodes_to_draw =>
         match rr_nodes_to_draw with
         | [] => True
         | first :: rest =>
             route_follows_edges ex_graph first rest /\
             wires_follow_wires_or_opins ex_graph first rest
         end)
      [[0; 1; 2; 3; 5]; [2; 4; 6]; []]%nat.
Proof.
  split; [exact ex_wires_driven_by_wires_or_opins |].
  split; [exact ex_trace_well_formed |].
  split; [exact ex_trace_follows_edges |].
  eexists. split; [reflexivity |].
  exact (drawroute_net_routes_follow_edges ex_colors ex_graph [BLACK] 0%nat
           ex_trace ex_draw_rr_node _ _ ex_wires_driven_by_wires_or_opins
           ex_trace_well_formed ex_trace_follows_edges eq_refl).
Defined.

Lemma ex_route_tree_in_range (x : nat) :
  rt_contains x ex_route_tree = true -> (x < length ex_draw_rr_node)%nat.
Proof.
  intros Hx. cbn in Hx |- *.
  repeat match type of Hx with
    | (_ || _) = true => apply orb_prop in Hx as [Hx | Hx]
    | bool_decide _ = true => apply bool_decide_eq_true in Hx; subst x; lia
    | false = true => discriminate Hx
    end.
Defined.

(** The connection from the source 0 to the sink 6 of the example net,
    coloured YELLOW. *)
Lemma draw_routed_timing_edge_connection_path_witness :
  let driver := {| net := 0; net_pin := 0 |} in
  let sink := {| net := 0; net_pin := 2 |} in
  exists path st',
    rt_path ex_route_tree (0%nat :: path) /\
    last (0%nat :: path) = Some 6%nat /\
    route_follows_edges ex_graph 0 path /\
    wires_follow_wires_or_opins ex_graph 0 path /\
    length st' = length ex_draw_rr_node /\
    (forall X, (X < length ex_draw_rr_node)%nat ->
       st' !!! X
       = if bool_decide (X ∈ 0%nat :: path)
         then {| color := YELLOW;
                 node_highlighted := node_highlighted (ex_draw_rr_node !!! X) |}
         else ex_draw_rr_node !!! X) /\
    draw_routed_timing_edge_connection ex_graph DETAILED
      ex_traceback_to_route_tree ex_net_rr_terminals driver sink YELLOW
      ex_draw_rr_node
    = Some (draw_partial_route ex_graph DETAILED st' (0%nat :: path), st') /\
    (snd (draw_partial_route ex_graph DETAILED st' (0%nat :: path)) = true ->
     omap node_drawn
       (fst (draw_partial_route ex_graph DETAILED st' (0%nat :: path)))
     = (fun inode => (inode, YELLOW))
         <$> filter (fun inode => type (rr_node ex_graph inode) <> SOURCE
                                  /\ type (rr_node ex_graph inode) <> SINK)
               path).
Proof.
  cbv zeta.
  exact (proj1 (draw_routed_timing_edge_connection_path ex_graph DETAILED
                  ex_traceback_to_route_tree ex_net_rr_terminals
                  {| net := 0; net_pin := 0 |} {| net := 0; net_pin := 2 |}
                  YELLOW ex_draw_rr_node eq_refl eq_refl eq_refl eq_refl
                  ex_wires_driven_by_wires_or_opins ex_route_tree_in_range)
           eq_refl).
Defined.

(** The example net, highlighted in MAGENTA, as [drawroute] paints it. *)
Lemma drawroute_net_paints_witness :
  exists calls st',
    drawroute_net ex_colors ex_graph [MAGENTA] 0 ex_trace ex_draw_rr_node
      = Some (calls, st') /\
    length st' = length ex_draw_rr_node /\
    forall X, (X < length ex_draw_rr_node)%nat ->
      st' !!! X
      = if bool_decide (X ∈ concat (tail <$> calls))
        then (if draw_if_net_highlighted ex_colors [MAGENTA] 0
              then {| color := [MAGENTA] !!! 0%nat; node_highlighted := true |}
              else {| color := DEFAULT_RR_NODE_COLOR;
                      node_highlighted :=
                        node_highlighted (ex_draw_rr_node !!! X) |})
        else ex_draw_rr_node !!! X.
Proof.
  eexists _, _. split; [reflexivity |].
  exact (drawroute_net_paints ex_colors ex_graph [MAGENTA] 0%nat ex_trace
           ex_draw_rr_node _ _ eq_refl).
Defined.

Lemma ex_nets_black (inet : nat) :
  (inet < length [false])%nat ->
  net_color ex_state_nets_only !!! inet = BLACK.
Proof. destruct inet; [reflexivity | cbn; lia]. Defined.

Lemma drawroute_frame_witness :
  (exists calls ds',
     drawroute ex_colors ex_graph ALL_NETS [false] [ex_trace]
       ex_state_nets_only = Some (calls, ds') /\
     draw_rr_toggle ds' = draw_rr_toggle ex_state_nets_only /\
     show_nets ds' = show_nets ex_state_nets_only /\
     net_color ds' = net_color ex_state_nets_only /\
     length (draw_rr_node ds') = length (draw_rr_node ex_state_nets_only) /\
     forall X, (X < length (draw_rr_node ex_state_nets_only))%nat ->
       node_highlighted (draw_rr_node ex_state_nets_only !!! X) = true ->
       node_highlighted (draw_rr_node ds' !!! X) = true) /\
  drawroute ex_colors ex_graph HIGHLIGHTED [false] [ex_trace]
    ex_state_nets_only = Some ([], ex_state_nets_only).
Proof.
  split.
  - eexists _, _. split; [reflexivity |].
    exact (proj1 (drawroute_frame ex_colors ex_graph ALL_NETS [false]
                    [ex_trace] ex_state_nets_only) _ _ eq_refl).
  - exact (proj2 (drawroute_frame ex_colors ex_graph HIGHLIGHTED [false]
                    [ex_trace] ex_state_nets_only) ex_nets_black).
Defined.

Lemma ex_click_at_wire_2 :
  draw_check_rr_node_hit ex_sides ex_graph ex_grid ex_coords 12%Q 17%Q
  = Some (Z.of_nat 2).
Proof. vm_compute. reflexivity. Defined.

Lemma ex_nets_shown : show_nets ex_state_nets_only <> 0%Z.
Proof. cbn. intros Heq. discriminate Heq. Defined.

(** The view that shows the nets as a click on wire 2 and the redraw have
    left it: the net and its nodes are MAGENTA. *)
Lemma ex_nets_view_shows_nets :
  show_nets (ex_redraw_nets (ex_click 2 ex_state_nets_only)) <> 0%Z.
Proof. vm_compute. intros Heq. discriminate Heq. Defined.

Lemma ex_nets_view_wire_2_in_range :
  (2 < length (draw_rr_node
                 (ex_redraw_nets (ex_click 2 ex_state_nets_only))))%nat.
Proof. vm_compute. lia. Defined.

(** A click at (12, 17), on wire 2 and on no block, in that state. *)
Lemma highlight_blocks_plain_click_nets_view_witness :
  let ds := ex_redraw_nets (ex_click 2 ex_state_nets_only) in
  exists ds',
    highlight_blocks ex_sides ex_colors ex_graph ex_grid ex_coords [ex_trace]
      12%Q 17%Q false None ds = Some (Click_on_routing ds') /\
    draw_rr_node ds'
    = <[2%nat := {| color := MAGENTA; node_highlighted := true |}]>
        (replicate (length (draw_rr_node ds))
           {| color := DEFAULT_RR_NODE_COLOR; node_highlighted := false |}) /\
    length (net_color ds') = length (net_color ds) /\
    (forall inet, (inet < length (net_color ds))%nat ->
       net_color ds' !!! inet
       = if bool_decide (2%nat ∈ [ex_trace] !!! inet)
         then MAGENTA else BLACK) /\
    forall draw_net_type is_global calls ds'',
      drawroute ex_colors ex_graph draw_net_type is_global [ex_trace] ds'
        = Some (calls, ds'') ->
      net_color ds'' = net_color ds' /\
      length (draw_rr_node ds'') = length (draw_rr_node ds) /\
      node_highlighted (draw_rr_node ds'' !!! 2%nat) = true /\
      forall X, (X < length (draw_rr_node ds))%nat ->
        (forall inet, (inet < length is_global)%nat ->
           X ∉ [ex_trace] !!! inet) ->
        draw_rr_node ds'' !!! X = draw_rr_node ds' !!! X.
Proof.
  cbv zeta.
  exact (highlight_blocks_plain_click_nets_view ex_sides ex_colors ex_graph
           ex_grid ex_coords [ex_trace] 12%Q 17%Q
           (ex_redraw_nets (ex_click 2 ex_state_nets_only)) 2%nat
           eq_refl ex_nets_view_shows_nets ex_click_at_wire_2
           ex_nets_view_wire_2_in_range).
Defined.

Lemma ex_rr_view_1_shown : draw_rr_toggle ex_rr_view_1 <> DRAW_NO_RR.
Proof. intros Heq. discriminate Heq. Defined.

Lemma ex_rr_view_1_wire_2_in_range :
  (2 < length (draw_rr_node ex_rr_view_1))%nat.
Proof. cbn. lia. Defined.

(** The same click in the view that shows the rr graph and not the nets,
    as a click on wire 2 and the redraw have left it: wire 2 is MAGENTA,
    and the click selects it again. *)
Lemma highlight_blocks_plain_click_rr_view_witness :
  exists ds',
    highlight_blocks ex_sides ex_colors ex_graph ex_grid ex_coords [ex_trace]
      12%Q 17%Q false None ex_rr_view_1 = Some (Click_on_routing ds') /\
    (forall X, (X < num_rr_nodes ex_graph)%nat ->
       draw_rr_node ds' !!! X
       = if bool_decide (2%nat ∈ edges (rr_node ex_graph X))
         then {| color := BLUE; node_highlighted := true |}
         else if bool_decide (X ∈ edges (rr_node ex_graph 2))
         then {| color := DRIVES_IT_COLOR ex_colors; node_highlighted := true |}
         else if bool_decide (X = 2%nat)
         then {| color := MAGENTA; node_highlighted := true |}
         else {| color := DEFAULT_RR_NODE_COLOR; node_highlighted := false |}) /\
    (show_nets ex_rr_view_1 = 0%Z ->
     forall is_global drawn calls ds'',
       draw_rr ex_colors ex_graph is_global [ex_trace] ds'
         = Some (drawn, calls, ds'') ->
       forall X, (X < num_rr_nodes ex_graph)%nat ->
         draw_rr_node ds'' !!! X
         = if bool_decide (2%nat ∈ edges (rr_node ex_graph X))
           then {| color := BLUE; node_highlighted := true |}
           else if bool_decide (X ∈ edges (rr_node ex_graph 2))
           then {| color := DRIVES_IT_COLOR ex_colors;
                   node_highlighted := true |}
           else if bool_decide (X = 2%nat)
           then {| color := MAGENTA; node_highlighted := true |}
           else type_colored ex_graph X
                  {| color := DEFAULT_RR_NODE_COLOR;
                     node_highlighted := false |}).
Proof.
  exact (highlight_blocks_plain_click_rr_view ex_sides ex_colors ex_graph
           ex_grid ex_coords [ex_trace] 12%Q 17%Q ex_rr_view_1 2%nat
           ex_rr_view_1_shown ex_click_at_wire_2 ex_rr_view_1_wire_2_in_range
           eq_refl ex_wire_2_no_self_loop).
Defined.

Lemma deselect_all_absorbs_witness :
  exists calls ds',
    drawroute ex_colors ex_graph ALL_NETS [false] [ex_trace]
      (ex_click 2 ex_state_nets_only) = Some (calls, ds') /\
    deselect_all ds' = deselect_all (ex_click 2 ex_state_nets_only).
Proof.
  eexists _, _. split; [reflexivity |].
  exact (proj2 (proj2 (deselect_all_absorbs ex_colors ex_graph [ex_trace]
                         (ex_click 2 ex_state_nets_only)))
           ALL_NETS [false] _ _ eq_refl).
Defined.

(** The edge from the selected wire 2 to pin 3, which takes the colour of
    the pin. *)
Lemma draw_rr_edges_color_witness :
  exists to_node,
    to_node ∈ edges (rr_node ex_graph 2) /\
    2%nat ∈ call_nodes (Call_draw_pin_to_chan_edge 3 2) /\
    to_node ∈ call_nodes (Call_draw_pin_to_chan_edge 3 2) /\
    (color (draw_rr_node (ex_click 2 ex_state_rr_shown) !!! 2%nat) = MAGENTA ->
     RED = color (draw_rr_node (ex_click 2 ex_state_rr_shown) !!! to_node)) /\
    (color (draw_rr_node (ex_click 2 ex_state_rr_shown) !!! 2%nat) <> MAGENTA ->
     color (draw_rr_node (ex_click 2 ex_state_rr_shown) !!! to_node) = MAGENTA ->
     RED = color (draw_rr_node (ex_click 2 ex_state_rr_shown) !!! 2%nat)) /\
    (RED = MAGENTA ->
     color (draw_rr_node (ex_click 2 ex_state_rr_shown) !!! 2%nat) = MAGENTA /\
     color (draw_rr_node (ex_click 2 ex_state_rr_shown) !!! to_node) = MAGENTA).
Proof.
  refine (draw_rr_edges_color ex_graph DRAW_ALL_RR
            (draw_rr_node (ex_click 2 ex_state_rr_shown)) 2%nat _ RED
            (Call_draw_pin_to_chan_edge 3 2) eq_refl _).
  apply elem_of_cons. left. reflexivity.
Defined.

Lemma draw_rr_edges_by_view_witness :
  draw_rr_edges ex_graph DRAW_NODES_RR ex_draw_rr_node 2 = Some [] /\
  forall drawn c call,
    draw_rr_edges ex_graph DRAW_NODES_AND_SBOX_RR ex_draw_rr_node 2
      = Some drawn ->
    (c, call) ∈ drawn -> wire_to_wire call = true.
Proof.
  split.
  - exact (proj1 (draw_rr_edges_by_view ex_graph DRAW_NODES_RR
                    ex_draw_rr_node 2%nat) eq_refl).
  - exact (proj2 (draw_rr_edges_by_view ex_graph DRAW_NODES_AND_SBOX_RR
                    ex_draw_rr_node 2%nat) eq_refl).
Defined.

Lemma ex_all_rr_not_nodes : DRAW_ALL_RR <> DRAW_NODES_RR.
Proof. intros Heq. discriminate Heq. Defined.

Lemma ex_all_rr_not_sbox (inode : nat) :
  ~ (DRAW_ALL_RR = DRAW_NODES_AND_SBOX_RR
     /\ type (rr_node ex_graph inode) = OPIN).
Proof. intros [Heq _]. discriminate Heq. Defined.

Lemma ex_source_0_edge : 1%nat ∈ edges (rr_node ex_graph 0).
Proof. cbn. apply elem_of_cons. by left. Defined.

(** The edge of the x-directed wire of the switch box, which leads to the
    y-directed wire; and the edge of source 0 of the example device, for
    which [draw_rr_edges] has no case. *)
Lemma draw_rr_edges_returns_only_if_witness :
  (is_Some (draw_rr_edges ex_graph_xy DRAW_ALL_RR (draw_rr_node ex_state_xy) 0)
   /\
   forall to_node, to_node ∈ edges (rr_node ex_graph_xy 0) ->
     edge_types_drawn (type (rr_node ex_graph_xy 0))
       (type (rr_node ex_graph_xy to_node)) = true) /\
  (edge_types_drawn (type (rr_node ex_graph 0)) (type (rr_node ex_graph 1))
   = false /\
   draw_rr_edges ex_graph DRAW_ALL_RR ex_draw_rr_node 0 = None).
Proof.
  assert (Hrun : is_Some (draw_rr_edges ex_graph_xy DRAW_ALL_RR
                            (draw_rr_node ex_state_xy) 0))
    by (by eexists).
  assert (Hwire : ~ (DRAW_ALL_RR = DRAW_NODES_AND_SBOX_RR
                     /\ type (rr_node ex_graph_xy 0) = OPIN))
    by (intros [Heq _]; discriminate Heq).
  split.
  - split; [exact Hrun |].
    exact (proj1 (proj1 (draw_rr_edges_returns_only_if ex_graph_xy DRAW_ALL_RR
                           (draw_rr_node ex_state_xy) 0%nat)
                    ex_all_rr_not_nodes Hwire)
             Hrun).
  - split; [reflexivity |].
    exact (proj2 (proj1 (draw_rr_edges_returns_only_if ex_graph DRAW_ALL_RR
                           ex_draw_rr_node 0%nat)
                    ex_all_rr_not_nodes (ex_all_rr_not_sbox 0))
             1%nat ex_source_0_edge eq_refl).
Defined.

Lemma ex_rr_view_nets_black (ds : t_draw_state) :
  net_color ds = [BLACK] ->
  forall inet, (inet < length [false])%nat -> net_color ds !!! inet = BLACK.
Proof. intros -> inet. destruct inet; [reflexivity | cbn; lia]. Defined.

(** The redraw of the rr graph after a click on wire 2. *)
Lemma draw_rr_colors_witness :
  exists drawn calls ds',
    draw_rr ex_colors ex_graph [false] [ex_trace]
      (ex_click 2 ex_state_rr_shown) = Some (drawn, calls, ds') /\
    calls = [] /\
    draw_rr_toggle ds' = draw_rr_toggle (ex_click 2 ex_state_rr_shown) /\
    show_nets ds' = show_nets (ex_click 2 ex_state_rr_shown) /\
    net_color ds' = net_color (ex_click 2 ex_state_rr_shown) /\
    length (draw_rr_node ds')
    = length (draw_rr_node (ex_click 2 ex_state_rr_shown)) /\
    forall X,
      (X < length (draw_rr_node (ex_click 2 ex_state_rr_shown)))%nat ->
      draw_rr_node ds' !!! X
      = if bool_decide
             (draw_rr_toggle (ex_click 2 ex_state_rr_shown) <> DRAW_NO_RR
              /\ (X < num_rr_nodes ex_graph)%nat)
        then type_colored ex_graph X
               (draw_rr_node (ex_click 2 ex_state_rr_shown) !!! X)
        else draw_rr_node (ex_click 2 ex_state_rr_shown) !!! X.
Proof.
  eexists _, _, _. split; [reflexivity |].
  exact (draw_rr_colors ex_colors ex_graph [false] [ex_trace]
           (ex_click 2 ex_state_rr_shown) _ _ _
           (ex_rr_view_nets_black (ex_click 2 ex_state_rr_shown) eq_refl)
           eq_refl).
Defined.

Lemma ex_wire_2_is_node : (2 < num_rr_nodes ex_graph)%nat.
Proof. cbn. lia. Defined.

(** The two wires of the switch box, drawn with their edges: the edge of
    the x-directed wire is among those looked at. *)
Lemma draw_rr_returns_only_if_witness :
  is_Some (draw_rr ex_colors ex_graph_xy [] [] ex_state_xy) /\
  forall to_node, to_node ∈ edges (rr_node ex_graph_xy 0) ->
    edge_types_drawn (type (rr_node ex_graph_xy 0))
      (type (rr_node ex_graph_xy to_node)) = true.
Proof.
  assert (Hrun : is_Some (draw_rr ex_colors ex_graph_xy [] [] ex_state_xy))
    by (vm_compute; by eexists).
  assert (Hnode : (0 < num_rr_nodes ex_graph_xy)%nat) by (cbn; lia).
  split; [exact Hrun |].
  exact (draw_rr_returns_only_if ex_colors ex_graph_xy [] [] ex_state_xy Hrun
           0%nat Hnode
           (or_introl (conj (or_introl eq_refl) (or_introl eq_refl)))).
Defined.

Lemma ex_wire_2_not_source : type (rr_node ex_graph 2) <> SOURCE.
Proof. intros Heq. discriminate Heq. Defined.

Lemma ex_wire_2_not_sink : type (rr_node ex_graph 2) <> SINK.
Proof. intros Heq. discriminate Heq. Defined.

Lemma ex_rr_view_0_drawn :
  exists drawn calls,
    draw_rr ex_colors ex_graph [false] [ex_trace]
      (deselect_all ex_state_rr_shown) = Some (drawn, calls, ex_rr_view_0).
Proof. eexists _, _. vm_compute. reflexivity. Defined.

Lemma ex_rr_view_1_drawn :
  exists drawn calls,
    draw_rr ex_colors ex_graph [false] [ex_trace]
      (highlight_hit_node ex_colors ex_graph [ex_trace] 2 ex_rr_view_0)
    = Some (drawn, calls, ex_rr_view_1).
Proof. eexists _, _. vm_compute. reflexivity. Defined.

Lemma ex_rr_view_2_drawn :
  exists drawn calls,
    draw_rr ex_colors ex_graph [false] [ex_trace]
      (highlight_hit_node ex_colors ex_graph [ex_trace] 2 ex_rr_view_1)
    = Some (drawn, calls, ex_rr_view_2).
Proof. eexists _, _. vm_compute. reflexivity. Defined.

(** Wire 2 selected and deselected again, the rr graph redrawn each
    time. *)
Lemma select_deselect_round_trip_witness :
  draw_rr_node ex_rr_view_1 !!! 2%nat
  = {| color := MAGENTA; node_highlighted := true |} /\
  ex_rr_view_2 = ex_rr_view_0.
Proof.
  destruct ex_rr_view_0_drawn as (drawn0 & calls0 & H0).
  destruct ex_rr_view_1_drawn as (drawn1 & calls1 & H1).
  destruct ex_rr_view_2_drawn as (drawn2 & calls2 & H2).
  exact (select_deselect_round_trip ex_colors ex_graph [false] [ex_trace]
           ex_state_rr_shown 2%nat _ _ _ _ _ _ _ _ _
           ex_rr_shown eq_refl eq_refl ex_wire_2_is_node
           ex_wire_2_no_self_loop ex_wire_2_not_source ex_wire_2_not_sink
           H0 H1 H2).
Defined.

(** The bidirectional wires 0 and 1 of the switch box at (1, 1). *)
Lemma draw_chanx_to_chany_edge_tracks_witness :
  draw_chanx_to_chany_edge ex_graph_xy ex_coords 0 0 1 1 FROM_X_TO_Y
  = draw_chanx_to_chany_edge ex_graph_xy ex_coords 0 3 1 2 FROM_Y_TO_X.
Proof.
  exact (proj2 (proj2 (draw_chanx_to_chany_edge_tracks ex_graph_xy ex_coords
                         0%nat 1%nat))
           eq_refl eq_refl 0 1 FROM_X_TO_Y 3 2 FROM_Y_TO_X).
Defined.

(** The output pin 1 of the example device. *)
Lemma draw_rr_pin_squares_witness :
  draw_rr_pin ex_sides ex_graph ex_grid ex_coords false 1 = Some [] /\
  exists rects,
    draw_rr_pin ex_sides ex_graph ex_grid ex_coords true 1 = Some rects /\
    forall x y,
      (exists rect, rect ∈ rects /\ in_rect x y rect)
      <-> in_pin_region ex_sides ex_graph ex_grid ex_coords x y 1.
Proof.
  exact (draw_rr_pin_squares ex_sides ex_graph ex_grid ex_coords
           ex_sides_are_0_to_3 1%nat).
Defined.

Lemma toggle_crit_path_cycle_witness :
  routed_crit_path DRAW_CRIT_PATH_ROUTING = true /\
  toggle_crit_path PLACEMENT DRAW_CRIT_PATH_ROUTING = Some DRAW_NO_CRIT_PATH.
Proof.
  split; [reflexivity |].
  exact (proj1 (proj2 (proj2 (proj2
           (toggle_crit_path_cycle DRAW_CRIT_PATH_ROUTING)))) eq_refl).
Defined.

Lemma ex_wire_2_on_trace : 2%nat ∈ [ex_trace] !!! 0%nat.
Proof. cbn. repeat constructor. Defined.

Lemma ex_pin_1_not_sink : type (rr_node ex_graph 1) <> SINK.
Proof. intros Heq. discriminate Heq. Defined.

Lemma ex_one_net (M inet' : nat) :
  (inet' < length [false])%nat -> inet' <> 0%nat -> M ∉ [ex_trace] !!! inet'.
Proof. cbn. lia. Defined.

(** The net of the example is highlighted by a click on wire 2; after the
    redraw a second click on wire 2, with the control key held, switches
    it off. *)
Lemma highlighted_net_deselected_by_any_entry_witness :
  exists calls ds2,
    drawroute ex_colors ex_graph ALL_NETS [false] [ex_trace]
      (highlight_hit_node ex_colors ex_graph [ex_trace] 2
         (deselect_all ex_state_nets_only)) = Some (calls, ds2) /\
    net_color ds2 !!! 0%nat = MAGENTA /\
    draw_rr_node ds2 !!! 2%nat
    = {| color := MAGENTA; node_highlighted := true |} /\
    draw_rr_node (highlight_hit_node ex_colors ex_graph [ex_trace] 2 ds2)
      !!! 2%nat
    = {| color := WHITE; node_highlighted := false |} /\
    net_color (highlight_hit_node ex_colors ex_graph [ex_trace] 2 ds2)
      !!! 0%nat = BLACK.
Proof.
  eexists _, _. split; [reflexivity |].
  refine (highlighted_net_deselected_by_any_entry ex_colors ex_graph [false]
            [ex_trace] ex_state_nets_only 2%nat 0%nat 1%nat 1%nat 2%nat _ _
            eq_refl ex_nets_shown _ _ _ _ eq_refl ex_wire_2_on_trace
            ex_trace_well_formed eq_refl ex_pin_1_not_sink eq_refl _
            (ex_one_net 2) eq_refl); cbn; lia.
Defined.

(** The rr graph of the example, drawn after a click on wire 2. *)
Lemma draw_rr_nodes_drawn_witness :
  exists drawn calls ds',
    draw_rr ex_colors ex_graph [false] [ex_trace]
      (ex_click 2 ex_state_rr_shown) = Some (drawn, calls, ds') /\
    omap rr_node_drawn drawn
    = (fun inode => (inode, color (draw_rr_node ds' !!! inode)))
        <$> filter (fun inode => type (rr_node ex_graph inode) <> SOURCE
                                 /\ type (rr_node ex_graph inode) <> SINK)
              (seq 0 (num_rr_nodes ex_graph)).
Proof.
  eexists _, _, _. split; [reflexivity |].
  exact (draw_rr_nodes_drawn ex_colors ex_graph [false] [ex_trace]
           (ex_click 2 ex_state_rr_shown) _ _ _
           ex_rr_shown
           (ex_rr_view_nets_black (ex_click 2 ex_state_rr_shown) eq_refl)
           eq_refl eq_refl).
Defined.
